(** * The 3D-scanner sketch: a shallow embedding and its properties

    The development embeds the Arduino sketch of the scanner (the command
    loop, the stepper pulse generators, the step-by-step scan, the resume
    scan and the CONFIG parser) as state-passing functions that also return
    the trace of hardware and serial events they cause.

    Modelling conventions.
    - [int] is the 16-bit [int] of the ATmega328P (Arduino Uno, the board
      the sketch and its README target).  Values are [Z]; every arithmetic
      operation wraps to sixteen bits, which is what avr-gcc generates.
      Division and remainder by zero have no result ([None]).
    - [float] values are modelled by the rational they denote; rounding to
      single precision is not modelled.
    - The sketch exists twice in the sources, once reading a TF-Luna and once
      reading a VL53L0X; the two differ only in the sensor routines, so the
      embedding is parameterised by the [sketch].
    - What lies outside the sketch is a parameter: the answers of the sensor
      hardware, [String::toFloat] of the Arduino core, and the contents of
      the cells of [intValues] that a CONFIG command leaves unassigned.  The
      answer to a poll of the TF-Luna, whose routine reads a serial port,
      includes how often the routine pauses while it waits for bytes; these
      [delay] calls are events of the trace like all others.
    - [performScan] is embedded although no command calls it.
    - [setup] is the one of the VL53L0X sketch; what it does before [loop]
      runs is recorded as a list of start-up events.

    Three modules of the Grbl firmware of the repository are embedded as
    well: the EEPROM routines, the serial ring buffers with their two
    interrupt handlers, and the TWI module with the VL53L0X and VL53L1
    drivers built on it.
    - Registers of the microcontroller are modelled by what they do: the
      EEPROM by its cells and the programming operations started, the TWI
      unit by the status and the data it presents after each operation.
      Loops that wait for the hardware to finish an operation are not
      modelled.
    - The serial module is the one built without [ENABLE_XONXOFF]; the
      real-time command characters of config.h and [mc_reset] are
      parameters. *)

From Stdlib Require Import ZArith QArith List String Ascii Bool Lia.
Import ListNotations.

Local Open Scope Z_scope.

(** ** Machine integers *)

Module CInt.

Definition INT_MIN : Z := -32768.
Definition INT_MAX : Z := 32767.

(** Two's complement reduction to sixteen bits. *)
Definition wrap (x : Z) : Z := (x + 32768) mod 65536 - 32768.

(** Reduction to the 32 bits of a [long]. *)
Definition wrap_long (x : Z) : Z := (x + 2147483648) mod 4294967296 - 2147483648.

(** Reduction to an unsigned sixteen-bit value ([uint16_t]). *)
Definition to_u16 (x : Z) : Z := x mod 65536.

Definition in_int (x : Z) : Prop := INT_MIN <= x <= INT_MAX.

Definition add (a b : Z) : Z := wrap (a + b).
Definition sub (a b : Z) : Z := wrap (a - b).
Definition mul (a b : Z) : Z := wrap (a * b).
Definition neg (a : Z) : Z := wrap (- a).

(** C division truncates towards zero; the remainder has the sign of the
    dividend. *)
Definition div (a b : Z) : option Z :=
  if b =? 0 then None else Some (wrap (Z.quot a b)).
Definition rem (a b : Z) : option Z :=
  if b =? 0 then None else Some (Z.rem a b).

End CInt.

(** ** Floating point values *)

Inductive cfloat : Type :=
| FNaN
| FInf (negative : bool)
| FNum (q : Q).

Definition f_zero : cfloat := FNum 0.

(** [x > 0] on floats: false on NaN. *)
Definition f_pos (x : cfloat) : bool :=
  match x with
  | FNaN => false
  | FInf negative => negb negative
  | FNum q => 0 <? Qnum q
  end.

(** The value of [raw / 10.0]. *)
Definition f_tenth (raw : Z) : cfloat := FNum (Qred (inject_Z raw / 10)).

(** The value of [k * 360.0 / n] for [n <> 0]. *)
Definition f_angle (k n : Z) : cfloat :=
  FNum (Qred (inject_Z k * 360 / inject_Z n)).

(** The value of [(float) n]. *)
Definition f_of_int (n : Z) : cfloat := FNum (inject_Z n).

(** ** The Arduino [String] operations the sketch uses *)

Module WString.

Local Open Scope char_scope.

Definition isspace (c : ascii) : bool :=
  let n := nat_of_ascii c in
  (Nat.eqb n 32 || (Nat.leb 9 n && Nat.leb n 13))%bool.

Definition isdigit (c : ascii) : bool :=
  let n := nat_of_ascii c in (Nat.leb 48 n && Nat.leb n 57)%bool.

Definition toupper (c : ascii) : ascii :=
  let n := nat_of_ascii c in
  if (Nat.leb 97 n && Nat.leb n 122)%bool then ascii_of_nat (n - 32) else c.

Fixpoint drop_space (l : list ascii) : list ascii :=
  match l with
  | c :: r => if isspace c then drop_space r else l
  | [] => []
  end.

(** [String::trim]: strips white space at both ends. *)
Definition trim (s : string) : string :=
  string_of_list_ascii
    (rev (drop_space (rev (drop_space (list_ascii_of_string s))))).

(** [String::toUpperCase]. *)
Definition toUpperCase (s : string) : string :=
  string_of_list_ascii (map toupper (list_ascii_of_string s)).

(** [String::startsWith]. *)
Definition startsWith (s p : string) : bool := String.prefix p s.

Fixpoint index_from (c : ascii) (l : list ascii) (i : Z) : Z :=
  match l with
  | [] => -1
  | d :: r => if Ascii.eqb d c then i else index_from c r (i + 1)
  end.

(** [String::indexOf(char)]: position of the first occurrence, or -1. *)
Definition indexOf (c : ascii) (s : string) : Z :=
  index_from c (list_ascii_of_string s) 0.

Definition length (s : string) : Z := Z.of_nat (String.length s).

(** [String::substring(left, right)] for [left <= right]: the characters at
    positions [left .. right-1], cut at the end of the string. *)
Definition substring (left right : Z) (s : string) : string :=
  String.substring (Z.to_nat left) (Z.to_nat (right - left)) s.

(** [String::substring(left)]: the rest of the string from [left] on. *)
Definition substring_from (left : Z) (s : string) : string :=
  substring left (length s) s.

Fixpoint digits (acc : Z) (l : list ascii) : Z :=
  match l with
  | c :: r =>
      if isdigit c then digits (10 * acc + Z.of_nat (nat_of_ascii c - 48)) r
      else acc
  | [] => acc
  end.

(** The number [atol] reads: leading white space, an optional sign, then
    decimal digits up to the first other character. *)
Definition atol (s : string) : Z :=
  match drop_space (list_ascii_of_string s) with
  | "-" :: r => - digits 0 r
  | "+" :: r => digits 0 r
  | l => digits 0 l
  end.

(** [String::toInt] returns a [long]. *)
Definition toInt (s : string) : Z := CInt.wrap_long (atol s).

(** Assigning that [long] to an [int] keeps its low sixteen bits. *)
Definition toInt16 (s : string) : Z := CInt.wrap (toInt s).

End WString.

Local Open Scope string_scope.
Local Open Scope list_scope.
Local Open Scope Z_scope.

(** ** Hardware and serial events *)

Inductive level : Type := LOW | HIGH.

Inductive sensor_kind : Type := TF_Luna | VL53L0X | VL53L1.

(** The argument of a [Serial.print] or [Serial.println] call. *)
Inductive token : Type :=
| TStr (s : string)
| TInt (n : Z)
| TFloat (x : cfloat) (decimals : Z).

Inductive event : Type :=
| DigitalWrite (pin : Z) (v : level)
| DelayMicroseconds (us : Z)
| DelayMs (ms : Z)
| SensorPoll (k : sensor_kind)
| SerialPrint (t : token)
| SerialPrintln (t : token)
| SerialNewline.

Definition trace : Type := list event.

(** What the sensor hardware answers to one poll.  [vl_range] and
    [vl_timeout] are the results of [readRangeContinuousMillimeters] and
    [timeoutOccurred] of the VL53L0X library.  The three other fields
    describe one call of [readTF_Luna], whose course depends on what the
    serial port of the TF-Luna has received and when: [tf_waits] is the
    number of times its first loop finds fewer than nine bytes before 100 ms
    have passed, [tf_retries] the number of times its search for the frame
    header finds no second byte yet, and [tf_frame] the distance and signal
    strength of the frame it gets hold of, or [None] when it finds no
    complete frame. *)
Record sample : Type := mkSample {
  vl_range : Z;
  vl_timeout : bool;
  tf_waits : nat;
  tf_retries : nat;
  tf_frame : option (Z * Z)
}.

(** [maxAttempts] of [readTF_Luna]: its search for the header gives up
    after this many bytes. *)
Definition TF_MAX_ATTEMPTS : nat := 50.

(** The pauses of one call of [readTF_Luna]: [delay(1)] in every iteration
    of the loop that waits for nine bytes, then [delay(5)] whenever the
    search for the header has to wait for the second byte, which happens at
    most once for each of its [maxAttempts] iterations. *)
Definition tf_waiting (a : sample) : trace :=
  repeat (DelayMs 1) (tf_waits a) ++
  repeat (DelayMs 5) (Nat.min (tf_retries a) TF_MAX_ATTEMPTS).

(** The two sketches of the repository. *)
Inductive sketch : Type := SketchTFLuna | SketchVL53L0X.

Definition sensor_of (sk : sketch) : sensor_kind :=
  match sk with
  | SketchTFLuna => TF_Luna
  | SketchVL53L0X => VL53L0X
  end.

(** ** Pins and constants *)

Definition X_STEP_PIN : Z := 2.
Definition X_DIR_PIN : Z := 5.
Definition X_ENABLE_PIN : Z := 8.
Definition Z_STEP_PIN : Z := 4.
Definition Z_DIR_PIN : Z := 7.
Definition Z_ENABLE_PIN : Z := 8.

Definition DEFAULT_STEPS_PER_REV : Z := 1600.
Definition DEFAULT_THETA_STEPS_PER_REV : Z := 200.
Definition DEFAULT_Z_STEPS_PER_MM : Z := 200.
Definition DEFAULT_Z_TRAVEL_MM : Z := 200.
Definition DEFAULT_Z_STEPS_PER_LAYER : Z := 400.
Definition DEFAULT_SCAN_DELAY_MS : Z := 50.
Definition MIN_THETA_STEPS_PER_REV : Z := 4.
Definition MAX_THETA_STEPS_PER_REV : Z := 3600.
Definition DATA_DELIMITER : Z := 9999.

(** ** The global variables of the sketch *)

Record state : Type := mkState {
  scanning : bool;
  paused : bool;
  scan_direction_up : bool;
  current_theta_step : Z;
  paused_layer : Z;
  paused_step : Z;
  scan_current_layer : Z;
  scan_current_step : Z;
  step_by_step_mode : bool;
  theta_steps_per_rev : Z;
  z_steps_per_mm : Z;
  z_travel_mm : Z;
  z_steps_per_layer : Z;
  scan_delay_ms : Z;
  center_distance_cm : cfloat;
  steps_per_rev : Z;
  (** number of sensor polls made so far: the index of the next [sample] *)
  polls : nat
}.

Definition initial_state : state :=
  {| scanning := false; paused := false; scan_direction_up := true;
     current_theta_step := 0; paused_layer := 0; paused_step := 0;
     scan_current_layer := 0; scan_current_step := 0;
     step_by_step_mode := false;
     theta_steps_per_rev := DEFAULT_THETA_STEPS_PER_REV;
     z_steps_per_mm := DEFAULT_Z_STEPS_PER_MM;
     z_travel_mm := DEFAULT_Z_TRAVEL_MM;
     z_steps_per_layer := DEFAULT_Z_STEPS_PER_LAYER;
     scan_delay_ms := DEFAULT_SCAN_DELAY_MS;
     center_distance_cm := FNum 15;
     steps_per_rev := DEFAULT_STEPS_PER_REV;
     polls := 0 |}.

Definition set_scanning (v : bool) (s : state) : state :=
  mkState v (paused s) (scan_direction_up s) (current_theta_step s)
    (paused_layer s) (paused_step s) (scan_current_layer s)
    (scan_current_step s) (step_by_step_mode s) (theta_steps_per_rev s)
    (z_steps_per_mm s) (z_travel_mm s) (z_steps_per_layer s) (scan_delay_ms s)
    (center_distance_cm s) (steps_per_rev s) (polls s).

Definition set_paused (v : bool) (s : state) : state :=
  mkState (scanning s) v (scan_direction_up s) (current_theta_step s)
    (paused_layer s) (paused_step s) (scan_current_layer s)
    (scan_current_step s) (step_by_step_mode s) (theta_steps_per_rev s)
    (z_steps_per_mm s) (z_travel_mm s) (z_steps_per_layer s) (scan_delay_ms s)
    (center_distance_cm s) (steps_per_rev s) (polls s).

Definition set_scan_direction_up (v : bool) (s : state) : state :=
  mkState (scanning s) (paused s) v (current_theta_step s)
    (paused_layer s) (paused_step s) (scan_current_layer s)
    (scan_current_step s) (step_by_step_mode s) (theta_steps_per_rev s)
    (z_steps_per_mm s) (z_travel_mm s) (z_steps_per_layer s) (scan_delay_ms s)
    (center_distance_cm s) (steps_per_rev s) (polls s).

Definition set_current_theta_step (v : Z) (s : state) : state :=
  mkState (scanning s) (paused s) (scan_direction_up s) v
    (paused_layer s) (paused_step s) (scan_current_layer s)
    (scan_current_step s) (step_by_step_mode s) (theta_steps_per_rev s)
    (z_steps_per_mm s) (z_travel_mm s) (z_steps_per_layer s) (scan_delay_ms s)
    (center_distance_cm s) (steps_per_rev s) (polls s).

Definition set_paused_layer (v : Z) (s : state) : state :=
  mkState (scanning s) (paused s) (scan_direction_up s) (current_theta_step s)
    v (paused_step s) (scan_current_layer s)
    (scan_current_step s) (step_by_step_mode s) (theta_steps_per_rev s)
    (z_steps_per_mm s) (z_travel_mm s) (z_steps_per_layer s) (scan_delay_ms s)
    (center_distance_cm s) (steps_per_rev s) (polls s).

Definition set_paused_step (v : Z) (s : state) : state :=
  mkState (scanning s) (paused s) (scan_direction_up s) (current_theta_step s)
    (paused_layer s) v (scan_current_layer s)
    (scan_current_step s) (step_by_step_mode s) (theta_steps_per_rev s)
    (z_steps_per_mm s) (z_travel_mm s) (z_steps_per_layer s) (scan_delay_ms s)
    (center_distance_cm s) (steps_per_rev s) (polls s).

Definition set_scan_current_layer (v : Z) (s : state) : state :=
  mkState (scanning s) (paused s) (scan_direction_up s) (current_theta_step s)
    (paused_layer s) (paused_step s) v
    (scan_current_step s) (step_by_step_mode s) (theta_steps_per_rev s)
    (z_steps_per_mm s) (z_travel_mm s) (z_steps_per_layer s) (scan_delay_ms s)
    (center_distance_cm s) (steps_per_rev s) (polls s).

Definition set_scan_current_step (v : Z) (s : state) : state :=
  mkState (scanning s) (paused s) (scan_direction_up s) (current_theta_step s)
    (paused_layer s) (paused_step s) (scan_current_layer s)
    v (step_by_step_mode s) (theta_steps_per_rev s)
    (z_steps_per_mm s) (z_travel_mm s) (z_steps_per_layer s) (scan_delay_ms s)
    (center_distance_cm s) (steps_per_rev s) (polls s).

Definition set_step_by_step_mode (v : bool) (s : state) : state :=
  mkState (scanning s) (paused s) (scan_direction_up s) (current_theta_step s)
    (paused_layer s) (paused_step s) (scan_current_layer s)
    (scan_current_step s) v (theta_steps_per_rev s)
    (z_steps_per_mm s) (z_travel_mm s) (z_steps_per_layer s) (scan_delay_ms s)
    (center_distance_cm s) (steps_per_rev s) (polls s).

Definition set_polls (v : nat) (s : state) : state :=
  mkState (scanning s) (paused s) (scan_direction_up s) (current_theta_step s)
    (paused_layer s) (paused_step s) (scan_current_layer s)
    (scan_current_step s) (step_by_step_mode s) (theta_steps_per_rev s)
    (z_steps_per_mm s) (z_travel_mm s) (z_steps_per_layer s) (scan_delay_ms s)
    (center_distance_cm s) (steps_per_rev s) v.

(** The seven assignments at the end of a successful CONFIG command. *)
Definition set_config (theta travel per_mm per_layer delay : Z)
    (center : cfloat) (spr : Z) (s : state) : state :=
  mkState (scanning s) (paused s) (scan_direction_up s) (current_theta_step s)
    (paused_layer s) (paused_step s) (scan_current_layer s)
    (scan_current_step s) (step_by_step_mode s) theta
    per_mm travel per_layer delay center spr (polls s).

(** ** The monad of the sketch: state, event trace, undefined behaviour *)

(** A computation runs from a state and either has no defined result
    ([None]: it divides by zero) or returns a value, the new state and the
    events it caused, in order. *)
Definition M (A : Type) : Type := state -> option (A * state * trace).

Definition ret {A} (a : A) : M A := fun s => Some (a, s, []).

Definition bind {A B} (m : M A) (k : A -> M B) : M B :=
  fun s =>
    match m s with
    | None => None
    | Some (a, s1, t1) =>
        match k a s1 with
        | None => None
        | Some (b, s2, t2) => Some (b, s2, t1 ++ t2)
        end
    end.

Notation "x <- m ;; k" := (bind m (fun x => k))
  (at level 61, m at next level, right associativity).
Notation "m ;; k" := (bind m (fun _ => k))
  (at level 61, right associativity).

Definition gets {A} (f : state -> A) : M A := fun s => Some (f s, s, []).
Definition modify (f : state -> state) : M unit := fun s => Some (tt, f s, []).
Definition emit (e : event) : M unit := fun s => Some (tt, s, [e]).
Definition defined {A} (o : option A) : M A :=
  fun s => match o with Some a => Some (a, s, []) | None => None end.

Definition digitalWrite (pin : Z) (v : level) : M unit := emit (DigitalWrite pin v).
Definition delayMicroseconds (us : Z) : M unit := emit (DelayMicroseconds us).
Definition delay (ms : Z) : M unit := emit (DelayMs ms).
Definition print (t : token) : M unit := emit (SerialPrint t).
Definition println (t : token) : M unit := emit (SerialPrintln t).
Definition newline : M unit := emit SerialNewline.

(** A [for (int i = 0; i < n; i++)] loop whose body uses neither [i] nor
    [break]. *)
Fixpoint times (n : nat) (body : M unit) : M unit :=
  match n with
  | O => ret tt
  | S n' => body ;; times n' body
  end.

(** How a loop body ends: at its closing brace or at a [break]. *)
Inductive flow : Type := Next | Break.

(** [for (int i = start; cond(i); i++) body(i)].  The recursion is on a
    bound of the number of iterations; every loop of the sketch tests
    [i < limit] in [cond] and is run with [limit - start] as the bound. *)
Fixpoint for_loop (fuel : nat) (i : Z) (cond : Z -> state -> bool)
    (body : Z -> M flow) : M unit :=
  match fuel with
  | O => ret tt
  | S fuel' =>
      fun s =>
        if cond i s then
          (f <- body i ;;
           match f with
           | Break => ret tt
           | Next => for_loop fuel' (i + 1) cond body
           end) s
        else ret tt s
  end.

(** A fixed-size C array: writing inside the bounds replaces the cell. *)
Fixpoint store {A} (i : nat) (v : A) (l : list A) : list A :=
  match l, i with
  | [], _ => []
  | _ :: r, O => v :: r
  | x :: r, S i' => x :: store i' v r
  end.

(** [!scanning || paused] and [scanning && !paused], the two tests the scan
    loops repeat. *)
Definition stopped (s : state) : bool := negb (scanning s) || paused s.
Definition running (s : state) : bool := scanning s && negb (paused s).

(** ** Reading traces *)

(** The events of one stepper pulse on [pin]. *)
Definition pulse_events (pin : Z) : trace :=
  [DigitalWrite pin LOW; DelayMicroseconds 500;
   DigitalWrite pin HIGH; DelayMicroseconds 500].

(** [n] pulses in a row. *)
Definition pulses (pin : Z) (n : nat) : trace :=
  List.concat (repeat (pulse_events pin) n).

(** The levels written to [pin], in order. *)
Fixpoint writes_on (pin : Z) (t : trace) : list level :=
  match t with
  | [] => []
  | DigitalWrite p v :: r =>
      if p =? pin then v :: writes_on pin r else writes_on pin r
  | _ :: r => writes_on pin r
  end.

(** The writes to the two STEP pins, in order. *)
Fixpoint step_writes (t : trace) : list (Z * level) :=
  match t with
  | [] => []
  | DigitalWrite p v :: r =>
      if (p =? X_STEP_PIN) || (p =? Z_STEP_PIN) then (p, v) :: step_writes r
      else step_writes r
  | _ :: r => step_writes r
  end.

(** A sequence of STEP-pin writes made of LOW-then-HIGH pairs only. *)
Inductive pulse_train : list (Z * level) -> Prop :=
| pulse_train_nil : pulse_train []
| pulse_train_cons pin l :
    pulse_train l -> pulse_train ((pin, LOW) :: (pin, HIGH) :: l).

(** The pins written, in order. *)
Definition pins_written (t : trace) : list Z :=
  flat_map (fun e => match e with DigitalWrite p _ => [p] | _ => [] end) t.

(** The sensors polled, in order. *)
Fixpoint polled (t : trace) : list sensor_kind :=
  match t with
  | [] => []
  | SensorPoll k :: r => k :: polled r
  | _ :: r => polled r
  end.

(** The serial output cut into lines: [lines_from acc t] returns the lines
    completed by [t], starting with the tokens [acc] already printed on the
    current line, and the tokens of the last, unfinished line. *)
Fixpoint lines_from (acc : list token) (t : trace)
    : list (list token) * list token :=
  match t with
  | [] => ([], acc)
  | SerialPrint k :: r => lines_from (acc ++ [k]) r
  | SerialPrintln k :: r =>
      let '(ls, p) := lines_from [] r in ((acc ++ [k]) :: ls, p)
  | SerialNewline :: r =>
      let '(ls, p) := lines_from [] r in (acc :: ls, p)
  | _ :: r => lines_from acc r
  end.

Definition serial_lines (t : trace) : list (list token) := fst (lines_from [] t).

(** The line of a scan point. *)
Definition point_line (layer step : Z) (distance angle : cfloat) : list token :=
  [TInt layer; TStr ","; TInt step; TStr ",";
   TFloat distance 2; TStr ","; TFloat angle 1].

(** The layer and step a point line carries. *)
Definition point_position (l : list token) : option (Z * Z) :=
  match l with
  | [TInt layer; TStr _; TInt step; TStr _; TFloat _ _; TStr _; TFloat _ _] =>
      Some (layer, step)
  | _ => None
  end.

(** The positions of the point lines among [ls], in order. *)
Definition positions (ls : list (list token)) : list (Z * Z) :=
  flat_map (fun l => match point_position l with
                     | Some p => [p]
                     | None => []
                     end) ls.

(** The events of printing that line. *)
Definition point_events (layer step : Z) (distance angle : cfloat) : trace :=
  [SerialPrint (TInt layer); SerialPrint (TStr ","); SerialPrint (TInt step);
   SerialPrint (TStr ","); SerialPrint (TFloat distance 2);
   SerialPrint (TStr ","); SerialPrintln (TFloat angle 1)].

(** The Z axis as the stepper driver sees it: the level of its DIR and STEP
    inputs and the carriage position in steps.  A rising edge on STEP moves
    the carriage one step, up when DIR is LOW and down when it is HIGH. *)
Record zaxis : Type := mkZaxis {
  z_dir : level;
  z_step : level;
  z_pos : Z
}.

Definition z_event (a : zaxis) (e : event) : zaxis :=
  match e with
  | DigitalWrite p v =>
      if p =? Z_DIR_PIN then mkZaxis v (z_step a) (z_pos a)
      else if p =? Z_STEP_PIN then
        match z_step a, v with
        | LOW, HIGH =>
            mkZaxis (z_dir a) HIGH
              (match z_dir a with LOW => z_pos a + 1 | HIGH => z_pos a - 1 end)
        | _, _ => mkZaxis (z_dir a) v (z_pos a)
        end
      else a
  | _ => a
  end.

Definition z_run (a : zaxis) (t : trace) : zaxis := fold_left z_event t a.

(** The number of rising edges [t] puts on the STEP input of the Z driver. *)
Fixpoint z_edges (prev : level) (t : trace) : nat :=
  match t with
  | [] => O
  | DigitalWrite p v :: r =>
      if p =? Z_STEP_PIN then
        match prev, v with
        | LOW, HIGH => S (z_edges v r)
        | _, _ => z_edges v r
        end
      else z_edges prev r
  | _ :: r => z_edges prev r
  end.

(** ** Well-formed states *)

(** The configuration satisfies what CONFIG validation enforces (and the
    defaults satisfy), and the counters hold sixteen-bit values. *)
Record wf (s : state) : Prop := mkWf {
  wf_theta : MIN_THETA_STEPS_PER_REV <= theta_steps_per_rev s <= MAX_THETA_STEPS_PER_REV;
  wf_spr : theta_steps_per_rev s <= steps_per_rev s <= CInt.INT_MAX;
  wf_travel : 0 < z_travel_mm s <= CInt.INT_MAX;
  wf_per_mm : 0 < z_steps_per_mm s <= CInt.INT_MAX;
  wf_per_layer : 0 < z_steps_per_layer s <= CInt.INT_MAX;
  wf_delay : 0 <= scan_delay_ms s <= CInt.INT_MAX;
  wf_theta_step :
    - MAX_THETA_STEPS_PER_REV < current_theta_step s < MAX_THETA_STEPS_PER_REV;
  wf_layer : CInt.in_int (scan_current_layer s);
  wf_step : CInt.in_int (scan_current_step s)
}.

(** The number of layers as [performScanStep] computes it. *)
Definition zLayers_of (s : state) : Z :=
  let q := CInt.wrap (Z.quot (CInt.mul (z_travel_mm s) (z_steps_per_mm s))
                        (z_steps_per_layer s)) in
  if q <=? 0 then 1000 else q.

(** The number of layers as [resumeScan], [moveToTop] and [returnToHome]
    compute it. *)
Definition total_layers (s : state) : Z :=
  CInt.wrap (Z.quot (CInt.mul (z_travel_mm s) (z_steps_per_mm s))
               (z_steps_per_layer s)).

(** The acceptance condition of a CONFIG command, on the values parsed:
    theta within its limits and not above the steps per revolution, the first
    four integers positive, the delay not negative, the centre distance and
    the steps per revolution positive. *)
Definition config_accepted (intValues : list Z) (centerDist : cfloat)
    (stepsPerRev : Z) : bool :=
  let v (i : nat) := nth i intValues 0 in
  ((MIN_THETA_STEPS_PER_REV <=? v 0%nat) && (v 0%nat <=? MAX_THETA_STEPS_PER_REV))
  && ((v 0%nat <=? stepsPerRev)
      && ((0 <? v 0%nat) && (0 <? v 1%nat) && (0 <? v 2%nat) && (0 <? v 3%nat)
          && (0 <=? v 4%nat) && f_pos centerDist && (0 <? stepsPerRev))).

(** The text a trace starts with, when it starts by printing a text. *)
Definition first_text (t : trace) : string :=
  match t with
  | SerialPrint (TStr m) :: _ => m
  | SerialPrintln (TStr m) :: _ => m
  | _ => ""
  end.

(** A small configuration used in examples: four points per revolution and
    two layers. *)
Definition small_state : state :=
  set_config 4 2 2 2 0 (FNum 10) 4 initial_state.

(** A scan in progress on the small configuration. *)
Definition scanning_state : state :=
  set_step_by_step_mode true (set_scanning true small_state).

(** A [toFloat] for examples: reads an unsigned or signed integer. *)
Definition demo_toFloat (s : string) : cfloat := FNum (inject_Z (WString.atol s)).

(** A sensor for examples: the n-th poll answers 100 + n millimetres
    (VL53L0X) or centimetres (TF-Luna, with a strong signal, after waiting
    3 ms for the frame). *)
Definition demo_sensor (n : nat) : sample :=
  mkSample (100 + Z.of_nat n) false 3 0 (Some (100 + Z.of_nat n, 1000)).

(** Array contents for examples. *)
Definition demo_uninit (n : nat) : Z := 0.

(** ** Start-up of the VL53L0X sketch *)

Definition SERIAL_BAUD : Z := 115200.

(** What [setup] does: calls into the Arduino core and the sensor library,
    and the events [loop] can cause as well. *)
Inductive boot_event : Type :=
| SerialBegin (baud : Z)
| WireBegin
| SensorInit
| SensorSetTimeout (ms : Z)
| SensorStartContinuous
| PinModeOutput (pin : Z)
| Run (e : event).

(** How [setup] ends: it returns, or it stays in the [while (1) {}] of
    [initVL53L0X]. *)
Inductive boot_result : Type := Booted | Hung.

Definition initMotors : list boot_event :=
  [PinModeOutput X_STEP_PIN; PinModeOutput X_DIR_PIN; PinModeOutput X_ENABLE_PIN;
   PinModeOutput Z_STEP_PIN; PinModeOutput Z_DIR_PIN;
   Run (DigitalWrite X_ENABLE_PIN LOW); Run (DigitalWrite Z_ENABLE_PIN LOW);
   Run (DigitalWrite X_DIR_PIN LOW); Run (DigitalWrite Z_DIR_PIN LOW);
   Run (DigitalWrite X_STEP_PIN LOW); Run (DigitalWrite Z_STEP_PIN LOW)].

(** [init_ok] is the answer of [sensor.init()]. *)
Definition initVL53L0X (init_ok : bool) : list boot_event * boot_result :=
  if negb init_ok then
    ([SensorInit;
      Run (SerialPrintln (TStr "Failed to detect and initialize VL53L0X!"))],
     Hung)
  else
    ([SensorInit; SensorSetTimeout 500; SensorStartContinuous;
      Run (SerialPrintln (TStr "VL53L0X Initialized"))],
     Booted).

(** [setup] on the values [s] of the global variables.  On the ATmega328P
    [Serial] is always true, so the loop [while (!Serial) delay(10)] does not
    run. *)
Definition setup (init_ok : bool) (s : state) : list boot_event * boot_result :=
  let '(t, r) := initVL53L0X init_ok in
  match r with
  | Hung => ([SerialBegin SERIAL_BAUD; WireBegin] ++ t, Hung)
  | Booted =>
      ([SerialBegin SERIAL_BAUD; WireBegin] ++ t ++ initMotors ++
       map Run
         [SerialPrintln (TStr "3D Scanner Ready");
          SerialPrintln (TStr "Commands:");
          SerialPrintln (TStr "  START - Begin scanning");
          SerialPrintln (TStr "  STOP - Stop scanning");
          SerialPrintln (TStr "  HOME - Return to home position");
          SerialPrintln (TStr "  MOVE_TO_TOP - Move to top position");
          SerialPrintln (TStr "  CONFIG,theta,z_travel,z_steps/mm,z_steps/layer,delay,center,steps/rev - Set scan parameters");
          SerialPrintln (TStr "  Note: z_steps/layer is auto-calculated from z_layer_height * z_steps/mm in GUI");
          SerialPrint (TStr "Current config: theta=");
          SerialPrint (TInt (theta_steps_per_rev s));
          SerialPrint (TStr " z_travel=");
          SerialPrint (TInt (z_travel_mm s));
          SerialPrint (TStr "mm z_steps/mm=");
          SerialPrint (TInt (z_steps_per_mm s));
          SerialPrint (TStr " z_steps/layer=");
          SerialPrint (TInt (z_steps_per_layer s));
          SerialPrint (TStr " delay=");
          SerialPrint (TInt (scan_delay_ms s));
          SerialPrintln (TStr "ms")],
       Booted)
  end.

(** The events of a start-up that [loop] can cause as well. *)
Definition boot_trace (b : list boot_event) : trace :=
  flat_map (fun e => match e with Run e' => [e'] | _ => [] end) b.

(** The pins configured as outputs. *)
Definition output_pins (b : list boot_event) : list Z :=
  flat_map (fun e => match e with PinModeOutput p => [p] | _ => [] end) b.

(** The level last written to [pin], if any. *)
Definition last_level (pin : Z) (t : trace) : option level :=
  last (map Some (writes_on pin t)) None.

(** ** Auxiliary notions for the proofs *)

(** ** Properties of every trace a computation can produce *)

Definition emits {A} (P : trace -> Prop) (m : M A) : Prop :=
  forall s a s' t, m s = Some (a, s', t) -> P t.

(** Events that are neither a sensor poll nor a write to a STEP pin. *)
Definition quiet (e : event) : Prop :=
  match e with
  | DigitalWrite p _ => p = X_DIR_PIN \/ p = Z_DIR_PIN
  | SensorPoll _ => False
  | _ => True
  end.

(** The events of [n] layers of lift, each of [k] pulses and a pause. *)
Definition lift_events (k n : nat) : trace :=
  List.concat (repeat (pulses Z_STEP_PIN k ++ [DelayMs 10]) n).

(** Where [k] steps take the carriage. *)
Definition z_after (a : zaxis) (k : nat) : zaxis :=
  match k with
  | O => a
  | S _ =>
      mkZaxis (z_dir a) HIGH
        (match z_dir a with
         | LOW => z_pos a + Z.of_nat k
         | HIGH => z_pos a - Z.of_nat k
         end)
  end.

(** Lines put in front of what follows. *)
Definition prepend (ls : list (list token))
    (r : list (list token) * list token) : list (list token) * list token :=
  (ls ++ fst r, snd r).

(** ** The Grbl firmware: EEPROM *)

(** Reduction to a [uint8_t]. *)
Definition u8 (x : Z) : Z := x mod 256.

(** A programming operation of the EEPROM of the AVR. *)
Inductive ee_op : Type :=
| EraseWrite (addr v : Z)
| EraseOnly (addr : Z)
| WriteOnly (addr v : Z).

(** The EEPROM: the byte at each address and the programming operations
    started so far, in order.  An operation is modelled by its result:
    erase-and-write stores the data register, erase-only stores 0xFF,
    write-only clears the bits that are 0 in the data register.  The loops
    that wait for the previous operation to finish ([EEPE] clear) are not
    modelled: the hardware clears the bit after the programming time. *)
Record eeprom : Type := mkEeprom {
  ee_cell : Z -> Z;
  ee_ops : list ee_op
}.

Definition ee_program (op : ee_op) (m : eeprom) : eeprom :=
  let put addr v :=
    mkEeprom (fun a => if a =? addr then v else ee_cell m a) (ee_ops m ++ [op]) in
  match op with
  | EraseWrite addr v => put addr v
  | EraseOnly addr => put addr 255
  | WriteOnly addr v => put addr (Z.land (ee_cell m addr) v)
  end.

Definition eeprom_get_char (addr : Z) (m : eeprom) : Z := ee_cell m addr.

(** [new_value] is an [unsigned char]; [old_value] and [diff_mask] are
    [char]s whose bits above the low eight never meet a set bit of
    [new_value]. *)
Definition eeprom_put_char (addr new_value : Z) (m : eeprom) : eeprom :=
  let old_value := ee_cell m addr in
  let diff_mask := Z.lxor old_value new_value in
  if negb (Z.land diff_mask new_value =? 0) then
    if negb (new_value =? 255) then ee_program (EraseWrite addr new_value) m
    else ee_program (EraseOnly addr) m
  else
    if negb (diff_mask =? 0) then ee_program (WriteOnly addr new_value) m
    else m.

(** [unsigned int] addresses wrap at sixteen bits. *)
Definition next_addr (a : Z) : Z := (a + 1) mod 65536.

(** [checksum = (checksum << 1) || (checksum >> 7); checksum += data;] on an
    [unsigned char]: [||] is the logical or, whose value is 0 or 1. *)
Definition checksum_step (checksum data : Z) : Z :=
  let rotated :=
    if negb (Z.shiftl checksum 1 =? 0) || negb (Z.shiftr checksum 7 =? 0)
    then 1 else 0 in
  (rotated + data) mod 256.

(** The loop of [memcpy_to_eeprom_with_checksum] over the [size] bytes at
    [source]; it returns the final [destination] and [checksum]. *)
Fixpoint memcpy_to_loop (destination : Z) (source : list Z) (checksum : Z)
    (m : eeprom) : Z * Z * eeprom :=
  match source with
  | [] => (destination, checksum, m)
  | b :: rest =>
      memcpy_to_loop (next_addr destination) rest (checksum_step checksum b)
        (eeprom_put_char destination b m)
  end.

Definition memcpy_to_eeprom_with_checksum (destination : Z) (source : list Z)
    (m : eeprom) : eeprom :=
  let '(destination, checksum, m) := memcpy_to_loop destination source 0 m in
  eeprom_put_char destination checksum m.

(** The loop of [memcpy_from_eeprom_with_checksum]; it returns the bytes
    stored at [destination], the final [source] and [checksum]. *)
Fixpoint memcpy_from_loop (source : Z) (size : nat) (checksum : Z)
    (m : eeprom) : list Z * Z * Z :=
  match size with
  | O => ([], source, checksum)
  | S size' =>
      let data := eeprom_get_char source m in
      let '(rest, source', checksum') :=
        memcpy_from_loop (next_addr source) size' (checksum_step checksum data) m in
      (data :: rest, source', checksum')
  end.

(** It returns the bytes copied and the value of
    [checksum == eeprom_get_char(source)]. *)
Definition memcpy_from_eeprom_with_checksum (source : Z) (size : nat)
    (m : eeprom) : list Z * Z :=
  let '(data, source, checksum) := memcpy_from_loop source size 0 m in
  (data, if checksum =? eeprom_get_char source m then 1 else 0).

(** The checksum of a block. *)
Definition block_checksum (l : list Z) : Z := fold_left checksum_step l 0.

Definition is_byte (b : Z) : Prop := 0 <= b < 256.

(** The cells [a], [a + 1], ... hold the bytes [l]. *)
Definition holds (m : eeprom) (a : Z) (l : list Z) : Prop :=
  forall k, (k < List.length l)%nat -> ee_cell m (a + Z.of_nat k) = nth k l 0.

(** The EEPROM with the cells from [a] on replaced by [l], as a fault would
    leave it. *)
Definition corrupt (a : Z) (l : list Z) (m : eeprom) : eeprom :=
  mkEeprom
    (fun x =>
       if (a <=? x) && (x <? a + Z.of_nat (List.length l))
       then nth (Z.to_nat (x - a)) l 0 else ee_cell m x)
    (ee_ops m).

(** The size of the EEPROM of the ATmega328P, in bytes. *)
Definition EEPROM_SIZE : Z := 1024.

(** An EEPROM that has never been programmed. *)
Definition erased_eeprom : eeprom := mkEeprom (fun _ => 255) [].

(** ** The Grbl firmware: serial ring buffers *)

Definition RX_BUFFER_SIZE : Z := 128.
Definition TX_BUFFER_SIZE : Z := 64.
Definition SERIAL_NO_DATA : Z := 255.

Definition EXEC_STATUS_REPORT : Z := 1.
Definition EXEC_CYCLE_START : Z := 2.
Definition EXEC_FEED_HOLD : Z := 8.
Definition EXEC_RESET : Z := 16.
Definition EXEC_SAFETY_DOOR : Z := 32.

(** The variables of serial.c, the real-time flags it sets and the
    data-register-empty interrupt enable bit [UDRIE0].  Buffers are
    functions from the index to the byte. *)
Record serial : Type := mkSerial {
  serial_rx_buffer : Z -> Z;
  serial_rx_buffer_head : Z;
  serial_rx_buffer_tail : Z;
  serial_tx_buffer : Z -> Z;
  serial_tx_buffer_head : Z;
  serial_tx_buffer_tail : Z;
  sys_rt_exec_state : Z;
  UDRIE0 : bool
}.

(** The real-time command characters, which config.h defines. *)
Record realtime_chars : Type := mkRealtime {
  CMD_STATUS_REPORT : Z;
  CMD_CYCLE_START : Z;
  CMD_FEED_HOLD : Z;
  CMD_SAFETY_DOOR : Z;
  CMD_RESET : Z
}.

Definition serial_get_rx_buffer_count (st : serial) : Z :=
  let rtail := serial_rx_buffer_tail st in
  if rtail <=? serial_rx_buffer_head st
  then u8 (serial_rx_buffer_head st - rtail)
  else u8 (RX_BUFFER_SIZE - (rtail - serial_rx_buffer_head st)).

Definition serial_get_tx_buffer_count (st : serial) : Z :=
  let ttail := serial_tx_buffer_tail st in
  if ttail <=? serial_tx_buffer_head st
  then u8 (serial_tx_buffer_head st - ttail)
  else u8 (TX_BUFFER_SIZE - (ttail - serial_tx_buffer_head st)).

(** [serial_write].  [None] stands for the wait in the loop
    [while (next_head == serial_tx_buffer_tail)], which only an interrupt
    ends. *)
Definition serial_write (data : Z) (st : serial) : option serial :=
  let next_head := u8 (serial_tx_buffer_head st + 1) in
  let next_head := if next_head =? TX_BUFFER_SIZE then 0 else next_head in
  if next_head =? serial_tx_buffer_tail st then
    if negb (Z.land (sys_rt_exec_state st) EXEC_RESET =? 0) then Some st
    else None
  else
    Some (mkSerial (serial_rx_buffer st) (serial_rx_buffer_head st)
            (serial_rx_buffer_tail st)
            (fun i => if i =? serial_tx_buffer_head st then data
                      else serial_tx_buffer st i)
            next_head (serial_tx_buffer_tail st) (sys_rt_exec_state st) true).

(** [ISR(SERIAL_UDRE)], built without [ENABLE_XONXOFF]: the byte written
    to [UDR0] and the new state. *)
Definition serial_udre_isr (st : serial) : Z * serial :=
  let tail := serial_tx_buffer_tail st in
  let sent := serial_tx_buffer st tail in
  let tail := u8 (tail + 1) in
  let tail := if tail =? TX_BUFFER_SIZE then 0 else tail in
  (sent,
   mkSerial (serial_rx_buffer st) (serial_rx_buffer_head st)
     (serial_rx_buffer_tail st) (serial_tx_buffer st)
     (serial_tx_buffer_head st) tail (sys_rt_exec_state st)
     (if tail =? serial_tx_buffer_head st then false else UDRIE0 st)).

(** [serial_read], built without [ENABLE_XONXOFF]. *)
Definition serial_read (st : serial) : Z * serial :=
  let tail := serial_rx_buffer_tail st in
  if serial_rx_buffer_head st =? tail then (SERIAL_NO_DATA, st)
  else
    let data := serial_rx_buffer st tail in
    let tail := u8 (tail + 1) in
    let tail := if tail =? RX_BUFFER_SIZE then 0 else tail in
    (data,
     mkSerial (serial_rx_buffer st) (serial_rx_buffer_head st) tail
       (serial_tx_buffer st) (serial_tx_buffer_head st)
       (serial_tx_buffer_tail st) (sys_rt_exec_state st) (UDRIE0 st)).

Definition set_rt_exec (mask : Z) (st : serial) : serial :=
  mkSerial (serial_rx_buffer st) (serial_rx_buffer_head st)
    (serial_rx_buffer_tail st) (serial_tx_buffer st)
    (serial_tx_buffer_head st) (serial_tx_buffer_tail st)
    (Z.lor (sys_rt_exec_state st) mask) (UDRIE0 st).

(** [ISR(SERIAL_RX)] on the byte [data] read from [UDR0], built without
    [ENABLE_XONXOFF].  [mc_reset] is the routine of motion_control.c. *)
Definition serial_rx_isr (cmd : realtime_chars) (mc_reset : serial -> serial)
    (data : Z) (st : serial) : serial :=
  if data =? CMD_STATUS_REPORT cmd then set_rt_exec EXEC_STATUS_REPORT st
  else if data =? CMD_CYCLE_START cmd then set_rt_exec EXEC_CYCLE_START st
  else if data =? CMD_FEED_HOLD cmd then set_rt_exec EXEC_FEED_HOLD st
  else if data =? CMD_SAFETY_DOOR cmd then set_rt_exec EXEC_SAFETY_DOOR st
  else if data =? CMD_RESET cmd then mc_reset st
  else
    let next_head := u8 (serial_rx_buffer_head st + 1) in
    let next_head := if next_head =? RX_BUFFER_SIZE then 0 else next_head in
    if negb (next_head =? serial_rx_buffer_tail st) then
      mkSerial
        (fun i => if i =? serial_rx_buffer_head st then data
                  else serial_rx_buffer st i)
        next_head (serial_rx_buffer_tail st) (serial_tx_buffer st)
        (serial_tx_buffer_head st) (serial_tx_buffer_tail st)
        (sys_rt_exec_state st) (UDRIE0 st)
    else st.

Definition serial_reset_read_buffer (st : serial) : serial :=
  mkSerial (serial_rx_buffer st) (serial_rx_buffer_head st)
    (serial_rx_buffer_head st) (serial_tx_buffer st)
    (serial_tx_buffer_head st) (serial_tx_buffer_tail st)
    (sys_rt_exec_state st) (UDRIE0 st).

(** The bytes a ring buffer of [size] cells holds between [tail] and
    [head], oldest first. *)
Definition ring (size : Z) (buffer : Z -> Z) (head tail : Z) : list Z :=
  map (fun k => buffer ((tail + Z.of_nat k) mod size))
    (seq 0 (Z.to_nat ((head - tail) mod size))).

(** The bytes received and not yet read. *)
Definition rx_pending (st : serial) : list Z :=
  ring RX_BUFFER_SIZE (serial_rx_buffer st) (serial_rx_buffer_head st)
    (serial_rx_buffer_tail st).

(** The bytes written and not yet sent. *)
Definition tx_pending (st : serial) : list Z :=
  ring TX_BUFFER_SIZE (serial_tx_buffer st) (serial_tx_buffer_head st)
    (serial_tx_buffer_tail st).

(** The indices are within the buffers. *)
Definition serial_ok (st : serial) : Prop :=
  0 <= serial_rx_buffer_head st < RX_BUFFER_SIZE /\
  0 <= serial_rx_buffer_tail st < RX_BUFFER_SIZE /\
  0 <= serial_tx_buffer_head st < TX_BUFFER_SIZE /\
  0 <= serial_tx_buffer_tail st < TX_BUFFER_SIZE.

(** [data] is none of the real-time command characters. *)
Definition ordinary (cmd : realtime_chars) (data : Z) : Prop :=
  data <> CMD_STATUS_REPORT cmd /\ data <> CMD_CYCLE_START cmd /\
  data <> CMD_FEED_HOLD cmd /\ data <> CMD_SAFETY_DOOR cmd /\
  data <> CMD_RESET cmd.

(** The serial module after [serial_init], nothing received or written. *)
Definition idle_serial : serial :=
  mkSerial (fun _ => 0) 0 0 (fun _ => 0) 0 0 0 false.

(** The command characters of a stock Grbl: [?], [~], [!], [@] and
    ctrl-x. *)
Definition grbl_chars : realtime_chars := mkRealtime 63 126 33 64 24.

(** ** The Grbl firmware: the TWI bus and the sensor drivers *)

(** What the drivers do on the bus, and their pauses. *)
Inductive twi_op : Type :=
| TwiStart
| TwiSend (data : Z)
| TwiRecv (ack : bool)
| TwiStop
| TwiDelayMs (ms : Z).

(** The TWI hardware with the devices on the bus: the status register [TWSR]
    and the data register [TWDR] once the last of the operations [h] has
    completed.  The loops that wait for [TWINT] or [TWSTO] end when the
    hardware completes the operation and are not modelled. *)
Record twi : Type := mkTwi {
  TWSR : list twi_op -> Z;
  TWDR : list twi_op -> Z
}.

(** Status codes of util/twi.h. *)
Definition TW_START : Z := 8.
Definition TW_REP_START : Z := 16.
Definition TW_MT_SLA_ACK : Z := 24.
Definition TW_MT_DATA_ACK : Z := 40.
Definition TW_MR_SLA_ACK : Z := 64.

(** [TW_STATUS & 0xF8] *)
Definition tw_status (hw : twi) (h : list twi_op) : Z := Z.land (TWSR hw h) 248.

Definition i2c_start (hw : twi) (address : Z) (h : list twi_op)
    : Z * list twi_op :=
  let h := h ++ [TwiStart] in
  let twst := tw_status hw h in
  if negb (twst =? TW_START) && negb (twst =? TW_REP_START) then (1, h)
  else
    let h := h ++ [TwiSend address] in
    let twst := tw_status hw h in
    if negb (twst =? TW_MT_SLA_ACK) && negb (twst =? TW_MR_SLA_ACK) then (1, h)
    else (0, h).

Definition i2c_restart (hw : twi) (address : Z) (h : list twi_op)
    : Z * list twi_op :=
  i2c_start hw address h.

Definition i2c_stop (h : list twi_op) : list twi_op := h ++ [TwiStop].

Definition i2c_write (hw : twi) (data : Z) (h : list twi_op)
    : Z * list twi_op :=
  let h := h ++ [TwiSend data] in
  let twst := tw_status hw h in
  if negb (twst =? TW_MT_DATA_ACK) then (1, h) else (0, h).

Definition i2c_read_ack (hw : twi) (h : list twi_op) : Z * list twi_op :=
  let h := h ++ [TwiRecv true] in (u8 (TWDR hw h), h).

Definition i2c_read_nack (hw : twi) (h : list twi_op) : Z * list twi_op :=
  let h := h ++ [TwiRecv false] in (u8 (TWDR hw h), h).

Definition i2c_write_register (hw : twi) (address reg data : Z)
    (h : list twi_op) : Z * list twi_op :=
  let '(ret, h) := i2c_start hw (u8 (Z.shiftl address 1)) h in
  if negb (ret =? 0) then (ret, i2c_stop h) else
  let '(ret, h) := i2c_write hw reg h in
  if negb (ret =? 0) then (ret, i2c_stop h) else
  let '(ret, h) := i2c_write hw data h in
  (ret, i2c_stop h).

(** The loop of [i2c_write_register_multi] over the bytes left to write. *)
Fixpoint write_bytes (hw : twi) (data : list Z) (h : list twi_op)
    : Z * list twi_op :=
  match data with
  | [] => (0, h)
  | b :: rest =>
      let '(ret, h) := i2c_write hw b h in
      if negb (ret =? 0) then (ret, h) else write_bytes hw rest h
  end.

Definition i2c_write_register_multi (hw : twi) (address reg : Z)
    (data : list Z) (h : list twi_op) : Z * list twi_op :=
  let '(ret, h) := i2c_start hw (u8 (Z.shiftl address 1)) h in
  if negb (ret =? 0) then (ret, i2c_stop h) else
  let '(ret, h) := i2c_write hw reg h in
  if negb (ret =? 0) then (ret, i2c_stop h) else
  let '(ret, h) := write_bytes hw data h in
  if negb (ret =? 0) then (ret, i2c_stop h) else (0, i2c_stop h).

Definition i2c_read_register (hw : twi) (address reg : Z) (h : list twi_op)
    : Z * list twi_op :=
  let '(ret, h) := i2c_start hw (u8 (Z.shiftl address 1)) h in
  if negb (ret =? 0) then (0, i2c_stop h) else
  let '(ret, h) := i2c_write hw reg h in
  if negb (ret =? 0) then (0, i2c_stop h) else
  let '(ret, h) := i2c_restart hw (u8 (Z.lor (Z.shiftl address 1) 1)) h in
  if negb (ret =? 0) then (0, i2c_stop h) else
  let '(data, h) := i2c_read_nack hw h in
  (data, i2c_stop h).

(** The loop of [i2c_read_register_multi]: [remaining] bytes are still to
    read;
    it returns them in order. *)
Fixpoint read_bytes (hw : twi) (remaining : nat) (h : list twi_op)
    : list Z * list twi_op :=
  match remaining with
  | O => ([], h)
  | S left' =>
      let '(b, h) :=
        match left' with
        | O => i2c_read_nack hw h
        | S _ => i2c_read_ack hw h
        end in
      let '(rest, h) := read_bytes hw left' h in
      (b :: rest, h)
  end.

(** [data] is the array before the call; the function returns its result
    and the array after the call. *)
Definition i2c_read_register_multi (hw : twi) (address reg : Z)
    (data : list Z) (length : nat) (h : list twi_op)
    : Z * list Z * list twi_op :=
  let '(ret, h) := i2c_start hw (u8 (Z.shiftl address 1)) h in
  if negb (ret =? 0) then (1, data, i2c_stop h) else
  let '(ret, h) := i2c_write hw reg h in
  if negb (ret =? 0) then (1, data, i2c_stop h) else
  let '(ret, h) := i2c_restart hw (u8 (Z.lor (Z.shiftl address 1) 1)) h in
  if negb (ret =? 0) then (1, data, i2c_stop h) else
  let '(bytes, h) := read_bytes hw length h in
  (0, bytes ++ skipn length data, i2c_stop h).

(** *** VL53L0X *)

Definition VL53L0X_I2C_ADDR : Z := 41.
Definition VL53L0X_REG_IDENTIFICATION_MODEL_ID : Z := 192.
Definition VL53L0X_REG_SYSRANGE_START : Z := 0.
Definition VL53L0X_REG_RESULT_RANGE_STATUS : Z := 20.

(** The static variables of a sensor driver and the bus history. *)
Record driver : Type := mkDriver {
  timeout_flag : Z;
  io_timeout : Z;
  bus : list twi_op
}.

Definition vl53_write_reg (hw : twi) (reg value : Z) (h : list twi_op)
    : list twi_op :=
  snd (i2c_write_register hw VL53L0X_I2C_ADDR reg value h).

Definition vl53_read_reg (hw : twi) (reg : Z) (h : list twi_op)
    : Z * list twi_op :=
  i2c_read_register hw VL53L0X_I2C_ADDR reg h.

Definition vl53_read_multi (hw : twi) (reg : Z) (buffer : list Z) (len : nat)
    (h : list twi_op) : list Z * list twi_op :=
  let '(_, buffer, h) :=
    i2c_read_register_multi hw VL53L0X_I2C_ADDR reg buffer len h in
  (buffer, h).

Definition vl53l0x_setTimeout (timeout : Z) (d : driver) : driver :=
  mkDriver (timeout_flag d) timeout (bus d).

Definition vl53l0x_init (hw : twi) (d : driver) : Z * driver :=
  let h := bus d ++ [TwiDelayMs 100] in
  let '(model_id, h) := vl53_read_reg hw VL53L0X_REG_IDENTIFICATION_MODEL_ID h in
  if negb (model_id =? 238) then (0, mkDriver (timeout_flag d) (io_timeout d) h)
  else
    let h := vl53_write_reg hw 136 0 h in
    let h := vl53_write_reg hw 128 1 h in
    let h := vl53_write_reg hw 255 1 h in
    let h := vl53_write_reg hw 0 0 h in
    let '(_, h) := vl53_read_reg hw 145 h in
    let h := vl53_write_reg hw 0 1 h in
    let h := vl53_write_reg hw 255 0 h in
    let h := vl53_write_reg hw 128 0 h in
    (1, mkDriver 0 (io_timeout d) h).

Definition vl53l0x_startContinuous (period_ms : Z) (d : driver) : driver := d.

(** The loop that waits for the end of the measurement, [timeout] being
    the counter of type [uint8_t]; it returns the counter.  [fuel] bounds the
    number of iterations: [timeout_limit] is at most 100, so that 101 is
    never used up ([wait_measurement_fuel]). *)
Fixpoint wait_measurement (hw : twi) (fuel : nat) (timeout timeout_limit : Z)
    (h : list twi_op) : Z * list twi_op :=
  match fuel with
  | O => (timeout, h)
  | S fuel' =>
      if timeout <? timeout_limit then
        let '(status, h) := vl53_read_reg hw VL53L0X_REG_SYSRANGE_START h in
        if Z.land status 1 =? 0 then (timeout, h)
        else
          wait_measurement hw fuel' (u8 (timeout + 1)) timeout_limit
            (h ++ [TwiDelayMs 1])
      else (timeout, h)
  end.

(** [uninit i] is the indeterminate content of [buffer[i]], the local array
    being declared without a value. *)
Definition vl53l0x_readRangeContinuousMillimeters (hw : twi)
    (uninit : nat -> Z) (d : driver) : Z * driver :=
  let h := vl53_write_reg hw VL53L0X_REG_SYSRANGE_START 1 (bus d) in
  let timeout_limit := if io_timeout d <? 100 then io_timeout d else 100 in
  let '(timeout, h) := wait_measurement hw 101 0 timeout_limit h in
  if timeout_limit <=? timeout then (0, mkDriver 1 (io_timeout d) h)
  else
    let buffer := map (fun i => u8 (uninit i)) (seq 0 12) in
    let '(buffer, h) :=
      vl53_read_multi hw VL53L0X_REG_RESULT_RANGE_STATUS buffer 12 h in
    let distance :=
      Z.lor (Z.shiftl (nth 10 buffer 0) 8) (nth 11 buffer 0) in
    if 8190 <=? distance then (8190, mkDriver 0 (io_timeout d) h)
    else (distance, mkDriver 0 (io_timeout d) h).

Definition vl53l0x_timeoutOccurred (d : driver) : Z := timeout_flag d.

(** *** VL53L1 *)

Definition VL53L1_I2C_ADDR : Z := 41.
Definition VL53L1_REG_RESULT_DISTANCE : Z := 150.

Definition vl53l1_read16 (hw : twi) (reg : Z) (h : list twi_op)
    : Z * list twi_op :=
  let reg_msb := Z.land (Z.shiftr reg 8) 255 in
  let reg_lsb := Z.land reg 255 in
  let '(ret, h) := i2c_start hw (u8 (Z.shiftl VL53L1_I2C_ADDR 1)) h in
  if negb (ret =? 0) then (0, i2c_stop h) else
  let '(ret, h) := i2c_write hw reg_msb h in
  if negb (ret =? 0) then (0, i2c_stop h) else
  let '(ret, h) := i2c_write hw reg_lsb h in
  if negb (ret =? 0) then (0, i2c_stop h) else
  let '(ret, h) := i2c_restart hw (u8 (Z.lor (Z.shiftl VL53L1_I2C_ADDR 1) 1)) h in
  if negb (ret =? 0) then (0, i2c_stop h) else
  let '(msb, h) := i2c_read_ack hw h in
  let val := Z.shiftl msb 8 in
  let '(lsb, h) := i2c_read_nack hw h in
  let val := Z.lor val lsb in
  (val, i2c_stop h).

Definition vl53l1_setTimeout (timeout : Z) (d : driver) : driver :=
  mkDriver (timeout_flag d) timeout (bus d).

Definition vl53l1_init (d : driver) : Z * driver :=
  (1, mkDriver 0 (io_timeout d) (bus d ++ [TwiDelayMs 100])).

Definition vl53l1_startContinuous (period_ms : Z) (d : driver) : driver := d.

Definition vl53l1_readRangeContinuousMillimeters (hw : twi) (d : driver)
    : Z * driver :=
  let '(distance, h) := vl53l1_read16 hw VL53L1_REG_RESULT_DISTANCE (bus d) in
  if 8190 <=? distance then (8190, mkDriver 0 (io_timeout d) h)
  else (distance, mkDriver 0 (io_timeout d) h).

Definition vl53l1_timeoutOccurred (d : driver) : Z := timeout_flag d.

(** The sensor part of one pass of the reset loop of [main]. *)
Definition main_sensor_init (hw : twi) (d : driver) : driver :=
  let '(ok, d) := vl53l0x_init hw d in
  if negb (ok =? 0) then
    vl53l0x_startContinuous 100 (vl53l0x_setTimeout 500 d)
  else d.

(** A bus on which no device answers: no address byte is acknowledged. *)
Definition silent_bus (hw : twi) : Prop :=
  forall h a, tw_status hw (h ++ [TwiSend a]) <> TW_MT_SLA_ACK /\
              tw_status hw (h ++ [TwiSend a]) <> TW_MR_SLA_ACK.

(** Operations between the start and the stop of a transaction. *)
Definition inner_op (o : twi_op) : bool :=
  match o with
  | TwiStop | TwiDelayMs _ => false
  | _ => true
  end.

(** One transaction: a start, neither stop nor pause, a stop. *)
Definition transaction (ops : list twi_op) : Prop :=
  exists middle,
    ops = TwiStart :: middle ++ [TwiStop] /\ forallb inner_op middle = true.

Definition is_stop (o : twi_op) : bool :=
  match o with TwiStop => true | _ => false end.

Definition is_recv (o : twi_op) : bool :=
  match o with TwiRecv _ => true | _ => false end.

(** The milliseconds the drivers have paused. *)
Fixpoint paused_ms (h : list twi_op) : Z :=
  match h with
  | [] => 0
  | TwiDelayMs ms :: rest => ms + paused_ms rest
  | _ :: rest => paused_ms rest
  end.

(** The transactions completed on the bus. *)
Definition transactions (h : list twi_op) : nat :=
  List.length (filter is_stop h).

(** What [vl53l0x_readRangeContinuousMillimeters] computes from the two
    last bytes of the result block. *)
Definition range_of (msb lsb : Z) : Z :=
  let distance := Z.lor (Z.shiftl msb 8) lsb in
  if 8190 <=? distance then 8190 else distance.

(** A bus without devices whose controller works: starts succeed, address
    bytes meet a NACK. *)
Definition empty_bus : twi :=
  mkTwi (fun h => match rev h with TwiStart :: _ => 8 | _ => 32 end)
        (fun _ => 255).

Definition inner (ops : list twi_op) : Prop := forallb inner_op ops = true.

(** The history [h'] is [h] followed by one transaction. *)
Definition adds_transaction (h h' : list twi_op) : Prop :=
  exists ops, h' = h ++ ops /\ transaction ops.

(** The bytes received. *)
Definition received (h : list twi_op) : nat := List.length (filter is_recv h).

(** ** The sketch *)

Section Sketch.

(** Which of the two sketches is built. *)
Variable sk : sketch.
(** [String::toFloat] of the Arduino core. *)
Variable toFloat : string -> cfloat.
(** The answer of the sensor hardware to the n-th poll. *)
Variable sensor : nat -> sample.
(** The indeterminate initial contents of the local array [intValues]. *)
Variable uninit : nat -> Z.

(** *** Sensor *)

(** The value [readVL53L0X] computes from one answer of the sensor. *)
Definition vl53l0x_cm (a : sample) : cfloat :=
  let distance := CInt.to_u16 (vl_range a) in
  if vl_timeout a then f_zero
  else if (1200 <? distance) || (distance =? 0) then f_zero
  else f_tenth distance.

Definition readVL53L0X : M cfloat :=
  n <- gets polls ;;
  emit (SensorPoll VL53L0X) ;;
  modify (set_polls (S n)) ;;
  ret (vl53l0x_cm (sensor n)).

(** The value [readTF_Luna] computes from the frame it obtained. *)
Definition tf_luna_cm (a : sample) : cfloat :=
  match tf_frame a with
  | None => f_zero
  | Some (d, f) =>
      let distance := CInt.to_u16 d in
      let signalStrength := CInt.to_u16 f in
      if (signalStrength <? 50) || (distance =? 0) || (1200 <? distance)
      then f_zero
      else f_of_int distance
  end.

(** The routine of the TF-Luna sketch, built with [TF_LUNA_USE_UART].
    Reading the serial port of the sensor is the event [SensorPoll]; the
    pauses are those of the two loops that wait for bytes. *)
Definition readTF_Luna : M cfloat :=
  n <- gets polls ;;
  emit (SensorPoll TF_Luna) ;;
  modify (set_polls (S n)) ;;
  times (tf_waits (sensor n)) (delay 1) ;;
  times (Nat.min (tf_retries (sensor n)) TF_MAX_ATTEMPTS) (delay 5) ;;
  ret (tf_luna_cm (sensor n)).

(** The read routine the scan code of the sketch calls. *)
Definition readDistance : M cfloat :=
  match sk with
  | SketchTFLuna => readTF_Luna
  | SketchVL53L0X => readVL53L0X
  end.

(** The distance the sketch reports for an answer of the sensor. *)
Definition distance_of (a : sample) : cfloat :=
  match sk with
  | SketchTFLuna => tf_luna_cm a
  | SketchVL53L0X => vl53l0x_cm a
  end.

(** The events of one call of the read routine of the sketch: the poll
    and, in the TF-Luna sketch, the pauses of the routine. *)
Definition poll_events (a : sample) : trace :=
  SensorPoll (sensor_of sk) ::
  match sk with
  | SketchTFLuna => tf_waiting a
  | SketchVL53L0X => []
  end.

(** *** Motors *)

Definition pulse (pin : Z) : M unit :=
  digitalWrite pin LOW ;;
  delayMicroseconds 500 ;;
  digitalWrite pin HIGH ;;
  delayMicroseconds 500.

Definition rotateMotorX (steps : Z) : M unit :=
  times (Z.to_nat steps) (pulse X_STEP_PIN).

Definition rotateMotorZ (steps : Z) : M unit :=
  times (Z.to_nat steps) (pulse Z_STEP_PIN).

(** [(z_travel_mm * z_steps_per_mm) / z_steps_per_layer] *)
Definition layer_count : M Z :=
  zt <- gets z_travel_mm ;;
  zm <- gets z_steps_per_mm ;;
  zl <- gets z_steps_per_layer ;;
  defined (CInt.div (CInt.mul zt zm) zl).

Definition lift_layer : M unit :=
  zl <- gets z_steps_per_layer ;;
  rotateMotorZ zl ;;
  delay 10.

Definition moveToTop : M unit :=
  digitalWrite Z_DIR_PIN LOW ;;
  totalZSteps <- layer_count ;;
  times (Z.to_nat totalZSteps) lift_layer.

Definition returnToHome : M unit :=
  digitalWrite Z_DIR_PIN HIGH ;;
  totalZSteps <- layer_count ;;
  times (Z.to_nat totalZSteps) lift_layer ;;
  digitalWrite Z_DIR_PIN LOW.

(** *** Point lines *)

Definition print_point (layer step : Z) (distance angle : cfloat) : M unit :=
  print (TInt layer) ;;
  print (TStr ",") ;;
  print (TInt step) ;;
  print (TStr ",") ;;
  print (TFloat distance 2) ;;
  print (TStr ",") ;;
  println (TFloat angle 1).

(** *** Step-by-step scan *)

Definition performScanStep : M unit :=
  zl <- gets z_steps_per_layer ;;
  zLayers0 <- (if 0 <? zl then layer_count else ret 0) ;;
  let zLayers := if zLayers0 <=? 0 then 1000 else zLayers0 in
  step <- gets scan_current_step ;;
  theta <- gets theta_steps_per_rev ;;
  if theta <=? step then
    modify (set_scan_current_step 0) ;;
    modify (fun s => set_scan_current_layer (CInt.add (scan_current_layer s) 1) s) ;;
    layer <- gets scan_current_layer ;;
    if (zLayers <=? layer) && (0 <? layer) then
      println (TStr "SCAN_COMPLETE") ;;
      modify (set_scanning false) ;;
      modify (set_step_by_step_mode false)
    else
      (if 0 <? zl then
         up <- gets scan_direction_up ;;
         digitalWrite Z_DIR_PIN (if up then LOW else HIGH) ;;
         rotateMotorZ zl ;;
         digitalWrite Z_DIR_PIN LOW
       else ret tt) ;;
      println (TInt DATA_DELIMITER)
  else
    digitalWrite X_DIR_PIN LOW ;;
    rotateMotorX 1 ;;
    modify (fun s => set_scan_current_step (CInt.add (scan_current_step s) 1) s) ;;
    cur <- gets current_theta_step ;;
    next <- defined (CInt.rem (CInt.add cur 1) theta) ;;
    modify (set_current_theta_step next) ;;
    delay 20 ;;
    distance <- readDistance ;;
    step' <- gets scan_current_step ;;
    k <- defined (CInt.rem step' theta) ;;
    layer <- gets scan_current_layer ;;
    print_point layer (CInt.sub step' 1) distance (f_angle k theta).

(** *** Resumed scan *)

(** [while (delay_remaining > 0 && scanning && !paused)], with a bound on
    the number of iterations; [delay_remaining] itself is bound enough. *)
Fixpoint delay_loop (fuel : nat) (delay_remaining : Z) : M unit :=
  match fuel with
  | O => ret tt
  | S fuel' =>
      fun s =>
        if (0 <? delay_remaining) && running s then
          (delay 10 ;; delay_loop fuel' (CInt.sub delay_remaining 10)) s
        else ret tt s
  end.

(** The body of the inner loop of [resumeScan]. *)
Definition resume_step (layer steps_per_point remainder step : Z) : M flow :=
  st <- gets stopped ;;
  if st then ret Break else
  let steps_this_point :=
    if step <? remainder then CInt.add steps_per_point 1 else steps_per_point in
  rotateMotorX steps_this_point ;;
  st <- gets stopped ;;
  if st then ret Break else
  cur <- gets current_theta_step ;;
  theta <- gets theta_steps_per_rev ;;
  next <- defined (CInt.rem (CInt.add cur 1) theta) ;;
  modify (set_current_theta_step next) ;;
  d <- gets scan_delay_ms ;;
  delay_loop (Z.to_nat d) d ;;
  st <- gets stopped ;;
  if st then
    modify (set_paused_layer layer) ;;
    modify (set_paused_step step) ;;
    ret Break
  else
  delay 20 ;;
  distance <- readDistance ;;
  p <- gets paused ;;
  (if negb p then
     k <- defined (CInt.rem step theta) ;;
     print_point layer step distance (f_angle k theta)
   else ret tt) ;;
  ret Next.

(** The body of the outer loop of [resumeScan]. *)
Definition resume_layer
    (zLayers start_layer start_step steps_per_point remainder layer : Z)
    : M flow :=
  let step_start := if layer =? start_layer then start_step else 0 in
  theta <- gets theta_steps_per_rev ;;
  for_loop (Z.to_nat (theta - step_start)) step_start
    (fun step s => (step <? theta_steps_per_rev s) && running s)
    (resume_step layer steps_per_point remainder) ;;
  p <- gets paused ;;
  if p then
    modify (set_paused_layer layer) ;;
    modify (set_paused_step 0) ;;
    ret Break
  else
  r <- gets running ;;
  if (layer <? CInt.sub zLayers 1) && r then
    st <- gets stopped ;;
    if st then ret Break else
    digitalWrite Z_DIR_PIN HIGH ;;
    zl <- gets z_steps_per_layer ;;
    rotateMotorZ zl ;;
    digitalWrite Z_DIR_PIN LOW ;;
    st <- gets stopped ;;
    if st then ret Break else
    delay_loop 100 100 ;;
    st <- gets stopped ;;
    if st then
      modify (set_paused_layer layer) ;;
      modify (set_paused_step 0) ;;
      ret Break
    else
    p <- gets paused ;;
    (if negb p then println (TInt DATA_DELIMITER) else ret tt) ;;
    ret Next
  else ret Next.

Definition resumeScan : M unit :=
  zLayers <- layer_count ;;
  start_layer <- gets paused_layer ;;
  start_step <- gets paused_step ;;
  (if (start_layer =? 0) && (start_step =? 0) then
     println (TStr "Resuming: Moving to top position...") ;;
     moveToTop ;;
     delay 500
   else ret tt) ;;
  spr <- gets steps_per_rev ;;
  theta <- gets theta_steps_per_rev ;;
  steps_per_point <- defined (CInt.div spr theta) ;;
  remainder <- defined (CInt.rem spr theta) ;;
  for_loop (Z.to_nat (zLayers - start_layer)) start_layer
    (fun layer s => (layer <? zLayers) && running s)
    (resume_layer zLayers start_layer start_step steps_per_point remainder) ;;
  r <- gets running ;;
  if r then returnToHome else ret tt.

(** *** Full scan *)

(** [Serial.print] of a [bool] prints it as an integer. *)
Definition TBool (b : bool) : token := TInt (if b then 1 else 0).

(** The body of the inner loop of [performScan].  The two messages of the
    first point are in the TF-Luna sketch only. *)
Definition perform_step (layer steps_per_point remainder step : Z) : M flow :=
  st <- gets stopped ;;
  if st then
    print (TStr "SCAN_INFO: Stopped at layer=") ;;
    print (TInt layer) ;;
    print (TStr ", step=") ;;
    println (TInt step) ;;
    ret Break
  else
  let steps_this_point :=
    if step <? remainder then CInt.add steps_per_point 1 else steps_per_point in
  let steps_this_point :=
    if steps_this_point <=? 0 then 1 else steps_this_point in
  (match sk with
   | SketchTFLuna =>
       if (step =? 0) && (layer =? 0) then
         print (TStr "SCAN_INFO: First rotation - steps_this_point=") ;;
         println (TInt steps_this_point)
       else ret tt
   | SketchVL53L0X => ret tt
   end) ;;
  digitalWrite X_DIR_PIN LOW ;;
  rotateMotorX steps_this_point ;;
  (match sk with
   | SketchTFLuna =>
       if (step =? 0) && (layer =? 0) then
         println (TStr "SCAN_INFO: Motor X rotated")
       else ret tt
   | SketchVL53L0X => ret tt
   end) ;;
  st <- gets stopped ;;
  if st then ret Break else
  cur <- gets current_theta_step ;;
  theta <- gets theta_steps_per_rev ;;
  next <- defined (CInt.rem (CInt.add cur 1) theta) ;;
  modify (set_current_theta_step next) ;;
  d <- gets scan_delay_ms ;;
  delay_loop (Z.to_nat d) d ;;
  st <- gets stopped ;;
  if st then
    modify (set_paused_layer layer) ;;
    modify (set_paused_step step) ;;
    ret Break
  else
  delay 20 ;;
  distance <- readDistance ;;
  p <- gets paused ;;
  (if negb p then
     k <- defined (CInt.rem step theta) ;;
     print_point layer step distance (f_angle k theta)
   else ret tt) ;;
  ret Next.

(** The body of the outer loop of [performScan]. *)
Definition perform_layer (zLayers steps_per_point remainder layer : Z)
    : M flow :=
  print (TStr "SCAN_INFO: Layer ") ;;
  print (TInt layer) ;;
  print (TStr "/") ;;
  print (TInt zLayers) ;;
  print (TStr ", scanning=") ;;
  sc <- gets scanning ;; print (TBool sc) ;;
  print (TStr ", paused=") ;;
  pa <- gets paused ;; println (TBool pa) ;;
  theta <- gets theta_steps_per_rev ;;
  for_loop (Z.to_nat theta) 0
    (fun step s => (step <? theta_steps_per_rev s) && running s)
    (perform_step layer steps_per_point remainder) ;;
  p <- gets paused ;;
  if p then
    modify (set_paused_layer layer) ;;
    modify (set_paused_step 0) ;;
    ret Break
  else
  r <- gets running ;;
  if (layer <? CInt.sub zLayers 1) && r then
    st <- gets stopped ;;
    if st then ret Break else
    digitalWrite Z_DIR_PIN HIGH ;;
    zl <- gets z_steps_per_layer ;;
    rotateMotorZ zl ;;
    digitalWrite Z_DIR_PIN LOW ;;
    st <- gets stopped ;;
    if st then ret Break else
    delay_loop 100 100 ;;
    st <- gets stopped ;;
    if st then
      modify (set_paused_layer layer) ;;
      modify (set_paused_step 0) ;;
      ret Break
    else
    p <- gets paused ;;
    (if negb p then println (TInt DATA_DELIMITER) else ret tt) ;;
    ret Next
  else ret Next.

Definition performScan : M unit :=
  sc <- gets scanning ;;
  if negb sc then
    println (TStr "ERROR: performScan() called but scanning=false!")
  else
  zl <- gets z_steps_per_layer ;;
  zLayers <- (if 0 <? zl then layer_count else ret 0) ;;
  if zLayers <=? 0 then
    print (TStr "ERROR: zLayers=") ;;
    print (TInt zLayers) ;;
    print (TStr " (z_travel_mm=") ;;
    zt <- gets z_travel_mm ;; print (TInt zt) ;;
    print (TStr ", z_steps_per_mm=") ;;
    zm <- gets z_steps_per_mm ;; print (TInt zm) ;;
    print (TStr ", z_steps_per_layer=") ;;
    print (TInt zl) ;;
    println (TStr "), cannot scan!") ;;
    modify (set_scanning false)
  else
  modify (set_current_theta_step 0) ;;
  spr <- gets steps_per_rev ;;
  theta <- gets theta_steps_per_rev ;;
  steps_per_point <- defined (CInt.div spr theta) ;;
  remainder <- defined (CInt.rem spr theta) ;;
  if steps_per_point <? 1 then
    print (TStr "ERROR: steps_per_point=") ;;
    print (TInt steps_per_point) ;;
    print (TStr " (steps_per_rev=") ;;
    print (TInt spr) ;;
    print (TStr ", theta_steps_per_rev=") ;;
    print (TInt theta) ;;
    println (TStr "), cannot scan!") ;;
    modify (set_scanning false)
  else
  print (TStr "SCAN_INFO: Starting scan - zLayers=") ;;
  print (TInt zLayers) ;;
  print (TStr ", steps_per_point=") ;;
  print (TInt steps_per_point) ;;
  print (TStr ", remainder=") ;;
  println (TInt remainder) ;;
  println (TStr "SCAN_INFO: Entering scan loop") ;;
  for_loop (Z.to_nat zLayers) 0
    (fun layer s => (layer <? zLayers) && running s)
    (perform_layer zLayers steps_per_point remainder) ;;
  r <- gets running ;;
  if r then returnToHome else ret tt.

(** *** The schedule of a resumed scan

    What [resumeScan] does while nothing stops it, spelled out without its
    stop tests. *)

(** The pauses of a delay of [d] milliseconds taken in slices of ten. *)
Definition delays (d : Z) : trace :=
  repeat (DelayMs 10) (Z.to_nat ((d + 9) / 10)).

(** The state with new values of [current_theta_step] and [polls], the
    only variables a resumed scan changes. *)
Definition upd (c : Z) (p : nat) (s : state) : state :=
  set_polls p (set_current_theta_step c s).

(** [current_theta_step] after [k] more points. *)
Definition turned (theta c : Z) (k : nat) : Z :=
  Nat.iter k (fun c => Z.rem (CInt.add c 1) theta) c.

(** The events of one point of the resumed scan, polled as poll number
    [p]. *)
Definition resume_point_events (s : state)
    (steps_per_point remainder layer step : Z) (p : nat) : trace :=
  pulses X_STEP_PIN
    (Z.to_nat (if step <? remainder then CInt.add steps_per_point 1
               else steps_per_point)) ++
  delays (scan_delay_ms s) ++
  DelayMs 20 :: poll_events (sensor p) ++
  point_events layer step (distance_of (sensor p))
    (f_angle (Z.rem step (theta_steps_per_rev s)) (theta_steps_per_rev s)).

(** The events between two layers. *)
Definition layer_change_events (s : state) : trace :=
  DigitalWrite Z_DIR_PIN HIGH ::
  pulses Z_STEP_PIN (Z.to_nat (z_steps_per_layer s)) ++
  DigitalWrite Z_DIR_PIN LOW :: delays 100 ++
  [SerialPrintln (TInt DATA_DELIMITER)].

(** The events of layer number [l] of a scan of [zLayers] layers that
    starts at poll number [p0]. *)
Definition resume_layer_events (s : state) (steps_per_point remainder : Z)
    (zLayers : Z) (p0 : nat) (l : nat) : trace :=
  let theta := Z.to_nat (theta_steps_per_rev s) in
  flat_map
    (fun k => resume_point_events s steps_per_point remainder
                (Z.of_nat l) (Z.of_nat k) (p0 + l * theta + k))
    (seq 0 theta) ++
  (if Z.of_nat l <? zLayers - 1 then layer_change_events s else []).

(** The events of the two nested loops of a scan that [resumeScan] starts
    at layer 0, step 0 and at poll number [polls s]. *)
Definition resume_scan_events (s : state) : trace :=
  let theta := theta_steps_per_rev s in
  let spr := steps_per_rev s in
  flat_map
    (resume_layer_events s (CInt.wrap (Z.quot spr theta)) (Z.rem spr theta)
       (total_layers s) (polls s))
    (seq 0 (Z.to_nat (total_layers s))).

(** The lines a complete scan of [zLayers] layers of [theta] points sends,
    the first point being poll number [p0]: the point lines of each layer
    in order, and the delimiter after every layer but the last. *)
Definition full_scan_lines (s : state) (zLayers : Z) (p0 : nat)
    : list (list token) :=
  let theta := Z.to_nat (theta_steps_per_rev s) in
  flat_map
    (fun l =>
       map (fun k =>
              point_line (Z.of_nat l) (Z.of_nat k)
                (distance_of (sensor (p0 + l * theta + k)))
                (f_angle (Z.rem (Z.of_nat k) (theta_steps_per_rev s))
                   (theta_steps_per_rev s)))
         (seq 0 theta) ++
       (if Z.of_nat l <? zLayers - 1 then [[TInt DATA_DELIMITER]] else []))
    (seq 0 (Z.to_nat zLayers)).

(** *** CONFIG *)

(** The loop that reads up to five integers.  It returns what is left of
    [params] and the array. *)
Fixpoint parse_ints (fuel i : nat) (params : string) (intValues : list Z)
    : string * list Z :=
  match fuel with
  | O => (params, intValues)
  | S fuel' =>
      let commaIndex := WString.indexOf ","%char params in
      if commaIndex =? -1 then
        ("", store i (WString.toInt16 params) intValues)
      else
        parse_ints fuel' (S i)
          (WString.substring_from (commaIndex + 1) params)
          (store i (WString.toInt16 (WString.substring 0 commaIndex params))
             intValues)
  end.

(** The optional centre distance and steps per revolution. *)
Definition parse_tail (params : string) : cfloat * Z :=
  let centerDist := FNum (103 # 10) in
  let stepsPerRev := DEFAULT_STEPS_PER_REV in
  if 0 <? WString.length params then
    let commaIndex := WString.indexOf ","%char params in
    if commaIndex =? -1 then (toFloat params, stepsPerRev)
    else
      let centerDist := toFloat (WString.substring 0 commaIndex params) in
      let params := WString.substring_from (commaIndex + 1) params in
      if 0 <? WString.length params then (centerDist, WString.toInt16 params)
      else (centerDist, stepsPerRev)
  else (centerDist, stepsPerRev).

(** The values [processConfigCommand] validates: the array after the
    integer loop, the centre distance and the steps per revolution. *)
Definition parse_config (command : string) : list Z * cfloat * Z :=
  let params := WString.substring_from 7 command in
  let intValues := map (fun i => CInt.wrap (uninit i)) (seq 0 6) in
  let '(params, intValues) := parse_ints 5 0 params intValues in
  let '(centerDist, stepsPerRev) := parse_tail params in
  (intValues, centerDist, stepsPerRev).

Definition processConfigCommand (command : string) : M unit :=
  let '(intValues, centerDist, stepsPerRev) := parse_config command in
  let v (i : nat) := nth i intValues 0 in
  if (v 0%nat <? MIN_THETA_STEPS_PER_REV) || (MAX_THETA_STEPS_PER_REV <? v 0%nat) then
    print (TStr "CONFIG_ERROR: theta_steps must be between ") ;;
    print (TInt MIN_THETA_STEPS_PER_REV) ;;
    print (TStr " and ") ;;
    print (TInt MAX_THETA_STEPS_PER_REV) ;;
    newline
  else if stepsPerRev <? v 0%nat then
    print (TStr "CONFIG_ERROR: theta_steps (") ;;
    print (TInt (v 0%nat)) ;;
    print (TStr ") cannot exceed steps_per_rev (") ;;
    print (TInt stepsPerRev) ;;
    println (TStr ")")
  else if (0 <? v 0%nat) && (0 <? v 1%nat) && (0 <? v 2%nat) && (0 <? v 3%nat)
          && (0 <=? v 4%nat) && f_pos centerDist && (0 <? stepsPerRev) then
    modify (set_config (v 0%nat) (v 1%nat) (v 2%nat) (v 3%nat) (v 4%nat)
              centerDist stepsPerRev) ;;
    print (TStr "CONFIG_OK:") ;;
    print (TStr " theta=") ;;
    th <- gets theta_steps_per_rev ;; print (TInt th) ;;
    print (TStr " z_travel=") ;;
    zt <- gets z_travel_mm ;; print (TInt zt) ;;
    print (TStr "mm z_steps/mm=") ;;
    zm <- gets z_steps_per_mm ;; print (TInt zm) ;;
    print (TStr " z_steps/layer=") ;;
    zl <- gets z_steps_per_layer ;; print (TInt zl) ;;
    print (TStr " delay=") ;;
    d <- gets scan_delay_ms ;; print (TInt d) ;;
    print (TStr "ms center=") ;;
    c <- gets center_distance_cm ;; print (TFloat c 1) ;;
    print (TStr "cm steps/rev=") ;;
    spr <- gets steps_per_rev ;; println (TInt spr)
  else
    println (TStr "CONFIG_ERROR: Invalid values").

(** *** The command loop *)

(** The assignments of START and START_DOWN. *)
Definition start_scan (up : bool) : M unit :=
  modify (set_scanning true) ;;
  modify (set_paused false) ;;
  modify (set_paused_layer 0) ;;
  modify (set_paused_step 0) ;;
  modify (set_scan_current_layer 0) ;;
  modify (set_scan_current_step 0) ;;
  modify (set_scan_direction_up up) ;;
  modify (set_step_by_step_mode true) ;;
  modify (set_current_theta_step 0) ;;
  println (TStr "SCAN_START").

(** How the command branch of [loop] ends: by falling through to the
    final [delay(10)] or by [return]. *)
Inductive ending : Type := FallThrough | Returned.

(** The [if / else if] chain of [loop] on the trimmed, upper-cased line. *)
Definition dispatch (command : string) : M ending :=
  if (command =? "START")%string || (command =? "START_UP")%string then
    start_scan true ;; ret FallThrough
  else if (command =? "START_DOWN")%string then
    start_scan false ;; ret FallThrough
  else if (command =? "SCAN_STEP")%string then
    sc <- gets scanning ;;
    sbs <- gets step_by_step_mode ;;
    if negb sc || negb sbs then
      println (TStr "ERROR: Not in step-by-step scan mode!") ;;
      ret Returned
    else performScanStep ;; ret FallThrough
  else if (command =? "STOP")%string then
    modify (set_paused true) ;;
    modify (set_scanning false) ;;
    println (TStr "SCAN_PAUSED") ;;
    ret FallThrough
  else if (command =? "RESUME")%string then
    p <- gets paused ;;
    (if p then
       modify (set_paused false) ;;
       modify (set_scanning true) ;;
       println (TStr "SCAN_RESUMED") ;;
       resumeScan ;;
       p' <- gets paused ;;
       (if negb p' then println (TStr "SCAN_COMPLETE") else ret tt) ;;
       modify (set_scanning false)
     else ret tt) ;;
    ret FallThrough
  else if (command =? "HOME")%string then
    returnToHome ;;
    println (TStr "HOME_COMPLETE") ;;
    ret FallThrough
  else if (command =? "MOVE_TO_TOP")%string then
    println (TStr "Moving to top position...") ;;
    moveToTop ;;
    println (TStr "MOVE_TO_TOP_COMPLETE") ;;
    ret FallThrough
  else if (command =? "TEST")%string then
    distance <- readDistance ;;
    print (TStr "Distance: ") ;;
    println (TFloat distance 2) ;;
    ret FallThrough
  else if (command =? "TEST_POINT")%string then
    distance <- readDistance ;;
    cur <- gets current_theta_step ;;
    theta <- gets theta_steps_per_rev ;;
    k <- defined (CInt.rem cur theta) ;;
    print (TStr "TEST_POINT:") ;;
    print (TFloat (f_angle k theta) 1) ;;
    print (TStr ",") ;;
    println (TFloat distance 2) ;;
    ret FallThrough
  else if WString.startsWith command "ROTATE," then
    let steps_str := WString.substring_from 7 command in
    let steps := WString.toInt16 steps_str in
    (if 0 <? steps then
       digitalWrite X_DIR_PIN LOW ;;
       rotateMotorX steps ;;
       cur <- gets current_theta_step ;;
       theta <- gets theta_steps_per_rev ;;
       next <- defined (CInt.rem (CInt.add cur steps) theta) ;;
       modify (set_current_theta_step next) ;;
       print (TStr "ROTATED:") ;;
       println (TInt steps)
     else
       print (TStr "ROTATE_ERROR: Invalid steps: ") ;;
       println (TStr steps_str)) ;;
    ret FallThrough
  else if WString.startsWith command "ROTATE_CCW," then
    let steps_str := WString.substring_from 11 command in
    let steps := WString.toInt16 steps_str in
    (if 0 <? steps then
       digitalWrite X_DIR_PIN HIGH ;;
       rotateMotorX steps ;;
       cur <- gets current_theta_step ;;
       theta <- gets theta_steps_per_rev ;;
       next <- defined (CInt.rem (CInt.add (CInt.sub cur steps) theta) theta) ;;
       modify (set_current_theta_step next) ;;
       print (TStr "ROTATED:") ;;
       print (TInt (CInt.neg steps)) ;;
       newline
     else ret tt) ;;
    ret FallThrough
  else if WString.startsWith command "ROTATE_Z," then
    let steps_str := WString.substring_from 9 command in
    let steps := WString.toInt16 steps_str in
    (if 0 <? steps then
       digitalWrite Z_DIR_PIN LOW ;;
       rotateMotorZ steps ;;
       print (TStr "ROTATED_Z:") ;;
       println (TInt steps)
     else
       print (TStr "ROTATE_Z_ERROR: Invalid steps: ") ;;
       println (TStr steps_str)) ;;
    ret FallThrough
  else if WString.startsWith command "ROTATE_Z_CCW," then
    let steps_str := WString.substring_from 13 command in
    let steps := WString.toInt16 steps_str in
    (if 0 <? steps then
       digitalWrite Z_DIR_PIN HIGH ;;
       rotateMotorZ steps ;;
       print (TStr "ROTATED_Z:") ;;
       print (TInt (CInt.neg steps)) ;;
       newline
     else ret tt) ;;
    ret FallThrough
  else if WString.startsWith command "CONFIG," then
    processConfigCommand command ;;
    ret FallThrough
  else if (command =? "GET_CONFIG")%string then
    print (TStr "CURRENT_CONFIG:") ;;
    th <- gets theta_steps_per_rev ;; print (TInt th) ;;
    print (TStr ",") ;;
    zt <- gets z_travel_mm ;; print (TInt zt) ;;
    print (TStr ",") ;;
    zm <- gets z_steps_per_mm ;; print (TInt zm) ;;
    print (TStr ",") ;;
    zl <- gets z_steps_per_layer ;; print (TInt zl) ;;
    print (TStr ",") ;;
    d <- gets scan_delay_ms ;; print (TInt d) ;;
    print (TStr ",") ;;
    c <- gets center_distance_cm ;; print (TFloat c 1) ;;
    print (TStr ",") ;;
    spr <- gets steps_per_rev ;; println (TInt spr) ;;
    ret FallThrough
  else if (command =? "READ_LIDAR")%string then
    distance <- readDistance ;;
    print (TStr "LIDAR_DISTANCE:") ;;
    println (TFloat distance 2) ;;
    ret FallThrough
  else ret FallThrough.

(** One pass of [loop]: [line] is the line [Serial.readStringUntil] returns
    when input is available, [None] when there is none. *)
Definition loop (line : option string) : M unit :=
  match line with
  | None => delay 10
  | Some l =>
      e <- dispatch (WString.toUpperCase (WString.trim l)) ;;
      match e with
      | FallThrough => delay 10
      | Returned => ret tt
      end
  end.

(** A session: the passes of [loop] over the lines received, in order. *)
Fixpoint session (lines : list string) : M unit :=
  match lines with
  | [] => ret tt
  | l :: rest => loop (Some l) ;; session rest
  end.

(** *** Reachable states *)

(** What holds between commands: the state is well formed and the recorded
    pause position is layer 0, step 0. *)
Definition invariant (s : state) : Prop :=
  wf s /\ paused_layer s = 0 /\ paused_step s = 0.

(** The states the firmware can be in between two passes of [loop]. *)
Inductive reachable : state -> Prop :=
| reachable_boot : reachable initial_state
| reachable_pass s line s' t :
    reachable s -> loop line s = Some (tt, s', t) -> reachable s'.

(** What holds of the scan flags and counters between commands: while
    [scanning] is set the scan is a step-by-step scan that is not paused
    and whose layer counter is below the largest [int]; the counters are
    not negative. *)
Definition scan_invariant (s : state) : Prop :=
  (scanning s = true ->
   paused s = false /\ step_by_step_mode s = true /\
   scan_current_layer s < CInt.INT_MAX) /\
  0 <= scan_current_step s <= MAX_THETA_STEPS_PER_REV /\
  0 <= scan_current_layer s.

(** [m] returns from [s] and leaves a state satisfying [I]. *)
Definition lands {A} (I : state -> Prop) (m : M A) (s : state) : Prop :=
  exists a s' t, m s = Some (a, s', t) /\ I s'.

(** ** Small checks of the library operations *)

Example toInt16_500 : WString.toInt16 "500" = 500.
Proof. reflexivity. Qed.
Example toInt16_neg : WString.toInt16 " -12x" = -12.
Proof. reflexivity. Qed.
Example toInt16_wraps : WString.toInt16 "65540" = 4.
Proof. reflexivity. Qed.
Example trim_upper : WString.toUpperCase (WString.trim "  rotate,5 ") = "ROTATE,5".
Proof. reflexivity. Qed.
Example substring_from_7 : WString.substring_from 7 "CONFIG,4,2" = "4,2".
Proof. reflexivity. Qed.
Example indexOf_none : WString.indexOf ","%char "42" = -1.
Proof. reflexivity. Qed.
Example indexOf_some : WString.indexOf ","%char "4,2" = 1.
Proof. reflexivity. Qed.

Example atol_stops_at_text : WString.atol "12ab" = 12.
Proof. reflexivity. Qed.
Example wrap_product : CInt.mul 200 200 = -25536.
Proof. reflexivity. Qed.
Example c_remainder_sign : CInt.rem (-300) 200 = Some (-100).
Proof. reflexivity. Qed.
Example angle_quarter : f_angle 1 4 = FNum 90.
Proof. reflexivity. Qed.
Example tenth_of_123 : f_tenth 123 = FNum (123 # 10).
Proof. reflexivity. Qed.
Example lines_of_two_prints :
  serial_lines [SerialPrint (TStr "a"); DelayMs 10; SerialPrintln (TInt 1);
                SerialNewline] = [[TStr "a"; TInt 1]; []].
Proof. reflexivity. Qed.

(** ** Running the monad *)

Lemma bind_run {A B} (m : M A) (k : A -> M B) s a s1 t1 :
  m s = Some (a, s1, t1) ->
  bind m k s =
  match k a s1 with
  | None => None
  | Some (b, s2, t2) => Some (b, s2, t1 ++ t2)
  end.
Proof. intros H. unfold bind. now rewrite H. Qed.

Lemma bind_some {A B} (m : M A) (k : A -> M B) s a s1 t1 b s2 t2 :
  m s = Some (a, s1, t1) ->
  k a s1 = Some (b, s2, t2) ->
  bind m k s = Some (b, s2, t1 ++ t2).
Proof. intros H1 H2. rewrite (bind_run _ _ _ _ _ _ H1). now rewrite H2. Qed.

Lemma bind_inv {A B} (m : M A) (k : A -> M B) s b s2 t :
  bind m k s = Some (b, s2, t) ->
  exists a s1 t1 t2,
    m s = Some (a, s1, t1) /\ k a s1 = Some (b, s2, t2) /\ t = t1 ++ t2.
Proof.
  unfold bind. destruct (m s) as [[[a s1] t1]|]; [|discriminate].
  destruct (k a s1) as [[[b' s2'] t2]|] eqn:E; [|discriminate].
  intros H. injection H as -> -> <-. now exists a, s1, t1, t2.
Qed.

Lemma bind_assoc_run {A B C} (m : M A) (k : A -> M B) (h : B -> M C) s :
  bind (bind m k) h s = bind m (fun a => bind (k a) h) s.
Proof.
  unfold bind. destruct (m s) as [[[a s1] t1]|]; [|reflexivity].
  destruct (k a s1) as [[[b s2] t2]|]; [|reflexivity].
  destruct (h b s2) as [[[c s3] t3]|]; [|reflexivity].
  now rewrite app_assoc.
Qed.

Lemma times_run (body : M unit) (tb : trace) :
  (forall s, body s = Some (tt, s, tb)) ->
  forall n s, times n body s = Some (tt, s, List.concat (repeat tb n)).
Proof.
  intros Hb n. induction n as [|n IH]; intros s; simpl.
  - reflexivity.
  - erewrite bind_some; [reflexivity | apply Hb | apply IH].
Qed.

Lemma times_delay_run n ms s :
  times n (delay ms) s = Some (tt, s, repeat (DelayMs ms) n).
Proof.
  revert s. induction n as [|n IH]; intros s; cbn [times repeat].
  - reflexivity.
  - change (DelayMs ms :: repeat (DelayMs ms) n)
      with ([DelayMs ms] ++ repeat (DelayMs ms) n).
    apply bind_some with (a := tt) (s1 := s); [reflexivity | apply IH].
Qed.

Lemma readTF_Luna_run s :
  readTF_Luna s =
  Some (tf_luna_cm (sensor (polls s)), set_polls (S (polls s)) s,
        SensorPoll TF_Luna :: tf_waiting (sensor (polls s))).
Proof.
  unfold readTF_Luna.
  erewrite bind_some; [| reflexivity |].
  2:{ erewrite bind_some; [| reflexivity |].
      2:{ erewrite bind_some; [| reflexivity |].
          2:{ erewrite bind_some; [| apply times_delay_run |].
              2:{ erewrite bind_some;
                    [| apply times_delay_run | reflexivity ].
                  reflexivity. }
              reflexivity. }
          reflexivity. }
      reflexivity. }
  cbn [app]. rewrite app_nil_r. reflexivity.
Qed.

Lemma readDistance_run s :
  readDistance s =
  Some (distance_of (sensor (polls s)), set_polls (S (polls s)) s,
        poll_events (sensor (polls s))).
Proof.
  unfold readDistance, distance_of, poll_events.
  destruct sk; [apply readTF_Luna_run | reflexivity].
Qed.

Lemma pulse_run pin s : pulse pin s = Some (tt, s, pulse_events pin).
Proof. reflexivity. Qed.

Lemma rotateMotorX_run n s :
  rotateMotorX n s = Some (tt, s, pulses X_STEP_PIN (Z.to_nat n)).
Proof. unfold rotateMotorX, pulses. apply times_run. intros; apply pulse_run. Qed.

Lemma rotateMotorZ_run n s :
  rotateMotorZ n s = Some (tt, s, pulses Z_STEP_PIN (Z.to_nat n)).
Proof. unfold rotateMotorZ, pulses. apply times_run. intros; apply pulse_run. Qed.

(** ** Facts on traces *)

Lemma pulses_S pin n : pulses pin (S n) = pulse_events pin ++ pulses pin n.
Proof. reflexivity. Qed.

Lemma writes_on_pulses pin n :
  writes_on pin (pulses pin n) = List.concat (repeat [LOW; HIGH] n).
Proof.
  induction n as [|n IH]; [reflexivity|].
  rewrite pulses_S. cbn [pulse_events app writes_on].
  rewrite Z.eqb_refl. cbn [repeat List.concat app]. now rewrite IH.
Qed.

Lemma writes_on_pulses_other pin q n :
  q <> pin -> writes_on q (pulses pin n) = [].
Proof.
  intros Hq. induction n as [|n IH]; [reflexivity|].
  rewrite pulses_S. cbn [pulse_events app writes_on].
  destruct (Z.eqb_spec pin q) as [E|_]; [congruence|]. exact IH.
Qed.

Lemma step_writes_app t1 t2 :
  step_writes (t1 ++ t2) = step_writes t1 ++ step_writes t2.
Proof.
  induction t1 as [|e t1 IH]; [reflexivity|].
  destruct e; cbn [app step_writes]; try exact IH.
  destruct ((pin =? X_STEP_PIN) || (pin =? Z_STEP_PIN)); cbn [app]; now rewrite IH.
Qed.

Lemma pulse_train_app l1 l2 :
  pulse_train l1 -> pulse_train l2 -> pulse_train (l1 ++ l2).
Proof. induction 1; intros H2; cbn [app]; [assumption|constructor; auto]. Qed.

Lemma polled_app t1 t2 : polled (t1 ++ t2) = polled t1 ++ polled t2.
Proof.
  induction t1 as [|e t1 IH]; [reflexivity|].
  destruct e; cbn [app polled]; now rewrite ?IH.
Qed.

(** ** Properties of every trace a computation can produce *)

Section Emits.
Variable P : trace -> Prop.
Hypothesis P_nil : P [].
Hypothesis P_app : forall t1 t2, P t1 -> P t2 -> P (t1 ++ t2).

Lemma emits_ret {A} (a : A) : emits P (ret a).
Proof. intros s a' s' t H. injection H as <- <- <-. exact P_nil. Qed.

Lemma emits_gets {A} (f : state -> A) : emits P (gets f).
Proof. intros s a' s' t H. injection H as <- <- <-. exact P_nil. Qed.

Lemma emits_modify f : emits P (modify f).
Proof. intros s a' s' t H. injection H as <- <- <-. exact P_nil. Qed.

Lemma emits_defined {A} (o : option A) : emits P (defined o).
Proof.
  intros s a' s' t H. unfold defined in H. destruct o; [|discriminate].
  injection H as <- <- <-. exact P_nil.
Qed.

Lemma emits_emit e : P [e] -> emits P (emit e).
Proof. intros He s a' s' t H. injection H as <- <- <-. exact He. Qed.

Lemma emits_bind {A B} (m : M A) (k : A -> M B) :
  emits P m -> (forall a, emits P (k a)) -> emits P (bind m k).
Proof.
  intros Hm Hk s b s' t H.
  apply bind_inv in H as (a & s1 & t1 & t2 & H1 & H2 & ->).
  apply P_app; [eapply Hm | eapply Hk]; eassumption.
Qed.

Lemma emits_times n body : emits P body -> emits P (times n body).
Proof.
  intros Hb. induction n as [|n IH]; cbn [times].
  - apply emits_ret.
  - apply emits_bind; auto.
Qed.

Lemma emits_for_loop fuel i cond body :
  (forall j, emits P (body j)) -> emits P (for_loop fuel i cond body).
Proof.
  intros Hb. revert i. induction fuel as [|fuel IH]; intros i; cbn [for_loop].
  - apply emits_ret.
  - intros s a s' t H. destruct (cond i s).
    + revert H. apply emits_bind; [apply Hb|].
      intros [|]; [apply IH | apply emits_ret].
    + revert H. apply emits_ret.
Qed.

Lemma emits_delay_loop fuel d :
  P [DelayMs 10] -> emits P (delay_loop fuel d).
Proof.
  intros Hd. revert d. induction fuel as [|fuel IH]; intros d; cbn [delay_loop].
  - apply emits_ret.
  - intros s a s' t H. destruct ((0 <? d) && running s).
    + revert H. apply emits_bind; [now apply emits_emit | intros; apply IH].
    + revert H. apply emits_ret.
Qed.
End Emits.

Section EmitsSketch.
Variable P : trace -> Prop.
Hypothesis P_nil : P [].
Hypothesis P_app : forall t1 t2, P t1 -> P t2 -> P (t1 ++ t2).
Hypothesis P_quiet : forall e, quiet e -> P [e].
Hypothesis P_poll : P [SensorPoll (sensor_of sk)].
Hypothesis P_pulse_x : P (pulse_events X_STEP_PIN).
Hypothesis P_pulse_z : P (pulse_events Z_STEP_PIN).

Ltac emits_step :=
  lazymatch goal with
  | |- emits _ (bind _ _) => apply (emits_bind P P_app); [|intros]
  | |- emits _ (ret _) => apply (emits_ret P P_nil)
  | |- emits _ (gets _) => apply (emits_gets P P_nil)
  | |- emits _ (modify _) => apply (emits_modify P P_nil)
  | |- emits _ (defined _) => apply (emits_defined P P_nil)
  | |- emits _ (times _ _) => apply (emits_times P P_nil P_app)
  | |- emits _ (for_loop _ _ _ _) =>
      apply (emits_for_loop P P_nil P_app); intros
  | |- emits _ (delay_loop _ _) =>
      apply (emits_delay_loop P P_nil P_app); apply P_quiet; exact I
  | |- emits _ (emit _) =>
      apply (emits_emit P); apply P_quiet; cbn; auto
  | |- emits _ (if ?b then _ else _) => destruct b
  | |- emits _ (match ?x with _ => _ end) => destruct x
  | |- emits _ (let _ := _ in _) => cbv zeta
  end.

Lemma emits_pulse_x : emits P (pulse X_STEP_PIN).
Proof. intros s a s' t H. rewrite pulse_run in H. injection H as <- <- <-. exact P_pulse_x. Qed.

Lemma emits_pulse_z : emits P (pulse Z_STEP_PIN).
Proof. intros s a s' t H. rewrite pulse_run in H. injection H as <- <- <-. exact P_pulse_z. Qed.

Lemma emits_rotateMotorX n : emits P (rotateMotorX n).
Proof. unfold rotateMotorX. emits_step. apply emits_pulse_x. Qed.

Lemma emits_rotateMotorZ n : emits P (rotateMotorZ n).
Proof. unfold rotateMotorZ. emits_step. apply emits_pulse_z. Qed.

Lemma P_repeat e n : quiet e -> P (repeat e n).
Proof.
  intros Q. induction n as [|n IH]; cbn [repeat]; [exact P_nil|].
  apply (P_app [e]); [now apply P_quiet | exact IH].
Qed.

Lemma P_poll_events a : P (poll_events a).
Proof.
  unfold poll_events. apply (P_app [SensorPoll (sensor_of sk)]).
  - exact P_poll.
  - destruct sk; [|exact P_nil].
    unfold tf_waiting. apply P_app; apply P_repeat; exact I.
Qed.

Lemma emits_readDistance : emits P readDistance.
Proof.
  intros s a s' t H. rewrite readDistance_run in H.
  injection H as <- <- <-. apply P_poll_events.
Qed.

Ltac emits_auto :=
  repeat first
    [ apply emits_rotateMotorX
    | apply emits_rotateMotorZ
    | apply emits_readDistance
    | progress unfold digitalWrite, delayMicroseconds, delay, print,
        println, newline
    | emits_step ].

Lemma emits_layer_count : emits P layer_count.
Proof. unfold layer_count. emits_auto. Qed.

Lemma emits_lift_layer : emits P lift_layer.
Proof. unfold lift_layer. emits_auto. Qed.

Lemma emits_moveToTop : emits P moveToTop.
Proof.
  unfold moveToTop. emits_auto; [apply emits_layer_count | apply emits_lift_layer].
Qed.

Lemma emits_returnToHome : emits P returnToHome.
Proof.
  unfold returnToHome.
  emits_auto; [apply emits_layer_count | apply emits_lift_layer].
Qed.

Lemma emits_print_point l st d a : emits P (print_point l st d a).
Proof. unfold print_point. emits_auto. Qed.

Lemma emits_performScanStep : emits P performScanStep.
Proof.
  unfold performScanStep.
  emits_auto; try apply emits_layer_count; apply emits_print_point.
Qed.

Lemma emits_resume_step l spp rm st : emits P (resume_step l spp rm st).
Proof. unfold resume_step. emits_auto; apply emits_print_point. Qed.

Lemma emits_resume_layer zl sl ss spp rm l :
  emits P (resume_layer zl sl ss spp rm l).
Proof. unfold resume_layer. emits_auto; apply emits_resume_step. Qed.

Lemma emits_resumeScan : emits P resumeScan.
Proof.
  unfold resumeScan.
  emits_auto;
    first [ apply emits_layer_count | apply emits_moveToTop
          | apply emits_resume_layer | apply emits_returnToHome ].
Qed.

Lemma emits_processConfigCommand c : emits P (processConfigCommand c).
Proof.
  unfold processConfigCommand.
  destruct (parse_config c) as [[iv cd] spr]. emits_auto.
Qed.

Lemma emits_start_scan up : emits P (start_scan up).
Proof. unfold start_scan. emits_auto. Qed.

Lemma emits_dispatch c : emits P (dispatch c).
Proof.
  unfold dispatch.
  emits_auto;
    first [ apply emits_start_scan | apply emits_performScanStep
          | apply emits_resumeScan | apply emits_returnToHome
          | apply emits_moveToTop | apply emits_processConfigCommand ].
Qed.

Lemma emits_loop line : emits P (loop line).
Proof.
  unfold loop. destruct line as [l|]; emits_auto. apply emits_dispatch.
Qed.

Lemma emits_session lines : emits P (session lines).
Proof.
  induction lines as [|l lines IH]; cbn [session].
  - emits_auto.
  - emits_step; [apply emits_loop | exact IH].
Qed.
End EmitsSketch.

Lemma emits_polls_of_sketch lines :
  emits (fun t => Forall (eq (sensor_of sk)) (polled t)) (session lines).
Proof.
  apply emits_session.
  - constructor.
  - intros t1 t2 H1 H2. rewrite polled_app. apply Forall_app; now split.
  - intros [] Hq; cbn in *; solve [constructor | contradiction].
  - repeat constructor.
  - repeat constructor.
  - repeat constructor.
Qed.

Lemma emits_pulse_trains line :
  emits (fun t => pulse_train (step_writes t)) (loop line).
Proof.
  apply emits_loop.
  - constructor.
  - intros t1 t2 H1 H2. rewrite step_writes_app. now apply pulse_train_app.
  - intros [] Hq; cbn in *; try constructor.
    destruct Hq as [-> | ->]; cbn; constructor.
  - constructor.
  - repeat constructor.
  - repeat constructor.
Qed.

(** ** Sixteen-bit arithmetic *)

Lemma wrap_id x : CInt.in_int x -> CInt.wrap x = x.
Proof.
  unfold CInt.in_int, CInt.INT_MIN, CInt.INT_MAX, CInt.wrap. intros H.
  rewrite Z.mod_small; lia.
Qed.

Lemma wrap_in_int x : CInt.in_int (CInt.wrap x).
Proof.
  unfold CInt.in_int, CInt.INT_MIN, CInt.INT_MAX, CInt.wrap.
  pose proof (Z.mod_pos_bound (x + 32768) 65536). lia.
Qed.

Lemma add_small a b :
  CInt.in_int (a + b) -> CInt.add a b = a + b.
Proof. apply wrap_id. Qed.

Lemma sub_small a b :
  CInt.in_int (a - b) -> CInt.sub a b = a - b.
Proof. apply wrap_id. Qed.

Lemma div_defined a b :
  b <> 0 -> CInt.div a b = Some (CInt.wrap (Z.quot a b)).
Proof. intros H. unfold CInt.div. now destruct (Z.eqb_spec b 0). Qed.

Lemma rem_defined a b : b <> 0 -> CInt.rem a b = Some (Z.rem a b).
Proof. intros H. unfold CInt.rem. now destruct (Z.eqb_spec b 0). Qed.

Lemma quot_small a b :
  0 <= a <= CInt.INT_MAX -> 0 < b -> CInt.wrap (Z.quot a b) = Z.quot a b.
Proof.
  intros Ha Hb. apply wrap_id. unfold CInt.in_int, CInt.INT_MIN, CInt.INT_MAX in *.
  pose proof (Z.quot_pos a b). pose proof (Z.quot_le_upper_bound a b a).
  assert (a <= b * a) by nia. lia.
Qed.

Lemma rem_range a b : 0 < b -> - b < Z.rem a b < b.
Proof.
  intros Hb. pose proof (Z.rem_bound_abs a b). pose proof (Z.rem_bound_pos a b).
  destruct (Z_le_gt_dec 0 a) as [Ha|Ha].
  - specialize (H0 Ha Hb). lia.
  - pose proof (Z.rem_bound_neg_pos a b). lia.
Qed.

(** ** Stepping through straight-line code *)

Lemma layer_count_run s :
  z_steps_per_layer s <> 0 -> layer_count s = Some (total_layers s, s, []).
Proof.
  intros H. unfold layer_count, total_layers, bind, gets, defined.
  now rewrite (div_defined _ _ H).
Qed.

Lemma defined_some {A} (a : A) s : defined (Some a) s = Some (a, s, []).
Proof. reflexivity. Qed.

Lemma print_point_run l st d a s :
  print_point l st d a s = Some (tt, s, point_events l st d a).
Proof. reflexivity. Qed.

Lemma lines_from_app acc t1 t2 :
  lines_from acc (t1 ++ t2) =
  let '(l1, p1) := lines_from acc t1 in
  let '(l2, p2) := lines_from p1 t2 in
  (l1 ++ l2, p2).
Proof.
  revert acc. induction t1 as [|e t1 IH]; intros acc; cbn [app lines_from].
  - now destruct (lines_from acc t2).
  - destruct e; try apply IH.
    + specialize (IH []). destruct (lines_from [] (t1 ++ t2)) as [l p].
      destruct (lines_from [] t1) as [l1 p1].
      destruct (lines_from p1 t2) as [l2 p2].
      injection IH as -> ->. reflexivity.
    + specialize (IH []). destruct (lines_from [] (t1 ++ t2)) as [l p].
      destruct (lines_from [] t1) as [l1 p1].
      destruct (lines_from p1 t2) as [l2 p2].
      injection IH as -> ->. reflexivity.
Qed.

(** ** The bounds of the loops are large enough

    A loop whose test implies [i < limit] never stops for want of fuel once
    the fuel covers [limit - i]: more fuel changes nothing. *)

Lemma for_loop_fuel (cond : Z -> state -> bool) (body : Z -> M flow) limit :
  (forall i s, cond i s = true -> i < limit) ->
  forall fuel extra i s,
    limit - i <= Z.of_nat fuel ->
    for_loop (fuel + extra) i cond body s = for_loop fuel i cond body s.
Proof.
  intros Hc. induction fuel as [|fuel IH]; intros extra i s Hf.
  - cbn [Nat.add for_loop]. destruct extra as [|extra]; [reflexivity|].
    cbn [for_loop]. destruct (cond i s) eqn:E; [|reflexivity].
    apply Hc in E. lia.
  - cbn [Nat.add for_loop]. destruct (cond i s); [|reflexivity].
    unfold bind. destruct (body i s) as [[[f s1] t1]|]; [|reflexivity].
    destruct f; [|reflexivity]. rewrite IH by lia. reflexivity.
Qed.

Lemma delay_loop_fuel fuel extra d s :
  d <= 10 * Z.of_nat fuel -> d <= CInt.INT_MAX ->
  delay_loop (fuel + extra) d s = delay_loop fuel d s.
Proof.
  unfold CInt.INT_MAX. revert extra d.
  induction fuel as [|fuel IH]; intros extra d Hf Hm.
  - cbn [Nat.add delay_loop]. destruct extra as [|extra]; [reflexivity|].
    cbn [delay_loop]. destruct (Z.ltb_spec 0 d); [lia | reflexivity].
  - cbn [Nat.add delay_loop].
    destruct (Z.ltb_spec 0 d) as [Hp|Hn]; [|reflexivity].
    cbn [andb]. destruct (running s); [|reflexivity].
    unfold bind. cbn [delay emit].
    rewrite IH; [reflexivity | |];
      rewrite sub_small by (unfold CInt.in_int, CInt.INT_MIN, CInt.INT_MAX; lia);
      lia.
Qed.

(** ** One step of the step-by-step scan *)

Ltac run_bind tac :=
  eapply bind_some; [ first [ reflexivity | tac ] | cbv beta ].

Lemma zLayers_of_pos s : 0 < zLayers_of s.
Proof. unfold zLayers_of. cbv zeta. destruct (Z.leb_spec (CInt.wrap
    (Z.quot (CInt.mul (z_travel_mm s) (z_steps_per_mm s)) (z_steps_per_layer s))) 0); lia.
Qed.

Lemma performScanStep_point s :
  wf s ->
  scan_current_step s < theta_steps_per_rev s ->
  performScanStep s =
  Some (tt,
        set_polls (S (polls s))
          (set_current_theta_step
             (Z.rem (current_theta_step s + 1) (theta_steps_per_rev s))
             (set_scan_current_step (scan_current_step s + 1) s)),
        DigitalWrite X_DIR_PIN LOW ::
        pulse_events X_STEP_PIN ++
        DelayMs 20 :: poll_events (sensor (polls s)) ++
        point_events (scan_current_layer s) (scan_current_step s)
          (distance_of (sensor (polls s)))
          (f_angle (Z.rem (scan_current_step s + 1) (theta_steps_per_rev s))
             (theta_steps_per_rev s))).
Proof.
  intros W Hlt. destruct W.
  unfold MIN_THETA_STEPS_PER_REV, MAX_THETA_STEPS_PER_REV, CInt.INT_MAX,
    CInt.in_int, CInt.INT_MIN in *.
  assert (Hz : z_steps_per_layer s <> 0) by lia.
  assert (Ht : theta_steps_per_rev s <> 0) by lia.
  etransitivity.
  { unfold performScanStep.
    run_bind idtac.
    replace (0 <? z_steps_per_layer s) with true by (symmetry; apply Z.ltb_lt; lia).
    run_bind ltac:(apply layer_count_run; assumption).
    run_bind idtac. run_bind idtac.
    replace (theta_steps_per_rev s <=? scan_current_step s) with false
      by (symmetry; apply Z.leb_gt; lia).
    run_bind idtac. run_bind ltac:(apply rotateMotorX_run).
    run_bind idtac. run_bind idtac.
    cbn [current_theta_step set_scan_current_step].
    rewrite (rem_defined _ _ Ht).
    run_bind idtac. run_bind idtac. run_bind idtac.
    run_bind ltac:(apply readDistance_run).
    run_bind idtac.
    cbn [scan_current_step set_polls set_current_theta_step set_scan_current_step].
    rewrite (rem_defined _ _ Ht).
    run_bind idtac. run_bind idtac.
    apply print_point_run. }
  rewrite !add_small, sub_small by (unfold CInt.in_int, CInt.INT_MIN, CInt.INT_MAX; lia).
  replace (scan_current_step s + 1 - 1) with (scan_current_step s) by lia.
  reflexivity.
Qed.

(** ** Commands *)

Ltac eval_dispatch :=
  unfold dispatch;
  lazy beta iota delta [String.eqb Ascii.eqb Bool.eqb orb].

Lemma loop_dispatch l c :
  WString.toUpperCase (WString.trim l) = c ->
  loop (Some l) =
  (e <- dispatch c ;;
   match e with FallThrough => delay 10 | Returned => ret tt end).
Proof. intros <-. reflexivity. Qed.

Lemma dispatch_SCAN_STEP :
  dispatch "SCAN_STEP" =
  (sc <- gets scanning ;;
   sbs <- gets step_by_step_mode ;;
   if negb sc || negb sbs then
     println (TStr "ERROR: Not in step-by-step scan mode!") ;;
     ret Returned
   else performScanStep ;; ret FallThrough).
Proof. eval_dispatch. reflexivity. Qed.

Lemma dispatch_STOP :
  dispatch "STOP" =
  (modify (set_paused true) ;;
   modify (set_scanning false) ;;
   println (TStr "SCAN_PAUSED") ;;
   ret FallThrough).
Proof. eval_dispatch. reflexivity. Qed.

Lemma dispatch_RESUME :
  dispatch "RESUME" =
  (p <- gets paused ;;
   (if p then
      modify (set_paused false) ;;
      modify (set_scanning true) ;;
      println (TStr "SCAN_RESUMED") ;;
      resumeScan ;;
      p' <- gets paused ;;
      (if negb p' then println (TStr "SCAN_COMPLETE") else ret tt) ;;
      modify (set_scanning false)
    else ret tt) ;;
   ret FallThrough).
Proof. eval_dispatch. reflexivity. Qed.

Lemma dispatch_HOME :
  dispatch "HOME" =
  (returnToHome ;; println (TStr "HOME_COMPLETE") ;; ret FallThrough).
Proof. eval_dispatch. reflexivity. Qed.

Lemma dispatch_MOVE_TO_TOP :
  dispatch "MOVE_TO_TOP" =
  (println (TStr "Moving to top position...") ;;
   moveToTop ;;
   println (TStr "MOVE_TO_TOP_COMPLETE") ;;
   ret FallThrough).
Proof. eval_dispatch. reflexivity. Qed.

Lemma performScanStep_layer s :
  wf s ->
  theta_steps_per_rev s <= scan_current_step s ->
  let layer := CInt.add (scan_current_layer s) 1 in
  let s1 := set_scan_current_layer layer (set_scan_current_step 0 s) in
  performScanStep s =
  if zLayers_of s <=? layer then
    Some (tt, set_step_by_step_mode false (set_scanning false s1),
          [SerialPrintln (TStr "SCAN_COMPLETE")])
  else
    Some (tt, s1,
          DigitalWrite Z_DIR_PIN (if scan_direction_up s then LOW else HIGH) ::
          pulses Z_STEP_PIN (Z.to_nat (z_steps_per_layer s)) ++
          [DigitalWrite Z_DIR_PIN LOW; SerialPrintln (TInt DATA_DELIMITER)]).
Proof.
  intros W Hge layer s1. pose proof (zLayers_of_pos s) as Hpos. destruct W.
  unfold MIN_THETA_STEPS_PER_REV, MAX_THETA_STEPS_PER_REV, CInt.INT_MAX,
    CInt.in_int, CInt.INT_MIN in *.
  assert (Hz : z_steps_per_layer s <> 0) by lia.
  assert (E0 : (0 <? z_steps_per_layer s) = true) by (apply Z.ltb_lt; lia).
  assert (E1 : (theta_steps_per_rev s <=? scan_current_step s) = true)
    by (apply Z.leb_le; lia).
  destruct (Z.leb_spec (zLayers_of s) layer) as [Hdone|Hmore].
  - etransitivity.
    { unfold performScanStep.
      run_bind idtac. rewrite E0.
      run_bind ltac:(apply layer_count_run; assumption).
      run_bind idtac. run_bind idtac. rewrite E1.
      run_bind idtac. run_bind idtac. run_bind idtac.
      cbn [scan_current_layer set_scan_current_layer set_scan_current_step].
      fold layer. change (if total_layers s <=? 0 then 1000 else total_layers s)
        with (zLayers_of s).
      replace (zLayers_of s <=? layer) with true by (symmetry; apply Z.leb_le; lia).
      replace (0 <? layer) with true by (symmetry; apply Z.ltb_lt; lia).
      cbn [andb].
      run_bind idtac. run_bind idtac. reflexivity. }
    reflexivity.
  - etransitivity.
    { unfold performScanStep.
      run_bind idtac. rewrite E0.
      run_bind ltac:(apply layer_count_run; assumption).
      run_bind idtac. run_bind idtac. rewrite E1.
      run_bind idtac. run_bind idtac. run_bind idtac.
      cbn [scan_current_layer set_scan_current_layer set_scan_current_step].
      fold layer. change (if total_layers s <=? 0 then 1000 else total_layers s)
        with (zLayers_of s).
      replace (zLayers_of s <=? layer) with false by (symmetry; apply Z.leb_gt; lia).
      cbn [andb].
      run_bind idtac.
      { run_bind idtac. run_bind idtac.
        run_bind ltac:(apply rotateMotorZ_run). reflexivity. }
      reflexivity. }
    cbn [app]. rewrite <- !app_assoc. reflexivity.
Qed.

Lemma loop_SCAN_STEP s r :
  scanning s = true -> step_by_step_mode s = true ->
  performScanStep s = Some r ->
  loop (Some "SCAN_STEP") s = Some (tt, snd (fst r), snd r ++ [DelayMs 10]).
Proof.
  intros Hs Hm Hr. destruct r as [[[] s'] t].
  rewrite (loop_dispatch _ "SCAN_STEP") by reflexivity.
  rewrite dispatch_SCAN_STEP.
  etransitivity.
  { run_bind idtac.
    { run_bind idtac. run_bind idtac. rewrite Hs, Hm. cbn [negb orb].
      run_bind ltac:(exact Hr). reflexivity. }
    reflexivity. }
  cbn [fst snd]. now rewrite !app_nil_l, app_nil_r.
Qed.

(** ** The vertical lift *)

Lemma lift_layer_run s :
  lift_layer s =
  Some (tt, s, pulses Z_STEP_PIN (Z.to_nat (z_steps_per_layer s)) ++ [DelayMs 10]).
Proof.
  unfold lift_layer. etransitivity.
  { run_bind idtac. run_bind ltac:(apply rotateMotorZ_run). reflexivity. }
  reflexivity.
Qed.

Lemma times_lift_layer n s :
  times n lift_layer s =
  Some (tt, s, lift_events (Z.to_nat (z_steps_per_layer s)) n).
Proof.
  unfold lift_events. induction n as [|n IH]; cbn [times repeat List.concat].
  - reflexivity.
  - erewrite bind_some; [reflexivity | apply lift_layer_run | apply IH].
Qed.

Lemma moveToTop_run s :
  z_steps_per_layer s <> 0 ->
  moveToTop s =
  Some (tt, s,
        DigitalWrite Z_DIR_PIN LOW ::
        lift_events (Z.to_nat (z_steps_per_layer s)) (Z.to_nat (total_layers s))).
Proof.
  intros Hz. unfold moveToTop. etransitivity.
  { run_bind idtac. run_bind ltac:(apply layer_count_run; assumption).
    apply times_lift_layer. }
  reflexivity.
Qed.

Lemma returnToHome_run s :
  z_steps_per_layer s <> 0 ->
  returnToHome s =
  Some (tt, s,
        DigitalWrite Z_DIR_PIN HIGH ::
        lift_events (Z.to_nat (z_steps_per_layer s)) (Z.to_nat (total_layers s)) ++
        [DigitalWrite Z_DIR_PIN LOW]).
Proof.
  intros Hz. unfold returnToHome. etransitivity.
  { run_bind idtac. run_bind ltac:(apply layer_count_run; assumption).
    run_bind ltac:(apply times_lift_layer). reflexivity. }
  reflexivity.
Qed.

Lemma z_run_app a t1 t2 : z_run a (t1 ++ t2) = z_run (z_run a t1) t2.
Proof. apply fold_left_app. Qed.

Lemma z_after_add a j k : z_after (z_after a j) k = z_after a (j + k).
Proof.
  destruct j as [|j]; [reflexivity|]. destruct k as [|k].
  - now rewrite Nat.add_0_r.
  - cbn [z_after Nat.add z_dir z_pos]. destruct (z_dir a); f_equal; lia.
Qed.

Lemma z_run_pulses a k : z_run a (pulses Z_STEP_PIN k) = z_after a k.
Proof.
  revert a. induction k as [|k IH]; intros a; [reflexivity|].
  rewrite pulses_S, z_run_app, IH.
  change (S k) with (1 + k)%nat. rewrite <- z_after_add. f_equal.
  destruct a as [d st p]. destruct d, st; reflexivity.
Qed.

Lemma z_run_lift a k n : z_run a (lift_events k n) = z_after a (n * k).
Proof.
  unfold lift_events. revert a.
  induction n as [|n IH]; intros a; [reflexivity|].
  cbn [repeat List.concat]. rewrite !z_run_app, z_run_pulses.
  cbn [z_run fold_left z_event]. rewrite IH, z_after_add. reflexivity.
Qed.

Lemma writes_on_app pin t1 t2 :
  writes_on pin (t1 ++ t2) = writes_on pin t1 ++ writes_on pin t2.
Proof.
  induction t1 as [|e t1 IH]; [reflexivity|].
  destruct e; cbn [app writes_on]; try exact IH.
  destruct (pin0 =? pin); cbn [app]; now rewrite IH.
Qed.

Lemma writes_on_lift k n :
  writes_on Z_STEP_PIN (lift_events k n) = List.concat (repeat [LOW; HIGH] (n * k)).
Proof.
  unfold lift_events. induction n as [|n IH]; [reflexivity|].
  cbn [repeat List.concat]. rewrite !writes_on_app, IH, writes_on_pulses.
  cbn [writes_on app]. rewrite app_nil_r.
  cbn [Nat.mul]. now rewrite repeat_app, concat_app.
Qed.

Lemma writes_on_lift_dir k n : writes_on Z_DIR_PIN (lift_events k n) = [].
Proof.
  unfold lift_events. induction n as [|n IH]; [reflexivity|].
  cbn [repeat List.concat]. rewrite !writes_on_app, IH.
  rewrite writes_on_pulses_other by discriminate. reflexivity.
Qed.
(** ** The events of a sensor read *)

Lemma lines_repeat_delay acc ms n t :
  lines_from acc (repeat (DelayMs ms) n ++ t) = lines_from acc t.
Proof. induction n as [|n IH]; [reflexivity | exact IH]. Qed.

Lemma lines_poll acc a t :
  lines_from acc (poll_events a ++ t) = lines_from acc t.
Proof.
  unfold poll_events. cbn [app lines_from].
  destruct sk; [|reflexivity].
  unfold tf_waiting. now rewrite <- app_assoc, !lines_repeat_delay.
Qed.

Lemma writes_on_repeat_delay pin ms n t :
  writes_on pin (repeat (DelayMs ms) n ++ t) = writes_on pin t.
Proof. induction n as [|n IH]; [reflexivity | exact IH]. Qed.

Lemma writes_on_poll pin a t :
  writes_on pin (poll_events a ++ t) = writes_on pin t.
Proof.
  unfold poll_events. cbn [app writes_on].
  destruct sk; [|reflexivity].
  unfold tf_waiting. now rewrite <- app_assoc, !writes_on_repeat_delay.
Qed.

Lemma polled_repeat_delay ms n : polled (repeat (DelayMs ms) n) = [].
Proof. induction n as [|n IH]; [reflexivity | exact IH]. Qed.

Lemma polled_poll a : polled (poll_events a) = [sensor_of sk].
Proof.
  unfold poll_events. cbn [polled]. f_equal.
  destruct sk; [|reflexivity].
  unfold tf_waiting. now rewrite polled_app, !polled_repeat_delay.
Qed.

Lemma z_run_repeat_delay z ms n t :
  z_run z (repeat (DelayMs ms) n ++ t) = z_run z t.
Proof. induction n as [|n IH]; [reflexivity | exact IH]. Qed.

Lemma z_run_poll z a t : z_run z (poll_events a ++ t) = z_run z t.
Proof.
  unfold poll_events. cbn [app].
  change (z_run z (SensorPoll (sensor_of sk) :: ?x)) with (z_run z x).
  destruct sk; [|reflexivity].
  unfold tf_waiting. now rewrite <- app_assoc, !z_run_repeat_delay.
Qed.

Lemma pins_written_repeat_delay ms n :
  flat_map (fun e => match e with DigitalWrite p _ => [p] | _ => [] end)
    (repeat (DelayMs ms) n) = [].
Proof. induction n as [|n IH]; [reflexivity | exact IH]. Qed.

(** The projections of the pass of a SCAN_STEP command that scans a
    point. *)
Lemma step_point_lines a l st d an :
  lines_from []
    ((DigitalWrite X_DIR_PIN LOW :: pulse_events X_STEP_PIN ++
      DelayMs 20 :: poll_events a ++ point_events l st d an) ++
     [DelayMs 10]) = ([point_line l st d an], []).
Proof.
  cbn [app pulse_events lines_from].
  rewrite <- app_assoc, lines_poll. reflexivity.
Qed.

Lemma step_point_writes pin a l st d an :
  writes_on pin
    ((DigitalWrite X_DIR_PIN LOW :: pulse_events X_STEP_PIN ++
      DelayMs 20 :: poll_events a ++ point_events l st d an) ++
     [DelayMs 10]) =
  writes_on pin (DigitalWrite X_DIR_PIN LOW :: pulse_events X_STEP_PIN).
Proof.
  change ((DigitalWrite X_DIR_PIN LOW :: pulse_events X_STEP_PIN ++
           DelayMs 20 :: poll_events a ++ point_events l st d an) ++
          [DelayMs 10])
    with ((DigitalWrite X_DIR_PIN LOW :: pulse_events X_STEP_PIN ++
           [DelayMs 20]) ++
          (poll_events a ++ point_events l st d an) ++ [DelayMs 10]).
  rewrite writes_on_app, <- app_assoc, writes_on_poll.
  change (writes_on pin (point_events l st d an ++ [DelayMs 10]))
    with (@nil level).
  rewrite app_nil_r. reflexivity.
Qed.

Lemma step_point_polled a l st d an :
  polled
    ((DigitalWrite X_DIR_PIN LOW :: pulse_events X_STEP_PIN ++
      DelayMs 20 :: poll_events a ++ point_events l st d an) ++
     [DelayMs 10]) = [sensor_of sk].
Proof.
  cbn [app pulse_events polled].
  rewrite <- app_assoc, polled_app, polled_poll. reflexivity.
Qed.

Lemma writes_on_point_tail pin a l st d an :
  writes_on pin (DelayMs 20 :: poll_events a ++ point_events l st d an) = [].
Proof. cbn [writes_on]. now rewrite writes_on_poll. Qed.

Lemma polled_point_tail a l st d an :
  polled (DelayMs 20 :: poll_events a ++ point_events l st d an)
  = [sensor_of sk].
Proof. cbn [polled]. now rewrite polled_app, polled_poll. Qed.

Lemma z_pos_after a m :
  z_pos (z_after a m) =
  match z_dir a with
  | LOW => z_pos a + Z.of_nat m
  | HIGH => z_pos a - Z.of_nat m
  end.
Proof. destruct m; cbn [z_after z_pos]; [destruct (z_dir a); lia | reflexivity]. Qed.

Lemma z_dir_after a m : z_dir (z_after a m) = z_dir a.
Proof. now destruct m. Qed.

Lemma loop_MOVE_TO_TOP s :
  z_steps_per_layer s <> 0 ->
  loop (Some "MOVE_TO_TOP") s =
  Some (tt, s,
        SerialPrintln (TStr "Moving to top position...") ::
        DigitalWrite Z_DIR_PIN LOW ::
        lift_events (Z.to_nat (z_steps_per_layer s)) (Z.to_nat (total_layers s)) ++
        [SerialPrintln (TStr "MOVE_TO_TOP_COMPLETE"); DelayMs 10]).
Proof.
  intros Hz. rewrite (loop_dispatch _ "MOVE_TO_TOP") by reflexivity.
  rewrite dispatch_MOVE_TO_TOP. etransitivity.
  { run_bind idtac.
    { run_bind idtac. run_bind ltac:(apply moveToTop_run; assumption).
      run_bind idtac. reflexivity. }
    reflexivity. }
  cbn [app]. rewrite <- !app_assoc. reflexivity.
Qed.

Lemma loop_HOME s :
  z_steps_per_layer s <> 0 ->
  loop (Some "HOME") s =
  Some (tt, s,
        DigitalWrite Z_DIR_PIN HIGH ::
        lift_events (Z.to_nat (z_steps_per_layer s)) (Z.to_nat (total_layers s)) ++
        [DigitalWrite Z_DIR_PIN LOW; SerialPrintln (TStr "HOME_COMPLETE");
         DelayMs 10]).
Proof.
  intros Hz. rewrite (loop_dispatch _ "HOME") by reflexivity.
  rewrite dispatch_HOME. etransitivity.
  { run_bind idtac.
    { run_bind ltac:(apply returnToHome_run; assumption).
      run_bind idtac. reflexivity. }
    reflexivity. }
  cbn [app]. rewrite <- !app_assoc. reflexivity.
Qed.

Lemma z_run_cons a e t : z_run a (e :: t) = z_run (z_event a e) t.
Proof. reflexivity. Qed.

Lemma z_event_dir a v :
  z_event a (DigitalWrite Z_DIR_PIN v) = mkZaxis v (z_step a) (z_pos a).
Proof. reflexivity. Qed.

(** ** CONFIG *)

Lemma dispatch_CONFIG rest :
  dispatch ("CONFIG," ++ rest) =
  (processConfigCommand ("CONFIG," ++ rest) ;; ret FallThrough).
Proof.
  unfold dispatch. destruct rest as [|c r].
  all: repeat match goal with
         | |- context [(?a =? ?b)%string] => change (a =? b)%string with false
         end.
  all: repeat match goal with
         | |- context [WString.startsWith ?a ?b] =>
             first [ change (WString.startsWith a b) with false
                   | change (WString.startsWith a b) with true ]
         end.
  all: reflexivity.
Qed.

Lemma processConfigCommand_run command s :
  let '(iv, c, spr) := parse_config command in
  let v (i : nat) := nth i iv 0 in
  exists t,
    processConfigCommand command s =
      Some (tt,
            (if config_accepted iv c spr
             then set_config (v 0%nat) (v 1%nat) (v 2%nat) (v 3%nat) (v 4%nat) c spr s
             else s), t) /\
    String.prefix
      (if config_accepted iv c spr then "CONFIG_OK:" else "CONFIG_ERROR:")
      (first_text t) = true.
Proof.
  unfold processConfigCommand, config_accepted.
  destruct (parse_config command) as [[iv c] spr]. cbv zeta.
  rewrite !(Z.leb_antisym _ (nth 0 iv 0)), (Z.leb_antisym (nth 0 iv 0)).
  destruct (nth 0 iv 0 <? MIN_THETA_STEPS_PER_REV);
    [eexists; split; reflexivity|].
  destruct (MAX_THETA_STEPS_PER_REV <? nth 0 iv 0);
    [eexists; split; reflexivity|].
  destruct (spr <? nth 0 iv 0); [eexists; split; reflexivity|].
  cbn [negb orb andb].
  destruct ((0 <? nth 0 iv 0) && (0 <? nth 1 iv 0) && (0 <? nth 2 iv 0)
            && (0 <? nth 3 iv 0) && (0 <=? nth 4 iv 0) && f_pos c && (0 <? spr));
    eexists; split; reflexivity.
Qed.

(** ** The resumed scan *)

Lemma flat_map_seq_shift {A} (f : nat -> list A) a n :
  flat_map f (seq (S a) n) = flat_map (fun k => f (S k)) (seq a n).
Proof.
  revert a. induction n as [|n IH]; intros a; cbn [seq flat_map]; [reflexivity|].
  now rewrite IH.
Qed.

(** A loop whose test holds and whose body falls through at each of its
    [n] iterations: [st k] is the state before iteration [k] and [tr k] the
    trace of that iteration. *)
Lemma for_loop_uniform (cond : Z -> state -> bool) (body : Z -> M flow) :
  forall (n : nat) (i : Z) (st : nat -> state) (tr : nat -> trace),
    (forall k, (k < n)%nat ->
               cond (i + Z.of_nat k) (st k) = true /\
               body (i + Z.of_nat k) (st k) = Some (Next, st (S k), tr k)) ->
    for_loop n i cond body (st O) =
    Some (tt, st n, flat_map tr (seq 0 n)).
Proof.
  induction n as [|n IH]; intros i st tr H; cbn [for_loop].
  - reflexivity.
  - destruct (H O ltac:(lia)) as [Hc Hb]. cbn [Z.of_nat] in Hc, Hb.
    rewrite Z.add_0_r in Hc, Hb. rewrite Hc.
    erewrite bind_some; [| exact Hb |].
    2:{ apply (IH (i + 1) (fun k => st (S k)) (fun k => tr (S k))).
        intros k Hk. specialize (H (S k) ltac:(lia)).
        replace (i + 1 + Z.of_nat k) with (i + Z.of_nat (S k)) by lia.
        exact H. }
    cbn [seq flat_map]. now rewrite flat_map_seq_shift.
Qed.

Lemma delay_loop_run s :
  running s = true ->
  forall fuel d,
    d <= 10 * Z.of_nat fuel -> d <= CInt.INT_MAX ->
    delay_loop fuel d s = Some (tt, s, delays d).
Proof.
  intros Hr. unfold delays, CInt.INT_MAX.
  induction fuel as [|fuel IH]; intros d Hd Hmax; cbn [delay_loop].
  - replace (Z.to_nat ((d + 9) / 10)) with O; [reflexivity|].
    assert ((d + 9) / 10 <= 0) by (Z.to_euclidean_division_equations; lia). lia.
  - rewrite Hr, andb_true_r. destruct (Z.ltb_spec 0 d) as [Hp|Hn].
    + erewrite bind_some; [| reflexivity |].
      2:{ apply IH; rewrite sub_small;
          unfold CInt.in_int, CInt.INT_MIN, CInt.INT_MAX; lia. }
      rewrite sub_small by (unfold CInt.in_int, CInt.INT_MIN, CInt.INT_MAX; lia).
      replace (Z.to_nat ((d + 9) / 10)) with (S (Z.to_nat ((d - 10 + 9) / 10)));
        [reflexivity|].
      assert ((d + 9) / 10 = (d - 10 + 9) / 10 + 1 /\ 0 <= (d - 10 + 9) / 10)
        by (Z.to_euclidean_division_equations; lia).
      lia.
    + replace (Z.to_nat ((d + 9) / 10)) with O; [reflexivity|].
      assert ((d + 9) / 10 <= 0) by (Z.to_euclidean_division_equations; lia). lia.
Qed.

Lemma running_flags s :
  running s = true -> scanning s = true /\ paused s = false.
Proof.
  unfold running. destruct (scanning s), (paused s); cbn; intros H;
    try discriminate; now split.
Qed.

Ltac flags Hs Hp :=
  unfold stopped, running, upd;
  cbn [scanning paused set_polls set_current_theta_step];
  rewrite ?Hs, ?Hp; cbn [negb orb andb].

Lemma resume_step_run s0 c p layer spp rm step :
  wf s0 -> running s0 = true ->
  resume_step layer spp rm step (upd c p s0) =
  Some (Next, upd (turned (theta_steps_per_rev s0) c 1) (S p) s0,
        resume_point_events s0 spp rm layer step p).
Proof.
  intros W Hr. destruct (running_flags _ Hr) as [Hs Hp]. destruct W.
  unfold MIN_THETA_STEPS_PER_REV, MAX_THETA_STEPS_PER_REV, CInt.INT_MAX in *.
  assert (Ht : theta_steps_per_rev s0 <> 0) by lia.
  etransitivity.
  { unfold resume_step.
    run_bind idtac. flags Hs Hp.
    run_bind ltac:(apply rotateMotorX_run).
    run_bind idtac. flags Hs Hp.
    run_bind idtac. run_bind idtac.
    cbn [theta_steps_per_rev current_theta_step upd set_polls set_current_theta_step].
    rewrite (rem_defined _ _ Ht).
    run_bind idtac. run_bind idtac. run_bind idtac.
    run_bind ltac:(apply delay_loop_run;
                   [ cbn [running scanning paused set_current_theta_step upd
                            set_polls]; exact Hr
                   | cbn [scan_delay_ms set_current_theta_step upd set_polls]; lia
                   | cbn [scan_delay_ms set_current_theta_step upd set_polls];
                     unfold CInt.INT_MAX; lia ]).
    run_bind idtac. flags Hs Hp.
    run_bind idtac.
    run_bind ltac:(apply readDistance_run).
    run_bind idtac. flags Hs Hp.
    run_bind idtac.
    { rewrite (rem_defined _ _ Ht). run_bind idtac. apply print_point_run. }
    reflexivity. }
  unfold resume_point_events. cbn [app]. rewrite <- ?app_assoc. reflexivity.
Qed.

Lemma turned_add theta c a b :
  turned theta (turned theta c b) a = turned theta c (a + b).
Proof. unfold turned. now rewrite Nat.iter_add. Qed.

Lemma resume_steps_run s0 c p layer spp rm :
  wf s0 -> running s0 = true ->
  let theta := Z.to_nat (theta_steps_per_rev s0) in
  for_loop theta 0
    (fun step s => (step <? theta_steps_per_rev s) && running s)
    (resume_step layer spp rm) (upd c p s0) =
  Some (tt, upd (turned (theta_steps_per_rev s0) c theta) (theta + p) s0,
        flat_map
          (fun k => resume_point_events s0 spp rm layer (Z.of_nat k) (k + p))
          (seq 0 theta)).
Proof.
  intros W Hr theta.
  apply (for_loop_uniform _ _ theta 0
           (fun k => upd (turned (theta_steps_per_rev s0) c k) (k + p) s0)
           (fun k => resume_point_events s0 spp rm layer (Z.of_nat k) (k + p))).
  intros k Hk. split.
  - unfold upd, running in *.
    cbn [theta_steps_per_rev scanning paused set_polls set_current_theta_step].
    rewrite Hr, andb_true_r. apply Z.ltb_lt. unfold theta in Hk. lia.
  - rewrite resume_step_run by assumption. reflexivity.
Qed.

Lemma resume_layer_run s0 c p zL spp rm (l : nat) :
  wf s0 -> running s0 = true ->
  CInt.in_int (zL - 1) ->
  let theta := Z.to_nat (theta_steps_per_rev s0) in
  resume_layer zL 0 0 spp rm (Z.of_nat l) (upd c p s0) =
  Some (Next, upd (turned (theta_steps_per_rev s0) c theta) (theta + p) s0,
        flat_map
          (fun k => resume_point_events s0 spp rm (Z.of_nat l) (Z.of_nat k) (k + p))
          (seq 0 theta) ++
        (if Z.of_nat l <? zL - 1 then layer_change_events s0 else [])).
Proof.
  intros W Hr HzL theta. destruct (running_flags _ Hr) as [Hs Hp].
  pose proof (resume_steps_run s0 c p (Z.of_nat l) spp rm W Hr) as Hin.
  cbv zeta in Hin. fold theta in Hin.
  assert (Hth : Z.to_nat (theta_steps_per_rev s0 - 0) = theta)
    by (now rewrite Z.sub_0_r).
  unfold resume_layer.
  replace (if Z.of_nat l =? 0 then 0 else 0) with 0
    by (now destruct (Z.of_nat l =? 0)).
  rewrite sub_small by assumption.
  destruct (Z.ltb_spec (Z.of_nat l) (zL - 1)) as [Hlt|Hge].
  - etransitivity.
    { run_bind idtac.
      cbn [theta_steps_per_rev upd set_polls set_current_theta_step].
      rewrite Hth.
      run_bind ltac:(exact Hin).
      run_bind idtac. flags Hs Hp.
      run_bind idtac. flags Hs Hp.
      run_bind idtac. flags Hs Hp.
      run_bind idtac. run_bind idtac.
      run_bind ltac:(apply rotateMotorZ_run).
      run_bind idtac.
      run_bind idtac. flags Hs Hp.
      run_bind ltac:(apply delay_loop_run;
                     [ unfold running;
                       cbn [scanning paused set_polls set_current_theta_step];
                       now rewrite Hs, Hp
                     | lia | unfold CInt.INT_MAX; lia ]).
      run_bind idtac. flags Hs Hp.
      run_bind idtac. flags Hs Hp.
      run_bind idtac. reflexivity. }
    unfold layer_change_events. cbn [app]. rewrite <- ?app_assoc. reflexivity.
  - etransitivity.
    { run_bind idtac.
      cbn [theta_steps_per_rev upd set_polls set_current_theta_step].
      rewrite Hth.
      run_bind ltac:(exact Hin).
      run_bind idtac. flags Hs Hp.
      run_bind idtac. flags Hs Hp.
      reflexivity. }
    cbn [app]. rewrite <- ?app_assoc. reflexivity.
Qed.

Lemma resume_layers_run s0 c p spp rm zL :
  wf s0 -> running s0 = true -> CInt.in_int zL ->
  let theta := Z.to_nat (theta_steps_per_rev s0) in
  let nL := Z.to_nat zL in
  for_loop nL 0 (fun layer s => (layer <? zL) && running s)
    (resume_layer zL 0 0 spp rm) (upd c p s0) =
  Some (tt,
        upd (turned (theta_steps_per_rev s0) c (nL * theta)) (nL * theta + p) s0,
        flat_map (resume_layer_events s0 spp rm zL p) (seq 0 nL)).
Proof.
  intros W Hr HzL theta nL.
  apply (for_loop_uniform _ _ nL 0
           (fun l => upd (turned (theta_steps_per_rev s0) c (l * theta))
                       (l * theta + p) s0)
           (resume_layer_events s0 spp rm zL p)).
  intros l Hl. split.
  - unfold upd, running in *.
    cbn [scanning paused set_polls set_current_theta_step].
    rewrite Hr, andb_true_r. apply Z.ltb_lt. unfold nL in Hl. lia.
  - cbn [Z.add].
    rewrite resume_layer_run; try assumption.
    2:{ unfold CInt.in_int, CInt.INT_MIN, CInt.INT_MAX, nL in *. lia. }
    fold theta. rewrite turned_add.
    replace (theta + (l * theta + p))%nat with (S l * theta + p)%nat
      by (cbn [Nat.mul]; lia).
    unfold resume_layer_events. fold theta.
    match goal with
    | |- Some (_, _, flat_map ?f _ ++ _) = Some (_, _, flat_map ?g _ ++ _) =>
        rewrite (flat_map_ext f g)
    end; [reflexivity|].
    intros k. f_equal. lia.
Qed.

Lemma wf_flags s b1 b2 b3 b4 :
  wf s ->
  wf (set_scanning b1 (set_paused b2 (set_scanning b3 (set_paused b4 s)))).
Proof. intros []. constructor; assumption. Qed.

Lemma wf_upd s c p :
  wf s ->
  - MAX_THETA_STEPS_PER_REV < c < MAX_THETA_STEPS_PER_REV ->
  wf (upd c p s).
Proof. intros [] Hc. constructor; assumption. Qed.

(** [resumeScan] from layer 0, step 0, with nothing to stop it. *)
Lemma resumeScan_run s0 c p :
  wf s0 -> running s0 = true ->
  paused_layer s0 = 0 -> paused_step s0 = 0 ->
  let theta := Z.to_nat (theta_steps_per_rev s0) in
  let nL := Z.to_nat (total_layers s0) in
  let k := Z.to_nat (z_steps_per_layer s0) in
  resumeScan (upd c p s0) =
  Some (tt,
        upd (turned (theta_steps_per_rev s0) c (nL * theta)) (nL * theta + p) s0,
        SerialPrintln (TStr "Resuming: Moving to top position...") ::
        (DigitalWrite Z_DIR_PIN LOW :: lift_events k nL) ++
        DelayMs 500 ::
        resume_scan_events (upd c p s0) ++
        (DigitalWrite Z_DIR_PIN HIGH ::
         lift_events k nL ++ [DigitalWrite Z_DIR_PIN LOW])).
Proof.
  intros W Hr H0 H1 theta nL k. destruct (running_flags _ Hr) as [Hs Hp].
  assert (Hz : z_steps_per_layer s0 <> 0) by (destruct W; lia).
  assert (Ht : theta_steps_per_rev s0 <> 0)
    by (destruct W; unfold MIN_THETA_STEPS_PER_REV in *; lia).
  etransitivity.
  { unfold resumeScan.
    run_bind ltac:(apply layer_count_run; exact Hz).
    run_bind idtac. run_bind idtac.
    cbn [paused_layer paused_step upd set_polls set_current_theta_step].
    rewrite H0, H1. cbn [Z.eqb andb].
    run_bind idtac.
    { run_bind idtac. run_bind ltac:(apply moveToTop_run; exact Hz).
      reflexivity. }
    run_bind idtac. run_bind idtac.
    cbn [steps_per_rev theta_steps_per_rev upd set_polls set_current_theta_step].
    rewrite (div_defined _ _ Ht), (rem_defined _ _ Ht).
    run_bind idtac. run_bind idtac.
    change (total_layers (upd c p s0)) with (total_layers s0).
    rewrite Z.sub_0_r.
    run_bind ltac:(apply resume_layers_run;
                   [ exact W | exact Hr | apply wrap_in_int ]).
    run_bind idtac. flags Hs Hp.
    apply returnToHome_run. exact Hz. }
  cbn [app]. rewrite <- ?app_assoc. cbn [app]. reflexivity.
Qed.

(** ** Serial lines of a scan *)

Lemma prepend_nil r : prepend [] r = r.
Proof. now destruct r. Qed.

Lemma prepend_app l1 l2 r : prepend (l1 ++ l2) r = prepend l1 (prepend l2 r).
Proof. unfold prepend. cbn [fst snd]. now rewrite app_assoc. Qed.

Lemma lines_println k t :
  lines_from [] (SerialPrintln k :: t) = prepend [[k]] (lines_from [] t).
Proof. cbn [lines_from app]. now destruct (lines_from [] t). Qed.

Lemma lines_pulses acc pin n t :
  lines_from acc (pulses pin n ++ t) = lines_from acc t.
Proof.
  induction n as [|n IH]; [reflexivity|].
  rewrite pulses_S, <- app_assoc. exact IH.
Qed.

Lemma lines_delays acc d t : lines_from acc (delays d ++ t) = lines_from acc t.
Proof.
  unfold delays. induction (Z.to_nat ((d + 9) / 10)) as [|n IH]; [reflexivity|].
  exact IH.
Qed.

Lemma lines_lift acc k n t :
  lines_from acc (lift_events k n ++ t) = lines_from acc t.
Proof.
  unfold lift_events. induction n as [|n IH]; [reflexivity|].
  cbn [repeat List.concat]. rewrite <- !app_assoc, lines_pulses. exact IH.
Qed.

Lemma lines_point s spp rm layer step p t :
  lines_from [] (resume_point_events s spp rm layer step p ++ t) =
  prepend
    [point_line layer step (distance_of (sensor p))
       (f_angle (Z.rem step (theta_steps_per_rev s)) (theta_steps_per_rev s))]
    (lines_from [] t).
Proof.
  unfold resume_point_events.
  rewrite <- !app_assoc, lines_pulses, lines_delays.
  cbn [app lines_from]. rewrite <- app_assoc, lines_poll.
  cbn [app point_events lines_from]. now destruct (lines_from [] t).
Qed.

Lemma lines_points s spp rm layer (idx : nat -> nat) l t :
  lines_from []
    (flat_map (fun k => resume_point_events s spp rm layer (Z.of_nat k) (idx k)) l
     ++ t) =
  prepend
    (map (fun k =>
            point_line layer (Z.of_nat k) (distance_of (sensor (idx k)))
              (f_angle (Z.rem (Z.of_nat k) (theta_steps_per_rev s))
                 (theta_steps_per_rev s))) l)
    (lines_from [] t).
Proof.
  induction l as [|k l IH]; cbn [flat_map map].
  - now rewrite prepend_nil.
  - rewrite <- app_assoc, lines_point, IH.
    now rewrite <- (prepend_app [_]).
Qed.

Lemma lines_layer_change s t :
  lines_from [] (layer_change_events s ++ t) =
  prepend [[TInt DATA_DELIMITER]] (lines_from [] t).
Proof.
  unfold layer_change_events. cbn [app lines_from].
  rewrite <- app_assoc, lines_pulses. cbn [app lines_from].
  rewrite <- app_assoc, lines_delays. cbn [app lines_from].
  now destruct (lines_from [] t).
Qed.

Lemma lines_layers s spp rm zL p0 l t :
  lines_from [] (flat_map (resume_layer_events s spp rm zL p0) l ++ t) =
  prepend
    (flat_map
       (fun l =>
          map (fun k =>
                 point_line (Z.of_nat l) (Z.of_nat k)
                   (distance_of
                      (sensor (p0 + l * Z.to_nat (theta_steps_per_rev s) + k)))
                   (f_angle (Z.rem (Z.of_nat k) (theta_steps_per_rev s))
                      (theta_steps_per_rev s)))
            (seq 0 (Z.to_nat (theta_steps_per_rev s))) ++
          (if Z.of_nat l <? zL - 1 then [[TInt DATA_DELIMITER]] else []))
       l)
    (lines_from [] t).
Proof.
  induction l as [|a l IH]; cbn [flat_map].
  - now rewrite prepend_nil.
  - rewrite <- app_assoc. unfold resume_layer_events at 1. cbv zeta.
    rewrite <- app_assoc, lines_points.
    destruct (Z.of_nat a <? zL - 1).
    + rewrite lines_layer_change, IH. now rewrite !prepend_app.
    + cbn [app]. rewrite IH, app_nil_r. now rewrite !prepend_app.
Qed.

Lemma lines_resume_scan s t :
  lines_from [] (resume_scan_events s ++ t) =
  prepend (full_scan_lines s (total_layers s) (polls s)) (lines_from [] t).
Proof. unfold resume_scan_events, full_scan_lines. apply lines_layers. Qed.

Lemma loop_STOP s :
  loop (Some "STOP") s =
  Some (tt, set_scanning false (set_paused true s),
        [SerialPrintln (TStr "SCAN_PAUSED"); DelayMs 10]).
Proof.
  rewrite (loop_dispatch _ "STOP") by reflexivity.
  rewrite dispatch_STOP. reflexivity.
Qed.

(** RESUME on a paused state whose recorded position is layer 0, step 0. *)
Lemma loop_RESUME s :
  wf s -> paused s = true -> paused_layer s = 0 -> paused_step s = 0 ->
  let theta := Z.to_nat (theta_steps_per_rev s) in
  let nL := Z.to_nat (total_layers s) in
  let k := Z.to_nat (z_steps_per_layer s) in
  loop (Some "RESUME") s =
  Some (tt,
        set_scanning false
          (set_paused false
             (upd (turned (theta_steps_per_rev s) (current_theta_step s)
                     (nL * theta))
                (nL * theta + polls s) s)),
        SerialPrintln (TStr "SCAN_RESUMED") ::
        SerialPrintln (TStr "Resuming: Moving to top position...") ::
        DigitalWrite Z_DIR_PIN LOW :: lift_events k nL ++
        DelayMs 500 :: resume_scan_events s ++
        DigitalWrite Z_DIR_PIN HIGH :: lift_events k nL ++
        [DigitalWrite Z_DIR_PIN LOW; SerialPrintln (TStr "SCAN_COMPLETE");
         DelayMs 10]).
Proof.
  intros W Hp H0 H1 theta nL k.
  set (s_run := set_scanning true (set_paused false s)).
  assert (Wr : wf s_run) by (destruct W; constructor; assumption).
  pose proof (resumeScan_run s_run (current_theta_step s) (polls s) Wr
                eq_refl H0 H1) as Hrun.
  cbv zeta in Hrun.
  rewrite (loop_dispatch _ "RESUME") by reflexivity.
  rewrite dispatch_RESUME. etransitivity.
  { run_bind idtac.
    { run_bind idtac. rewrite Hp.
      run_bind idtac.
      { run_bind idtac. run_bind idtac. run_bind idtac.
        run_bind ltac:(exact Hrun).
        run_bind idtac.
        cbn [paused upd set_polls set_current_theta_step s_run set_scanning
               set_paused negb].
        run_bind idtac. reflexivity. }
      reflexivity. }
    reflexivity. }
  repeat first [ rewrite <- app_assoc | progress cbn [app] ].
  reflexivity.
Qed.

Lemma wf_initial_state : wf initial_state.
Proof. constructor; cbv; repeat split; discriminate. Qed.

(** ** The invariant of the command loop *)

Lemma lands_bind {A B} (I : state -> Prop) (m : M A) (k : A -> M B) s a s1 t1 :
  m s = Some (a, s1, t1) -> lands I (k a) s1 -> lands I (bind m k) s.
Proof.
  intros Hm (b & s2 & t2 & Hk & HI).
  exists b, s2, (t1 ++ t2). split; [|exact HI].
  eapply bind_some; eassumption.
Qed.

Lemma lands_assoc {A B C} (I : state -> Prop) (m : M A) (k : A -> M B)
    (h : B -> M C) s :
  lands I (bind m (fun a => bind (k a) h)) s -> lands I (bind (bind m k) h) s.
Proof. unfold lands. now rewrite bind_assoc_run. Qed.

Lemma lands_ret {A} (I : state -> Prop) (a : A) s : I s -> lands I (ret a) s.
Proof. intros HI. now exists a, s, []. Qed.

Lemma lands_run {A} (I : state -> Prop) (m : M A) s a s' t :
  m s = Some (a, s', t) -> I s' -> lands I m s.
Proof. intros Hm HI. now exists a, s', t. Qed.

Lemma turned_bound theta c n :
  0 < theta <= MAX_THETA_STEPS_PER_REV ->
  - MAX_THETA_STEPS_PER_REV < c < MAX_THETA_STEPS_PER_REV ->
  - MAX_THETA_STEPS_PER_REV < turned theta c n < MAX_THETA_STEPS_PER_REV.
Proof.
  intros Ht Hc. destruct n as [|n]; [exact Hc|].
  unfold turned. rewrite Nat.iter_succ.
  match goal with
  | |- _ < Z.rem ?x theta < _ => pose proof (rem_range x theta ltac:(lia))
  end. lia.
Qed.

Lemma store_in_int i v l :
  CInt.in_int v -> Forall CInt.in_int l -> Forall CInt.in_int (store i v l).
Proof.
  intros Hv Hl. revert i. induction Hl as [|x l Hx Hl IH]; intros i; cbn [store].
  - destruct i; constructor.
  - destruct i; constructor; auto.
Qed.

Lemma parse_ints_in_int fuel i params l :
  Forall CInt.in_int l -> Forall CInt.in_int (snd (parse_ints fuel i params l)).
Proof.
  revert i params l. induction fuel as [|fuel IH]; intros i params l Hl;
    cbn [parse_ints]; [exact Hl|].
  destruct (WString.indexOf ","%char params =? -1); cbn [snd].
  - apply store_in_int; [apply wrap_in_int | exact Hl].
  - apply IH. apply store_in_int; [apply wrap_in_int | exact Hl].
Qed.

Lemma nth_in_int i l : Forall CInt.in_int l -> CInt.in_int (nth i l 0).
Proof.
  intros Hl. revert i. induction Hl as [|x l Hx Hl IH]; intros [|i]; cbn [nth];
    auto; unfold CInt.in_int, CInt.INT_MIN, CInt.INT_MAX; lia.
Qed.

Lemma parse_config_in_int command :
  let '(iv, c, spr) := parse_config command in
  (forall i, CInt.in_int (nth i iv 0)) /\ CInt.in_int spr.
Proof.
  unfold parse_config.
  pose proof (parse_ints_in_int 5 0 (WString.substring_from 7 command)
                (map (fun i => CInt.wrap (uninit i)) (seq 0 6))) as H.
  destruct (parse_ints 5 0 (WString.substring_from 7 command)
              (map (fun i => CInt.wrap (uninit i)) (seq 0 6))) as [params iv].
  cbn [snd] in H.
  assert (Hiv : Forall CInt.in_int iv).
  { apply H. apply Forall_forall. intros x Hx. apply in_map_iff in Hx.
    destruct Hx as (i & <- & _). apply wrap_in_int. }
  destruct (parse_tail params) as [c spr] eqn:E. split.
  - intros i. now apply nth_in_int.
  - unfold parse_tail in E. cbv zeta in E.
    assert (Hd : CInt.in_int DEFAULT_STEPS_PER_REV)
      by (unfold CInt.in_int, CInt.INT_MIN, CInt.INT_MAX,
            DEFAULT_STEPS_PER_REV; lia).
    destruct (0 <? WString.length params); [|now injection E as <- <-].
    destruct (WString.indexOf ","%char params =? -1); [now injection E as <- <-|].
    destruct (0 <? WString.length _); injection E as <- <-;
      [apply wrap_in_int | exact Hd].
Qed.

Lemma dispatch_RESUME_paused s :
  wf s -> paused s = true -> paused_layer s = 0 -> paused_step s = 0 ->
  exists t,
    dispatch "RESUME" s =
    Some (FallThrough,
          set_scanning false
            (set_paused false
               (upd (turned (theta_steps_per_rev s) (current_theta_step s)
                       (Z.to_nat (total_layers s) *
                        Z.to_nat (theta_steps_per_rev s)))
                  (Z.to_nat (total_layers s) *
                   Z.to_nat (theta_steps_per_rev s) + polls s) s)), t).
Proof.
  intros W Hp H0 H1.
  set (s_run := set_scanning true (set_paused false s)).
  assert (Wr : wf s_run) by (destruct W; constructor; assumption).
  pose proof (resumeScan_run s_run (current_theta_step s) (polls s) Wr
                eq_refl H0 H1) as Hrun.
  cbv zeta in Hrun. eexists.
  rewrite dispatch_RESUME.
  run_bind idtac. rewrite Hp.
  run_bind idtac.
  { run_bind idtac. run_bind idtac. run_bind idtac.
    run_bind ltac:(exact Hrun).
    run_bind idtac.
    cbn [paused upd set_polls set_current_theta_step s_run set_scanning
           set_paused negb].
    run_bind idtac. reflexivity. }
  reflexivity.
Qed.

Ltac unfold_bounds :=
  unfold CInt.in_int in *;
  unfold MIN_THETA_STEPS_PER_REV, MAX_THETA_STEPS_PER_REV, CInt.INT_MAX,
    CInt.INT_MIN in *.

(** The invariant for a state whose configuration and counters are those of
    [s], or fresh values within the bounds. *)
Ltac keep W H0 H1 :=
  split; [ destruct W; constructor;
           cbn [theta_steps_per_rev steps_per_rev z_travel_mm z_steps_per_mm
                  z_steps_per_layer scan_delay_ms current_theta_step
                  scan_current_layer scan_current_step
                  set_scanning set_paused set_scan_direction_up
                  set_current_theta_step set_paused_layer set_paused_step
                  set_scan_current_layer set_scan_current_step
                  set_step_by_step_mode set_polls upd];
           first [ assumption | apply wrap_in_int | unfold_bounds; lia ]
         | split; [exact H0 | exact H1] ].

Ltac go tac :=
  repeat first
    [ lazymatch goal with
      | |- lands _ (bind (bind _ _) _) _ => apply lands_assoc
      end
    | eapply lands_bind;
      [ solve [ tac
              | reflexivity
              | apply rotateMotorX_run
              | apply rotateMotorZ_run
              | apply readDistance_run ]
      | cbv beta ]
    | lazymatch goal with
      | |- lands _ (ret _) _ => apply lands_ret
      end ].

Lemma dispatch_lands c s : invariant s -> lands invariant (dispatch c) s.
Proof.
  intros (W & H0 & H1).
  assert (Hz : z_steps_per_layer s <> 0) by (destruct W; lia).
  assert (Ht : theta_steps_per_rev s <> 0)
    by (destruct W; unfold_bounds; lia).
  assert (Htp : 0 < theta_steps_per_rev s)
    by (destruct W; unfold_bounds; lia).
  unfold dispatch.
  destruct ((c =? "START") || (c =? "START_UP"))%string.
  { eapply lands_run; [reflexivity|].
    split; [|split; reflexivity].
    destruct W; constructor; cbn; try assumption; unfold_bounds; lia. }
  destruct (c =? "START_DOWN")%string.
  { eapply lands_run; [reflexivity|].
    split; [|split; reflexivity].
    destruct W; constructor; cbn; try assumption; unfold_bounds; lia. }
  destruct (c =? "SCAN_STEP")%string.
  { go idtac. destruct (negb (scanning s) || negb (step_by_step_mode s)).
    - go idtac. keep W H0 H1.
    - destruct (Z.lt_ge_cases (scan_current_step s) (theta_steps_per_rev s))
        as [Hlt|Hge].
      + go ltac:(apply performScanStep_point; assumption).
        pose proof (rem_range (current_theta_step s + 1)
                      (theta_steps_per_rev s) Htp).
        keep W H0 H1.
      + pose proof (performScanStep_layer s W Hge) as Hl. cbv zeta in Hl.
        destruct (zLayers_of s <=? CInt.add (scan_current_layer s) 1);
          go ltac:(exact Hl); keep W H0 H1. }
  destruct (c =? "STOP")%string.
  { eapply lands_run; [reflexivity|]. keep W H0 H1. }
  destruct (c =? "RESUME")%string.
  { destruct (paused s) eqn:Hp.
    - rewrite <- dispatch_RESUME.
      destruct (dispatch_RESUME_paused s W Hp H0 H1) as (t & Hrun).
      eapply lands_run; [exact Hrun|].
      pose proof (turned_bound (theta_steps_per_rev s) (current_theta_step s)
                    (Z.to_nat (total_layers s) *
                     Z.to_nat (theta_steps_per_rev s))) as Hb.
      destruct W. unfold_bounds. specialize (Hb ltac:(lia) ltac:(lia)).
      split; [constructor; cbn; unfold_bounds; assumption || lia
             | split; assumption].
    - go idtac. rewrite Hp. go idtac. keep W H0 H1. }
  destruct (c =? "HOME")%string.
  { go ltac:(apply returnToHome_run; assumption). keep W H0 H1. }
  destruct (c =? "MOVE_TO_TOP")%string.
  { go ltac:(apply moveToTop_run; assumption). keep W H0 H1. }
  destruct (c =? "TEST")%string.
  { go idtac. keep W H0 H1. }
  destruct (c =? "TEST_POINT")%string.
  { go idtac. cbn [current_theta_step theta_steps_per_rev set_polls].
    rewrite (rem_defined _ _ Ht). go idtac. keep W H0 H1. }
  destruct (WString.startsWith c "ROTATE,").
  { destruct (0 <? WString.toInt16 (WString.substring_from 7 c)).
    - go idtac. rewrite (rem_defined _ _ Ht). go idtac.
      match goal with
      | |- context [Z.rem ?x (theta_steps_per_rev s)] =>
          pose proof (rem_range x (theta_steps_per_rev s) Htp)
      end.
      keep W H0 H1.
    - go idtac. keep W H0 H1. }
  destruct (WString.startsWith c "ROTATE_CCW,").
  { destruct (0 <? WString.toInt16 (WString.substring_from 11 c)).
    - go idtac. rewrite (rem_defined _ _ Ht). go idtac.
      match goal with
      | |- context [Z.rem ?x (theta_steps_per_rev s)] =>
          pose proof (rem_range x (theta_steps_per_rev s) Htp)
      end.
      keep W H0 H1.
    - go idtac. keep W H0 H1. }
  destruct (WString.startsWith c "ROTATE_Z,").
  { destruct (0 <? WString.toInt16 (WString.substring_from 9 c));
      go idtac; keep W H0 H1. }
  destruct (WString.startsWith c "ROTATE_Z_CCW,").
  { destruct (0 <? WString.toInt16 (WString.substring_from 13 c));
      go idtac; keep W H0 H1. }
  destruct (WString.startsWith c "CONFIG,").
  { pose proof (processConfigCommand_run c s) as Hrun.
    pose proof (parse_config_in_int c) as Hin.
    destruct (parse_config c) as [[iv cd] spr]. cbv zeta in Hrun.
    destruct Hin as [Hiv Hspr]. destruct Hrun as (t & Hrun & _).
    go ltac:(exact Hrun).
    destruct (config_accepted iv cd spr) eqn:Hok; [|keep W H0 H1].
    unfold config_accepted in Hok. cbv zeta in Hok.
    repeat (apply andb_prop in Hok as [Hok ?]).
    repeat match goal with
           | H : (_ <=? _) = true |- _ => apply Z.leb_le in H
           | H : (_ <? _) = true |- _ => apply Z.ltb_lt in H
           end.
    pose proof (Hiv 1%nat). pose proof (Hiv 2%nat). pose proof (Hiv 3%nat).
    pose proof (Hiv 4%nat).
    split; [|split; assumption].
    destruct W; constructor; cbn; unfold_bounds; try assumption; lia. }
  destruct (c =? "GET_CONFIG")%string.
  { eapply lands_run; [reflexivity|]. keep W H0 H1. }
  destruct (c =? "READ_LIDAR")%string.
  { go idtac. keep W H0 H1. }
  go idtac. keep W H0 H1.
Qed.

Lemma loop_lands line s : invariant s -> lands invariant (loop line) s.
Proof.
  intros HI. destruct line as [l|]; cbn [loop].
  - destruct (dispatch_lands (WString.toUpperCase (WString.trim l)) s HI)
      as (e & s' & t & Hd & HI').
    eapply lands_bind; [exact Hd|].
    destruct e; eapply lands_run; try reflexivity; exact HI'.
  - eapply lands_run; [reflexivity | exact HI].
Qed.

Lemma invariant_initial_state : invariant initial_state.
Proof. split; [apply wf_initial_state | split; reflexivity]. Qed.

(** Every reachable state is well formed and has layer 0, step 0 as its
    recorded pause position. *)
Lemma reachable_invariant s : reachable s -> invariant s.
Proof.
  induction 1 as [|s line s' t Hr IH Hl].
  - apply invariant_initial_state.
  - destruct (loop_lands line s IH) as (a & s2 & t2 & Hl2 & HI).
    rewrite Hl in Hl2. injection Hl2 as _ <- _. exact HI.
Qed.

(** X19. From a state the firmware can reach, every pass of [loop]
    returns, whatever line it receives, and leaves a reachable state: no
    command divides by zero and the loops of the scans terminate. *)
Lemma reachable_pass_returns s line :
  reachable s -> exists s' t, loop line s = Some (tt, s', t) /\ reachable s'.
Proof.
  intros Hr.
  destruct (loop_lands line s (reachable_invariant s Hr))
    as ([] & s' & t & Hl & _).
  exists s', t. split; [exact Hl|]. econstructor; eassumption.
Qed.
(** ** Commands with an argument *)

Lemma substring_full s : String.substring 0 (String.length s) s = s.
Proof. induction s as [|c s IH]; cbn; [reflexivity | now rewrite IH]. Qed.

Lemma length_append p r :
  String.length (p ++ r)%string = (String.length p + String.length r)%nat.
Proof. induction p as [|c p IH]; cbn; [reflexivity | now rewrite IH]. Qed.

Lemma substring_skip p m r :
  String.substring (String.length p) m (p ++ r)%string = String.substring 0 m r.
Proof.
  induction p as [|c p IH]; [reflexivity|].
  cbn [String.length String.append String.substring]. exact IH.
Qed.

Lemma substring_from_app p r :
  WString.substring_from (Z.of_nat (String.length p)) (p ++ r)%string = r.
Proof.
  unfold WString.substring_from, WString.substring, WString.length.
  rewrite Nat2Z.id, length_append.
  replace (Z.to_nat (Z.of_nat (String.length p + String.length r)
                     - Z.of_nat (String.length p)))
    with (String.length r) by lia.
  rewrite substring_skip. apply substring_full.
Qed.

Ltac eval_tests :=
  repeat match goal with
         | |- context [(?a =? ?b)%string] => change (a =? b)%string with false
         end;
  repeat match goal with
         | |- context [WString.startsWith ?a ?b] =>
             first [ change (WString.startsWith a b) with false
                   | change (WString.startsWith a b) with true ]
         end.

Lemma dispatch_ROTATE rest :
  dispatch ("ROTATE," ++ rest) =
  ((if 0 <? WString.toInt16 rest then
      digitalWrite X_DIR_PIN LOW ;;
      rotateMotorX (WString.toInt16 rest) ;;
      cur <- gets current_theta_step ;;
      theta <- gets theta_steps_per_rev ;;
      next <- defined (CInt.rem (CInt.add cur (WString.toInt16 rest)) theta) ;;
      modify (set_current_theta_step next) ;;
      print (TStr "ROTATED:") ;;
      println (TInt (WString.toInt16 rest))
    else
      print (TStr "ROTATE_ERROR: Invalid steps: ") ;;
      println (TStr rest)) ;;
   ret FallThrough).
Proof.
  pose proof (substring_from_app "ROTATE," rest) as E.
  change (Z.of_nat (String.length "ROTATE,")) with 7 in E.
  unfold dispatch. cbv zeta. rewrite E. clear E.
  destruct rest as [|c r]; eval_tests; reflexivity.
Qed.

Lemma dispatch_ROTATE_CCW rest :
  dispatch ("ROTATE_CCW," ++ rest) =
  ((if 0 <? WString.toInt16 rest then
      digitalWrite X_DIR_PIN HIGH ;;
      rotateMotorX (WString.toInt16 rest) ;;
      cur <- gets current_theta_step ;;
      theta <- gets theta_steps_per_rev ;;
      next <- defined (CInt.rem (CInt.add (CInt.sub cur (WString.toInt16 rest))
                                   theta) theta) ;;
      modify (set_current_theta_step next) ;;
      print (TStr "ROTATED:") ;;
      print (TInt (CInt.neg (WString.toInt16 rest))) ;;
      newline
    else ret tt) ;;
   ret FallThrough).
Proof.
  pose proof (substring_from_app "ROTATE_CCW," rest) as E.
  change (Z.of_nat (String.length "ROTATE_CCW,")) with 11 in E.
  unfold dispatch. cbv zeta. rewrite E. clear E.
  destruct rest as [|c r]; eval_tests; reflexivity.
Qed.

Lemma dispatch_ROTATE_Z rest :
  dispatch ("ROTATE_Z," ++ rest) =
  ((if 0 <? WString.toInt16 rest then
      digitalWrite Z_DIR_PIN LOW ;;
      rotateMotorZ (WString.toInt16 rest) ;;
      print (TStr "ROTATED_Z:") ;;
      println (TInt (WString.toInt16 rest))
    else
      print (TStr "ROTATE_Z_ERROR: Invalid steps: ") ;;
      println (TStr rest)) ;;
   ret FallThrough).
Proof.
  pose proof (substring_from_app "ROTATE_Z," rest) as E.
  change (Z.of_nat (String.length "ROTATE_Z,")) with 9 in E.
  unfold dispatch. cbv zeta. rewrite E. clear E.
  destruct rest as [|c r]; eval_tests; reflexivity.
Qed.

Lemma dispatch_ROTATE_Z_CCW rest :
  dispatch ("ROTATE_Z_CCW," ++ rest) =
  ((if 0 <? WString.toInt16 rest then
      digitalWrite Z_DIR_PIN HIGH ;;
      rotateMotorZ (WString.toInt16 rest) ;;
      print (TStr "ROTATED_Z:") ;;
      print (TInt (CInt.neg (WString.toInt16 rest))) ;;
      newline
    else ret tt) ;;
   ret FallThrough).
Proof.
  pose proof (substring_from_app "ROTATE_Z_CCW," rest) as E.
  change (Z.of_nat (String.length "ROTATE_Z_CCW,")) with 13 in E.
  unfold dispatch. cbv zeta. rewrite E. clear E.
  destruct rest as [|c r]; eval_tests; reflexivity.
Qed.

(** ** Further properties of the command loop *)

Lemma dispatch_SCAN_STEP_refused (s : state) :
  negb (scanning s) || negb (step_by_step_mode s) = true ->
  dispatch "SCAN_STEP" s =
  Some (Returned, s,
        [SerialPrintln (TStr "ERROR: Not in step-by-step scan mode!")]).
Proof.
  intros E. rewrite dispatch_SCAN_STEP. etransitivity.
  { run_bind idtac. run_bind idtac. rewrite E. reflexivity. }
  reflexivity.
Qed.

(** X1. SCAN_STEP outside a step-by-step scan: when [scanning] or
    [step_by_step_mode] is false, the pass prints the error line, changes
    nothing, moves no motor, polls no sensor and returns before the final
    [delay(10)] of [loop]. *)
Theorem scan_step_refused_outside_scan (s : state) :
  scanning s = false \/ step_by_step_mode s = false ->
  loop (Some "SCAN_STEP") s =
  Some (tt, s, [SerialPrintln (TStr "ERROR: Not in step-by-step scan mode!")]).
Proof.
  intros H. rewrite (loop_dispatch _ "SCAN_STEP") by reflexivity.
  assert (E : negb (scanning s) || negb (step_by_step_mode s) = true)
    by (destruct H as [-> | ->]; [reflexivity | apply orb_true_r]).
  etransitivity.
  { run_bind ltac:(apply dispatch_SCAN_STEP_refused; exact E). reflexivity. }
  reflexivity.
Qed.

Lemma dispatch_ROTATE_run (rest : string) (s : state) (c : Z) :
  let n := WString.toInt16 rest in
  0 < n ->
  CInt.rem (CInt.add (current_theta_step s) n) (theta_steps_per_rev s) =
    Some c ->
  dispatch ("ROTATE," ++ rest) s =
    Some (FallThrough, set_current_theta_step c s,
          DigitalWrite X_DIR_PIN LOW :: pulses X_STEP_PIN (Z.to_nat n) ++
          [SerialPrint (TStr "ROTATED:"); SerialPrintln (TInt n)]).
Proof.
  intros n Hn Hd.
  rewrite dispatch_ROTATE. fold n.
  replace (0 <? n) with true by (symmetry; apply Z.ltb_lt; exact Hn).
  etransitivity.
  { run_bind idtac.
    { run_bind idtac. run_bind ltac:(apply rotateMotorX_run).
      run_bind idtac. run_bind idtac. rewrite Hd.
      run_bind idtac. run_bind idtac. run_bind idtac. reflexivity. }
    reflexivity. }
  repeat first [ rewrite <- app_assoc | progress cbn [app] ].
  rewrite ?app_nil_r. reflexivity.
Qed.

(** X2. ROTATE,n with a positive count, [theta_steps_per_rev] not being
    0: the pass sets the X direction LOW, issues [n] pulses on motor X,
    prints ROTATED:n and stores in [current_theta_step] the C remainder by
    [theta_steps_per_rev] of the sixteen-bit sum [current_theta_step + n].
    For a positive [theta_steps_per_rev] the stored value lies strictly
    between [- theta_steps_per_rev] and [theta_steps_per_rev]; when the old
    position is not negative and the sum does not exceed 32767, it is
    [(current_theta_step + n) mod theta_steps_per_rev] and lies in
    [0, theta_steps_per_rev). *)
Theorem rotate_forward_keeps_range (rest : string) (s : state) :
  let n := WString.toInt16 rest in
  let theta := theta_steps_per_rev s in
  let cur := current_theta_step s in
  let next := Z.rem (CInt.add cur n) theta in
  0 < n -> theta <> 0 ->
  dispatch ("ROTATE," ++ rest) s =
    Some (FallThrough, set_current_theta_step next s,
          DigitalWrite X_DIR_PIN LOW :: pulses X_STEP_PIN (Z.to_nat n) ++
          [SerialPrint (TStr "ROTATED:"); SerialPrintln (TInt n)]) /\
  (0 < theta -> - theta < next < theta) /\
  (0 < theta -> 0 <= cur -> cur + n <= CInt.INT_MAX ->
   next = (cur + n) mod theta /\ 0 <= next < theta).
Proof.
  intros n theta cur next Hn Ht. split; [|split].
  - apply dispatch_ROTATE_run; [exact Hn|]. fold n theta cur.
    now rewrite rem_defined.
  - intros Hp. apply rem_range. exact Hp.
  - intros Hp Hc Hmax.
    assert (E : next = (cur + n) mod theta).
    { unfold next. rewrite add_small
        by (unfold CInt.in_int, CInt.INT_MIN, CInt.INT_MAX in *; lia).
      apply Z.rem_mod_nonneg; lia. }
    split; [exact E|]. rewrite E. apply Z.mod_pos_bound. exact Hp.
Qed.

Ltac norm_trace :=
  repeat first [ rewrite <- app_assoc | progress cbn [app] ];
  rewrite ?app_nil_r.

Lemma set_current_theta_step_same s c :
  current_theta_step s = c ->
  forall c', set_current_theta_step c (set_current_theta_step c' s) = s.
Proof. intros <- c'. now destruct s. Qed.

(** X3. ROTATE,n followed by ROTATE_CCW,n, for a count [n] of at most
    [theta_steps_per_rev] and a position in [0, theta_steps_per_rev):
    motor X makes [n] pulses with its direction pin LOW, then [n] pulses
    with the pin HIGH, and [current_theta_step], with the rest of the state,
    is what it was. *)
Theorem rotate_there_and_back (rest : string) (s : state) :
  let n := WString.toInt16 rest in
  let theta := theta_steps_per_rev s in
  let cur := current_theta_step s in
  0 < n <= theta -> theta <= MAX_THETA_STEPS_PER_REV -> 0 <= cur < theta ->
  (dispatch ("ROTATE," ++ rest) ;; dispatch ("ROTATE_CCW," ++ rest)) s =
    Some (FallThrough, s,
          DigitalWrite X_DIR_PIN LOW :: pulses X_STEP_PIN (Z.to_nat n) ++
          [SerialPrint (TStr "ROTATED:"); SerialPrintln (TInt n)] ++
          DigitalWrite X_DIR_PIN HIGH :: pulses X_STEP_PIN (Z.to_nat n) ++
          [SerialPrint (TStr "ROTATED:"); SerialPrint (TInt (- n));
           SerialNewline]).
Proof.
  intros n theta cur Hn Ht Hc. unfold MAX_THETA_STEPS_PER_REV in Ht.
  set (c1 := (cur + n) mod theta).
  assert (Hr : 0 <= c1 < theta) by (apply Z.mod_pos_bound; lia).
  assert (Hfwd : dispatch ("ROTATE," ++ rest) s =
                 Some (FallThrough, set_current_theta_step c1 s,
                       DigitalWrite X_DIR_PIN LOW ::
                       pulses X_STEP_PIN (Z.to_nat n) ++
                       [SerialPrint (TStr "ROTATED:"); SerialPrintln (TInt n)])).
  { apply dispatch_ROTATE_run; [lia|]. fold n theta cur.
    rewrite add_small
      by (unfold CInt.in_int, CInt.INT_MIN, CInt.INT_MAX in *; lia).
    rewrite rem_defined by lia. f_equal. apply Z.rem_mod_nonneg; lia. }
  assert (Hback : CInt.rem (CInt.add (CInt.sub c1 n) theta) theta = Some cur).
  { rewrite sub_small by (unfold CInt.in_int, CInt.INT_MIN, CInt.INT_MAX; lia).
    rewrite add_small by (unfold CInt.in_int, CInt.INT_MIN, CInt.INT_MAX; lia).
    rewrite rem_defined by lia. f_equal.
    rewrite Z.rem_mod_nonneg by lia.
    replace (c1 - n + theta) with (c1 + (theta - n)) by lia.
    unfold c1. rewrite Zplus_mod_idemp_l.
    replace (cur + n + (theta - n)) with (cur + 1 * theta) by lia.
    rewrite Z.mod_add by lia. apply Z.mod_small. lia. }
  etransitivity.
  { run_bind ltac:(exact Hfwd).
    rewrite dispatch_ROTATE_CCW. fold n.
    replace (0 <? n) with true by (symmetry; apply Z.ltb_lt; lia).
    run_bind idtac.
    { run_bind idtac. run_bind ltac:(apply rotateMotorX_run).
      run_bind idtac. run_bind idtac.
      cbn [current_theta_step theta_steps_per_rev set_current_theta_step].
      fold theta. rewrite Hback.
      run_bind idtac. run_bind idtac. run_bind idtac. run_bind idtac.
      reflexivity. }
    reflexivity. }
  rewrite set_current_theta_step_same by reflexivity.
  unfold CInt.neg. rewrite wrap_id
    by (unfold CInt.in_int, CInt.INT_MIN, CInt.INT_MAX; lia).
  norm_trace. reflexivity.
Qed.

Lemma z_run_prints a (t : trace) :
  Forall (fun e => match e with DigitalWrite _ _ => False | _ => True end) t ->
  z_run a t = a.
Proof.
  induction 1 as [|e t He _ IH]; [reflexivity|].
  rewrite z_run_cons. destruct e; try contradiction; exact IH.
Qed.

(** X4. ROTATE_Z,n and ROTATE_Z_CCW,n with a positive count: the state is
    unchanged; the first issues [n] pulses on motor Z with its direction pin
    LOW and moves the carriage up by [n] steps, the second issues [n]
    pulses with the pin HIGH, moves it down by [n] steps and leaves the pin
    HIGH; one after the other they bring the carriage back.  The count is
    not compared with the configured travel. *)
Theorem rotate_z_moves_carriage (rest : string) (s : state) (a : zaxis) :
  let n := WString.toInt16 rest in
  let up :=
    DigitalWrite Z_DIR_PIN LOW :: pulses Z_STEP_PIN (Z.to_nat n) ++
    [SerialPrint (TStr "ROTATED_Z:"); SerialPrintln (TInt n)] in
  let down :=
    DigitalWrite Z_DIR_PIN HIGH :: pulses Z_STEP_PIN (Z.to_nat n) ++
    [SerialPrint (TStr "ROTATED_Z:"); SerialPrint (TInt (CInt.neg n));
     SerialNewline] in
  0 < n ->
  dispatch ("ROTATE_Z," ++ rest) s = Some (FallThrough, s, up) /\
  dispatch ("ROTATE_Z_CCW," ++ rest) s = Some (FallThrough, s, down) /\
  z_pos (z_run a up) = z_pos a + n /\
  z_pos (z_run a down) = z_pos a - n /\
  z_dir (z_run a down) = HIGH /\
  z_pos (z_run a (up ++ down)) = z_pos a.
Proof.
  intros n up down Hn.
  assert (Hpos : (0 <? n) = true) by (apply Z.ltb_lt; exact Hn).
  assert (Hup : forall b, z_run b up =
                          z_after (mkZaxis LOW (z_step b) (z_pos b)) (Z.to_nat n)).
  { intros b. unfold up. rewrite z_run_cons, z_event_dir, z_run_app, z_run_pulses.
    apply z_run_prints. repeat constructor. }
  assert (Hdown : forall b, z_run b down =
                            z_after (mkZaxis HIGH (z_step b) (z_pos b)) (Z.to_nat n)).
  { intros b. unfold down. rewrite z_run_cons, z_event_dir, z_run_app, z_run_pulses.
    apply z_run_prints. repeat constructor. }
  repeat split.
  - rewrite dispatch_ROTATE_Z. fold n. rewrite Hpos. etransitivity.
    { run_bind idtac.
      { run_bind idtac. run_bind ltac:(apply rotateMotorZ_run).
        run_bind idtac. reflexivity. }
      reflexivity. }
    unfold up. norm_trace. reflexivity.
  - rewrite dispatch_ROTATE_Z_CCW. fold n. rewrite Hpos. etransitivity.
    { run_bind idtac.
      { run_bind idtac. run_bind ltac:(apply rotateMotorZ_run).
        run_bind idtac. run_bind idtac. reflexivity. }
      reflexivity. }
    unfold down. norm_trace. reflexivity.
  - rewrite Hup, z_pos_after. cbn [z_dir z_pos]. lia.
  - rewrite Hdown, z_pos_after. cbn [z_dir z_pos]. lia.
  - rewrite Hdown, z_dir_after. reflexivity.
  - rewrite z_run_app, Hdown, z_pos_after. cbn [z_dir z_pos].
    rewrite Hup, z_pos_after. cbn [z_dir z_pos]. lia.
Qed.

(** X5. A count that is not positive (zero, negative, no number at all, or
    a number whose low sixteen bits read as a negative [int]): ROTATE and
    ROTATE_Z print an error line that repeats the argument; ROTATE_CCW and
    ROTATE_Z_CCW print nothing.  None of the four moves a motor or changes
    the state. *)
Theorem rotate_rejects_nonpositive_count (rest : string) (s : state) :
  WString.toInt16 rest <= 0 ->
  dispatch ("ROTATE," ++ rest) s =
    Some (FallThrough, s,
          [SerialPrint (TStr "ROTATE_ERROR: Invalid steps: ");
           SerialPrintln (TStr rest)]) /\
  dispatch ("ROTATE_Z," ++ rest) s =
    Some (FallThrough, s,
          [SerialPrint (TStr "ROTATE_Z_ERROR: Invalid steps: ");
           SerialPrintln (TStr rest)]) /\
  dispatch ("ROTATE_CCW," ++ rest) s = Some (FallThrough, s, []) /\
  dispatch ("ROTATE_Z_CCW," ++ rest) s = Some (FallThrough, s, []).
Proof.
  intros Hn.
  assert (Hneg : (0 <? WString.toInt16 rest) = false)
    by (apply Z.ltb_ge; exact Hn).
  rewrite dispatch_ROTATE, dispatch_ROTATE_Z, dispatch_ROTATE_CCW,
    dispatch_ROTATE_Z_CCW, Hneg.
  repeat split.
Qed.

(** X6. The measurement commands TEST, READ_LIDAR and TEST_POINT each
    call the read routine of the sketch exactly once, move no motor and
    change nothing but the poll count.  The pass consists of the events of
    that call (the poll and, in the TF-Luna sketch, the pauses of
    [readTF_Luna]), of the prints and of the final [delay(10)]; each
    command prints the distance the routine returns with two decimals,
    TEST_POINT after the angle of [current_theta_step] with one
    decimal. *)
Theorem measurement_commands (s : state) :
  let d := distance_of (sensor (polls s)) in
  let s' := set_polls (S (polls s)) s in
  let theta := theta_steps_per_rev s in
  theta <> 0 ->
  loop (Some "TEST") s =
    Some (tt, s',
          poll_events (sensor (polls s)) ++
          [SerialPrint (TStr "Distance: ");
           SerialPrintln (TFloat d 2); DelayMs 10]) /\
  loop (Some "READ_LIDAR") s =
    Some (tt, s',
          poll_events (sensor (polls s)) ++
          [SerialPrint (TStr "LIDAR_DISTANCE:");
           SerialPrintln (TFloat d 2); DelayMs 10]) /\
  loop (Some "TEST_POINT") s =
    Some (tt, s',
          poll_events (sensor (polls s)) ++
          [SerialPrint (TStr "TEST_POINT:");
           SerialPrint (TFloat (f_angle (Z.rem (current_theta_step s) theta)
                                  theta) 1);
           SerialPrint (TStr ","); SerialPrintln (TFloat d 2); DelayMs 10]) /\
  polled (poll_events (sensor (polls s))) = [sensor_of sk] /\
  pins_written (poll_events (sensor (polls s))) = [] /\
  serial_lines (poll_events (sensor (polls s))) = [].
Proof.
  intros d s' theta Ht. repeat split.
  - rewrite (loop_dispatch _ "TEST") by reflexivity. eval_dispatch.
    etransitivity.
    { run_bind idtac.
      { run_bind ltac:(apply readDistance_run). reflexivity. }
      reflexivity. }
    cbn [app]. rewrite <- app_assoc. reflexivity.
  - rewrite (loop_dispatch _ "READ_LIDAR") by reflexivity. eval_dispatch.
    etransitivity.
    { run_bind idtac.
      { run_bind ltac:(apply readDistance_run). reflexivity. }
      reflexivity. }
    cbn [app]. rewrite <- app_assoc. reflexivity.
  - rewrite (loop_dispatch _ "TEST_POINT") by reflexivity. eval_dispatch.
    etransitivity.
    { run_bind idtac.
      { run_bind ltac:(apply readDistance_run).
        run_bind idtac. run_bind idtac.
        cbn [current_theta_step theta_steps_per_rev set_polls].
        fold theta. rewrite (rem_defined _ _ Ht).
        run_bind idtac. reflexivity. }
      reflexivity. }
    cbn [app]. rewrite <- app_assoc. reflexivity.
  - apply polled_poll.
  - unfold poll_events, pins_written. cbn [flat_map app].
    destruct sk; [|reflexivity].
    unfold tf_waiting. rewrite flat_map_app.
    rewrite !pins_written_repeat_delay. reflexivity.
  - unfold serial_lines.
    rewrite <- (app_nil_r (poll_events _)), lines_poll. reflexivity.
Qed.

Lemma dispatch_GET_CONFIG_run s :
  dispatch "GET_CONFIG" s =
  Some (FallThrough, s,
        [SerialPrint (TStr "CURRENT_CONFIG:");
         SerialPrint (TInt (theta_steps_per_rev s)); SerialPrint (TStr ",");
         SerialPrint (TInt (z_travel_mm s)); SerialPrint (TStr ",");
         SerialPrint (TInt (z_steps_per_mm s)); SerialPrint (TStr ",");
         SerialPrint (TInt (z_steps_per_layer s)); SerialPrint (TStr ",");
         SerialPrint (TInt (scan_delay_ms s)); SerialPrint (TStr ",");
         SerialPrint (TFloat (center_distance_cm s) 1); SerialPrint (TStr ",");
         SerialPrintln (TInt (steps_per_rev s))]).
Proof. eval_dispatch. reflexivity. Qed.

(** X7. CONFIG then GET_CONFIG: after a CONFIG command that is accepted,
    GET_CONFIG prints one line, CURRENT_CONFIG: followed by the seven
    values just parsed, in the order of the CONFIG command (theta, Z
    travel, Z steps per mm, Z steps per layer, delay, centre distance with
    one decimal, steps per revolution), and changes nothing. *)
Theorem config_then_get_config (rest : string) (s : state) :
  let command := ("CONFIG," ++ rest)%string in
  let iv := fst (fst (parse_config command)) in
  let c := snd (fst (parse_config command)) in
  let spr := snd (parse_config command) in
  let v (i : nat) := nth i iv 0 in
  config_accepted iv c spr = true ->
  exists s' t1 t2,
    dispatch command s = Some (FallThrough, s', t1) /\
    dispatch "GET_CONFIG" s' = Some (FallThrough, s', t2) /\
    serial_lines t2 =
      [[TStr "CURRENT_CONFIG:"; TInt (v 0%nat); TStr ","; TInt (v 1%nat);
        TStr ","; TInt (v 2%nat); TStr ","; TInt (v 3%nat); TStr ",";
        TInt (v 4%nat); TStr ","; TFloat c 1; TStr ","; TInt spr]].
Proof.
  intros command iv c spr v Hok.
  pose proof (processConfigCommand_run command s) as H.
  subst v iv c spr.
  destruct (parse_config command) as [[iv c] spr]. cbn [fst snd] in *.
  cbv zeta in H. rewrite Hok in H. destruct H as (t & Hrun & _).
  eexists. exists t. eexists. split; [|split].
  - unfold command. rewrite dispatch_CONFIG. fold command.
    erewrite bind_some; [| exact Hrun | reflexivity].
    now rewrite app_nil_r.
  - apply dispatch_GET_CONFIG_run.
  - reflexivity.
Qed.

Lemma serial_lines_point t1 t2 l :
  lines_from [] t1 = ([l], []) ->
  serial_lines (t1 ++ t2) = l :: serial_lines t2.
Proof.
  intros H. unfold serial_lines. rewrite lines_from_app, H.
  now destruct (lines_from [] t2).
Qed.

Lemma scan_steps_run (n : nat) (s : state) :
  wf s -> scanning s = true -> step_by_step_mode s = true ->
  0 <= scan_current_step s ->
  scan_current_step s + Z.of_nat n <= theta_steps_per_rev s ->
  exists t,
    session (repeat "SCAN_STEP" n) s =
      Some (tt,
            set_polls (n + polls s)
              (set_current_theta_step
                 (turned (theta_steps_per_rev s) (current_theta_step s) n)
                 (set_scan_current_step (scan_current_step s + Z.of_nat n) s)),
            t) /\
    lines_from [] t =
      (map (fun k =>
             point_line (scan_current_layer s)
               (scan_current_step s + Z.of_nat k)
               (distance_of (sensor (polls s + k)))
               (f_angle (Z.rem (scan_current_step s + Z.of_nat k + 1)
                           (theta_steps_per_rev s))
                  (theta_steps_per_rev s)))
        (seq 0 n), []) /\
    writes_on X_STEP_PIN t = List.concat (repeat [LOW; HIGH] n) /\
    writes_on Z_STEP_PIN t = [] /\
    writes_on Z_DIR_PIN t = [] /\
    polled t = repeat (sensor_of sk) n.
Proof.
  revert s. induction n as [|n IH]; intros s W Hs Hm H0 Hle.
  - exists []. repeat split. cbn [repeat session ret Nat.add turned Nat.iter].
    rewrite Z.add_0_r. now destruct s.
  - pose proof (performScanStep_point s W ltac:(lia)) as Hp.
    pose proof (loop_SCAN_STEP s _ Hs Hm Hp) as Hl. cbn [fst snd] in Hl.
    set (s1 := set_polls (S (polls s))
                 (set_current_theta_step
                    (Z.rem (current_theta_step s + 1) (theta_steps_per_rev s))
                    (set_scan_current_step (scan_current_step s + 1) s))) in *.
    assert (W1 : wf s1).
    { pose proof (rem_range (current_theta_step s + 1) (theta_steps_per_rev s)).
      destruct W. constructor; cbn; try assumption; unfold_bounds; lia. }
    destruct (IH s1 W1 Hs Hm) as (t2 & Hrun & Hlines & Hx & Hz & Hzd & Hpoll);
      [cbn; lia | cbn; lia |].
    eexists. split; [|split; [|split; [|split; [|split]]]].
    + cbn [repeat session]. erewrite bind_some; [| exact Hl | exact Hrun].
      f_equal. f_equal. f_equal.
      cbn [s1 polls set_polls current_theta_step set_current_theta_step
             theta_steps_per_rev scan_current_step set_scan_current_step].
      unfold turned. rewrite Nat.iter_succ_r.
      rewrite (add_small (current_theta_step s) 1)
        by (destruct W; unfold_bounds; lia).
      replace (n + S (polls s))%nat with (S n + polls s)%nat by lia.
      replace (scan_current_step s + 1 + Z.of_nat n)
        with (scan_current_step s + Z.of_nat (S n)) by lia.
      now destruct s.
    + rewrite lines_from_app, step_point_lines.
      cbv beta iota. rewrite Hlines.
      cbn [seq map app]. rewrite <- seq_shift, map_map.
      rewrite Z.add_0_r, Nat.add_0_r. f_equal. f_equal.
      apply map_ext. intros k.
      cbn [s1 polls set_polls scan_current_layer scan_current_step
             set_current_theta_step set_scan_current_step theta_steps_per_rev].
      replace (scan_current_step s + 1 + Z.of_nat k)
        with (scan_current_step s + Z.of_nat (S k)) by lia.
      replace (S (polls s) + k)%nat with (polls s + S k)%nat by lia.
      reflexivity.
    + rewrite writes_on_app, step_point_writes, Hx. reflexivity.
    + rewrite writes_on_app, step_point_writes, Hz. reflexivity.
    + rewrite writes_on_app, step_point_writes, Hzd. reflexivity.
    + rewrite polled_app, step_point_polled, Hpoll. reflexivity.
Qed.

(** X8. Consecutive SCAN_STEP commands within a layer: [n] commands
    received while [scan_current_step + n <= theta_steps_per_rev] print the
    [n] point lines of the steps [scan_current_step ..
    scan_current_step + n - 1] of the current layer, each with the answer
    of its own sensor poll and the angle of the step after it; motor X
    makes exactly one step per point, whatever [steps_per_rev] is, and
    motor Z does not move. *)
Theorem scan_steps_within_layer (n : nat) (s : state) :
  wf s -> scanning s = true -> step_by_step_mode s = true ->
  0 <= scan_current_step s ->
  scan_current_step s + Z.of_nat n <= theta_steps_per_rev s ->
  exists t,
    session (repeat "SCAN_STEP" n) s =
      Some (tt,
            set_polls (n + polls s)
              (set_current_theta_step
                 (turned (theta_steps_per_rev s) (current_theta_step s) n)
                 (set_scan_current_step (scan_current_step s + Z.of_nat n) s)),
            t) /\
    serial_lines t =
      map (fun k =>
             point_line (scan_current_layer s)
               (scan_current_step s + Z.of_nat k)
               (distance_of (sensor (polls s + k)))
               (f_angle (Z.rem (scan_current_step s + Z.of_nat k + 1)
                           (theta_steps_per_rev s))
                  (theta_steps_per_rev s)))
        (seq 0 n) /\
    writes_on X_STEP_PIN t = List.concat (repeat [LOW; HIGH] n) /\
    writes_on Z_STEP_PIN t = [] /\
    polled t = repeat (sensor_of sk) n.
Proof.
  intros W Hs Hm H0 Hle.
  destruct (scan_steps_run n s W Hs Hm H0 Hle)
    as (t & Hrun & Hlines & Hx & Hz & _ & Hpoll).
  exists t. unfold serial_lines. rewrite Hlines. repeat split; assumption.
Qed.

(** ** What a resumed scan moves *)

Lemma concat_repeat_add {A} (x : list A) a b :
  List.concat (repeat x a) ++ List.concat (repeat x b) =
  List.concat (repeat x (a + b)).
Proof. now rewrite repeat_app, concat_app. Qed.

Lemma writes_on_delays pin d : writes_on pin (delays d) = [].
Proof.
  unfold delays. induction (Z.to_nat ((d + 9) / 10)) as [|n IH]; [reflexivity|].
  exact IH.
Qed.

Lemma writes_on_flat_map_nil {A} pin (g : A -> trace) l :
  (forall k, writes_on pin (g k) = []) -> writes_on pin (flat_map g l) = [].
Proof.
  intros Hg. induction l as [|k l IH]; [reflexivity|].
  cbn [flat_map]. now rewrite writes_on_app, Hg, IH.
Qed.

Lemma writes_on_flat_map_pulses {A} pin (g : A -> trace) (c : A -> nat) l :
  (forall k, writes_on pin (g k) = List.concat (repeat [LOW; HIGH] (c k))) ->
  writes_on pin (flat_map g l) =
  List.concat (repeat [LOW; HIGH] (list_sum (map c l))).
Proof.
  intros Hg. induction l as [|k l IH]; [reflexivity|].
  cbn [flat_map map list_sum]. rewrite writes_on_app, Hg, IH.
  apply concat_repeat_add.
Qed.

Lemma polled_flat_map {A} (g : A -> trace) x m l :
  (forall k, polled (g k) = repeat x m) ->
  polled (flat_map g l) = repeat x (List.length l * m).
Proof.
  intros Hg. induction l as [|k l IH]; [reflexivity|].
  cbn [flat_map List.length Nat.mul]. now rewrite polled_app, Hg, IH, repeat_app.
Qed.

Lemma polled_pulses pin n : polled (pulses pin n) = [].
Proof.
  induction n as [|n IH]; [reflexivity|]. rewrite pulses_S, polled_app, IH.
  reflexivity.
Qed.

Lemma polled_delays d : polled (delays d) = [].
Proof.
  unfold delays. induction (Z.to_nat ((d + 9) / 10)) as [|n IH]; [reflexivity|].
  exact IH.
Qed.

Lemma polled_lift k n : polled (lift_events k n) = [].
Proof.
  unfold lift_events. induction n as [|n IH]; [reflexivity|].
  cbn [repeat List.concat]. now rewrite !polled_app, polled_pulses, IH.
Qed.

(** The motor steps of the points of one revolution add up to the steps of
    a revolution. *)
Lemma steps_of_revolution (spr theta : Z) :
  2 <= theta -> theta <= spr <= CInt.INT_MAX ->
  list_sum
    (map (fun k : nat =>
            Z.to_nat (if Z.of_nat k <? Z.rem spr theta
                      then CInt.add (CInt.wrap (Z.quot spr theta)) 1
                      else CInt.wrap (Z.quot spr theta)))
       (seq 0 (Z.to_nat theta))) = Z.to_nat spr.
Proof.
  intros Ht Hs. unfold CInt.INT_MAX in Hs.
  pose proof (Z.quot_rem' spr theta) as E.
  pose proof (Z.rem_bound_pos spr theta ltac:(lia) ltac:(lia)) as Hr.
  pose proof (Z.quot_pos spr theta ltac:(lia) ltac:(lia)) as Hq.
  assert (Hq' : 2 * Z.quot spr theta <= spr) by nia.
  rewrite (quot_small spr theta) by (unfold CInt.INT_MAX; lia).
  rewrite add_small by (unfold CInt.in_int, CInt.INT_MIN, CInt.INT_MAX; lia).
  set (q := Z.quot spr theta) in *. set (r := Z.rem spr theta) in *.
  assert (G : forall m : nat,
             list_sum
               (map (fun k : nat => Z.to_nat (if Z.of_nat k <? r then q + 1 else q))
                  (seq 0 m)) =
             (m * Z.to_nat q + Nat.min m (Z.to_nat r))%nat).
  { induction m as [|m IH]; [reflexivity|].
    rewrite seq_S, map_app, list_sum_app, IH.
    cbn [Nat.add map]. unfold list_sum at 1. cbn [fold_right].
    rewrite Nat.mul_succ_l. generalize (m * Z.to_nat q)%nat. intros mq.
    destruct (Z.ltb_spec (Z.of_nat m) r); lia. }
  rewrite G. nia.
Qed.

Lemma writes_on_x_point s spp rm layer step p :
  writes_on X_STEP_PIN (resume_point_events s spp rm layer step p) =
  List.concat
    (repeat [LOW; HIGH]
       (Z.to_nat (if step <? rm then CInt.add spp 1 else spp))).
Proof.
  unfold resume_point_events.
  rewrite !writes_on_app, writes_on_pulses, writes_on_delays.
  cbn [writes_on app]. rewrite writes_on_poll.
  cbn [writes_on app point_events]. now rewrite app_nil_r.
Qed.

Lemma writes_on_x_layer_change s :
  writes_on X_STEP_PIN (layer_change_events s) = [].
Proof.
  unfold layer_change_events. cbn [writes_on]. rewrite writes_on_app.
  rewrite writes_on_pulses_other by discriminate.
  cbn [writes_on app]. rewrite writes_on_app, writes_on_delays. reflexivity.
Qed.

Lemma writes_on_x_resume_layer s zL p0 l :
  wf s ->
  writes_on X_STEP_PIN
    (resume_layer_events s
       (CInt.wrap (Z.quot (steps_per_rev s) (theta_steps_per_rev s)))
       (Z.rem (steps_per_rev s) (theta_steps_per_rev s)) zL p0 l) =
  List.concat (repeat [LOW; HIGH] (Z.to_nat (steps_per_rev s))).
Proof.
  intros W. unfold resume_layer_events. cbv zeta.
  rewrite writes_on_app.
  erewrite writes_on_flat_map_pulses by (intros k; apply writes_on_x_point).
  rewrite steps_of_revolution by (destruct W; unfold_bounds; lia).
  destruct (Z.of_nat l <? zL - 1);
    [rewrite writes_on_x_layer_change|]; apply app_nil_r.
Qed.

Lemma list_sum_const {A} (l : list A) n :
  list_sum (map (fun _ => n) l) = (List.length l * n)%nat.
Proof.
  unfold list_sum. induction l as [|x l IH]; [reflexivity|].
  cbn [map fold_right List.length Nat.mul]. now rewrite IH.
Qed.

Lemma writes_on_x_resume_scan s :
  wf s ->
  writes_on X_STEP_PIN (resume_scan_events s) =
  List.concat
    (repeat [LOW; HIGH]
       (Z.to_nat (total_layers s) * Z.to_nat (steps_per_rev s))).
Proof.
  intros W. unfold resume_scan_events. cbv zeta.
  erewrite writes_on_flat_map_pulses
    by (intros l; apply writes_on_x_resume_layer; exact W).
  now rewrite list_sum_const, length_seq.
Qed.

Lemma writes_on_xdir_resume_scan s :
  writes_on X_DIR_PIN (resume_scan_events s) = [].
Proof.
  unfold resume_scan_events. cbv zeta.
  apply writes_on_flat_map_nil. intros l.
  unfold resume_layer_events. cbv zeta. rewrite writes_on_app.
  rewrite writes_on_flat_map_nil.
  - destruct (Z.of_nat l <? total_layers s - 1); [|reflexivity].
    unfold layer_change_events. cbn [writes_on app]. rewrite writes_on_app.
    rewrite writes_on_pulses_other by discriminate.
    cbn [writes_on app]. rewrite writes_on_app, writes_on_delays. reflexivity.
  - intros k. unfold resume_point_events.
    rewrite !writes_on_app, writes_on_delays, writes_on_point_tail.
    rewrite writes_on_pulses_other by discriminate. reflexivity.
Qed.

Lemma polled_layer_change s : polled (layer_change_events s) = [].
Proof.
  unfold layer_change_events. cbn [polled]. rewrite polled_app, polled_pulses.
  cbn [polled app]. rewrite polled_app, polled_delays. reflexivity.
Qed.

Lemma polled_resume_scan s :
  polled (resume_scan_events s) =
  repeat (sensor_of sk)
    (Z.to_nat (total_layers s) * Z.to_nat (theta_steps_per_rev s)).
Proof.
  unfold resume_scan_events. cbv zeta.
  erewrite polled_flat_map; [now rewrite length_seq|].
  intros l. unfold resume_layer_events. cbv zeta. rewrite polled_app.
  rewrite (polled_flat_map _ (sensor_of sk) 1).
  - rewrite length_seq, Nat.mul_1_r.
    destruct (Z.of_nat l <? total_layers s - 1);
      [rewrite polled_layer_change|]; apply app_nil_r.
  - intros k. unfold resume_point_events.
    rewrite !polled_app, polled_pulses, polled_delays, polled_point_tail.
    reflexivity.
Qed.

Lemma z_run_no_z_write a t :
  writes_on Z_DIR_PIN t = [] -> writes_on Z_STEP_PIN t = [] -> z_run a t = a.
Proof.
  induction t as [|e t IH]; [reflexivity|].
  rewrite z_run_cons. destruct e; cbn [writes_on z_event]; try exact IH.
  destruct (pin =? Z_DIR_PIN); [discriminate|].
  destruct (pin =? Z_STEP_PIN); [discriminate|]. exact IH.
Qed.

Lemma z_run_resume_point a s spp rm layer step p :
  z_run a (resume_point_events s spp rm layer step p) = a.
Proof.
  apply z_run_no_z_write; unfold resume_point_events;
    rewrite !writes_on_app, writes_on_delays, writes_on_point_tail;
    rewrite writes_on_pulses_other by discriminate; reflexivity.
Qed.

Lemma z_run_flat_map_id {A} a (g : A -> trace) l :
  (forall b k, z_run b (g k) = b) -> z_run a (flat_map g l) = a.
Proof.
  intros Hg. induction l as [|k l IH]; [reflexivity|].
  cbn [flat_map]. now rewrite z_run_app, Hg.
Qed.

Lemma z_run_layer_change a s :
  z_dir (z_run a (layer_change_events s)) = LOW /\
  z_pos (z_run a (layer_change_events s)) =
    z_pos a - Z.of_nat (Z.to_nat (z_steps_per_layer s)).
Proof.
  unfold layer_change_events.
  rewrite z_run_cons, z_event_dir, z_run_app, z_run_pulses.
  rewrite z_run_cons, z_event_dir.
  rewrite z_run_no_z_write
    by (rewrite writes_on_app, writes_on_delays; reflexivity).
  cbn [z_dir z_pos]. rewrite z_pos_after. cbn [z_dir z_pos]. now split.
Qed.

Lemma z_run_resume_layer a s spp rm zL p0 l :
  z_run a (resume_layer_events s spp rm zL p0 l) =
  if Z.of_nat l <? zL - 1 then z_run a (layer_change_events s) else a.
Proof.
  unfold resume_layer_events. cbv zeta. rewrite z_run_app.
  rewrite z_run_flat_map_id by (intros; apply z_run_resume_point).
  now destruct (Z.of_nat l <? zL - 1).
Qed.

Lemma z_run_resume_layers s spp rm zL p0 (n : nat) :
  forall (i : nat) a,
    Z.of_nat i + Z.of_nat n = zL -> z_dir a = LOW ->
    let a' := z_run a (flat_map (resume_layer_events s spp rm zL p0) (seq i n)) in
    z_dir a' = LOW /\
    z_pos a' =
      z_pos a - Z.of_nat ((n - 1) * Z.to_nat (z_steps_per_layer s)).
Proof.
  induction n as [|n IH]; intros i a Hi Ha; cbv zeta.
  - cbn [seq flat_map z_run fold_left Nat.sub Nat.mul]. split; [exact Ha | lia].
  - cbn [seq flat_map]. rewrite z_run_app, z_run_resume_layer.
    destruct (Z.ltb_spec (Z.of_nat i) (zL - 1)) as [Hlt|Hge].
    + destruct (z_run_layer_change a s) as [Hd Hp].
      destruct (IH (S i) (z_run a (layer_change_events s)) ltac:(lia) Hd)
        as [Hd' Hp'].
      split; [exact Hd'|]. rewrite Hp', Hp.
      destruct n as [|n]; [lia|].
      replace (S (S n) - 1)%nat with (S (S n - 1)) by lia.
      rewrite Nat.mul_succ_l. lia.
    + assert (n = 0%nat) by lia. subst n.
      cbn [seq flat_map z_run fold_left Nat.sub Nat.mul]. split; [exact Ha | lia].
Qed.

Lemma z_run_skip a e t :
  match e with DigitalWrite _ _ => False | _ => True end ->
  z_run a (e :: t) = z_run a t.
Proof. intros H. rewrite z_run_cons. now destruct e. Qed.

Lemma z_run_resume_scan a s :
  z_dir a = LOW ->
  z_dir (z_run a (resume_scan_events s)) = LOW /\
  z_pos (z_run a (resume_scan_events s)) =
    z_pos a - Z.of_nat ((Z.to_nat (total_layers s) - 1) *
                        Z.to_nat (z_steps_per_layer s)).
Proof.
  intros Ha. unfold resume_scan_events. cbv zeta.
  destruct (Z.le_gt_cases 0 (total_layers s)) as [Hn|Hn].
  - apply (z_run_resume_layers s _ _ (total_layers s) (polls s)
             (Z.to_nat (total_layers s)) 0%nat a); [lia | exact Ha].
  - replace (Z.to_nat (total_layers s)) with 0%nat by lia.
    cbn [seq flat_map z_run fold_left Nat.sub Nat.mul]. split; [exact Ha | lia].
Qed.

Lemma writes_on_lift_other pin k n :
  pin <> Z_STEP_PIN -> writes_on pin (lift_events k n) = [].
Proof.
  intros Hp. unfold lift_events. induction n as [|n IH]; [reflexivity|].
  cbn [repeat List.concat]. rewrite !writes_on_app, IH.
  rewrite writes_on_pulses_other by congruence. reflexivity.
Qed.

(** X9. What a resumed scan moves: RESUME on a paused state with a valid
    configuration and pause position layer 0, step 0 (every reachable
    paused state) turns motor X by exactly [steps_per_rev] steps per layer,
    [zLayers * steps_per_rev] pulses in all, without ever writing the X
    direction pin; it polls the sensor once per point,
    [zLayers * theta_steps_per_rev] times; and it raises the carriage by
    [zLayers] layers, lowers it by one layer after each layer but the last
    and lowers it by [zLayers] layers again at the end, so that the
    carriage ends [zLayers - 1] layers below where it started. *)
Theorem resume_motion_totals (s : state) (a : zaxis) :
  wf s -> paused s = true -> paused_layer s = 0 -> paused_step s = 0 ->
  let theta := Z.to_nat (theta_steps_per_rev s) in
  let nL := Z.to_nat (total_layers s) in
  let k := Z.to_nat (z_steps_per_layer s) in
  exists s' t,
    loop (Some "RESUME") s = Some (tt, s', t) /\
    writes_on X_STEP_PIN t =
      List.concat (repeat [LOW; HIGH] (nL * Z.to_nat (steps_per_rev s))) /\
    writes_on X_DIR_PIN t = [] /\
    polled t = repeat (sensor_of sk) (nL * theta) /\
    z_pos (z_run a t) = z_pos a - Z.of_nat ((nL - 1) * k).
Proof.
  intros W Hp H0 H1 theta nL k.
  pose proof (loop_RESUME s W Hp H0 H1) as Hrun. cbv zeta in Hrun.
  fold theta nL k in Hrun.
  eexists. eexists. split; [exact Hrun|]. split; [|split; [|split]].
  - cbn [writes_on]. rewrite !writes_on_app. cbn [writes_on].
    rewrite !writes_on_app. cbn [writes_on].
    rewrite !writes_on_app.
    rewrite !writes_on_lift_other by discriminate.
    rewrite writes_on_x_resume_scan by exact W.
    cbn [writes_on app]. fold nL. now rewrite app_nil_r.
  - cbn [writes_on]. rewrite !writes_on_app. cbn [writes_on].
    rewrite !writes_on_app. cbn [writes_on].
    rewrite !writes_on_app.
    rewrite !writes_on_lift_other by discriminate.
    rewrite writes_on_xdir_resume_scan. reflexivity.
  - cbn [polled]. rewrite !polled_app. cbn [polled].
    rewrite !polled_app. cbn [polled]. rewrite !polled_app.
    rewrite !polled_lift, polled_resume_scan. cbn [polled app].
    fold nL theta. now rewrite app_nil_r.
  - rewrite !z_run_skip by exact I. rewrite z_run_cons, z_event_dir.
    rewrite z_run_app, z_run_lift, z_run_skip by exact I.
    rewrite z_run_app.
    set (a1 := z_after (mkZaxis LOW (z_step a) (z_pos a)) (nL * k)).
    destruct (z_run_resume_scan a1 s) as [Hd Hz];
      [unfold a1; now rewrite z_dir_after|].
    fold nL k in Hz.
    rewrite z_run_cons, z_event_dir, z_run_app, z_run_lift.
    rewrite z_run_cons, z_event_dir, !z_run_skip by exact I.
    cbn [z_run fold_left z_pos].
    rewrite z_pos_after. cbn [z_dir z_pos]. rewrite Hz.
    unfold a1. rewrite z_pos_after. cbn [z_dir z_pos]. lia.
Qed.

(** ** The scan flags and counters between commands *)

Lemma zLayers_of_le s : zLayers_of s <= CInt.INT_MAX.
Proof.
  unfold zLayers_of. cbv zeta.
  match goal with |- context [CInt.wrap ?x] => pose proof (wrap_in_int x) as H end.
  destruct (_ <=? 0); unfold CInt.in_int, CInt.INT_MAX in *; lia.
Qed.

Ltac keep_scan Sf Ss Sl :=
  unfold scan_invariant;
  cbn [scanning paused step_by_step_mode scan_current_step scan_current_layer
         set_scanning set_paused set_scan_direction_up
         set_current_theta_step set_paused_layer set_paused_step
         set_scan_current_layer set_scan_current_step
         set_step_by_step_mode set_polls set_config upd];
  split; [ first [ exact Sf
                 | let Hx := fresh in
                   intros Hx;
                   first [ discriminate Hx | solve [intuition congruence] ] ]
         | split; [ exact Ss | exact Sl ] ].

Ltac keep_both W H0 H1 Sf Ss Sl :=
  split; [ keep W H0 H1 | keep_scan Sf Ss Sl ].

Lemma dispatch_lands_scan c s :
  invariant s -> scan_invariant s ->
  lands (fun s' => invariant s' /\ scan_invariant s') (dispatch c) s.
Proof.
  intros (W & H0 & H1) (Sf & Ss & Sl).
  assert (Hz : z_steps_per_layer s <> 0) by (destruct W; lia).
  assert (Ht : theta_steps_per_rev s <> 0)
    by (destruct W; unfold_bounds; lia).
  assert (Htp : 0 < theta_steps_per_rev s)
    by (destruct W; unfold_bounds; lia).
  unfold dispatch.
  destruct ((c =? "START") || (c =? "START_UP"))%string.
  { eapply lands_run; [reflexivity|]. split.
    - split; [|split; reflexivity].
      destruct W; constructor; cbn; try assumption; unfold_bounds; lia.
    - unfold scan_invariant. cbn. unfold_bounds. repeat split; lia. }
  destruct (c =? "START_DOWN")%string.
  { eapply lands_run; [reflexivity|]. split.
    - split; [|split; reflexivity].
      destruct W; constructor; cbn; try assumption; unfold_bounds; lia.
    - unfold scan_invariant. cbn. unfold_bounds. repeat split; lia. }
  destruct (c =? "SCAN_STEP")%string.
  { go idtac.
    destruct (scanning s) eqn:Hsc; [|go idtac; keep_both W H0 H1 Sf Ss Sl].
    destruct (Sf eq_refl) as (Sp & Sb & Smax). rewrite Sb. cbn [negb orb].
    destruct (Z.lt_ge_cases (scan_current_step s) (theta_steps_per_rev s))
      as [Hlt|Hge].
    - go ltac:(apply performScanStep_point; assumption).
      pose proof (rem_range (current_theta_step s + 1)
                    (theta_steps_per_rev s) Htp).
      split; [keep W H0 H1|].
      unfold scan_invariant. cbn. rewrite Hsc.
      destruct W. unfold_bounds. repeat split; try assumption; lia.
    - pose proof (performScanStep_layer s W Hge) as Hl. cbv zeta in Hl.
      pose proof (zLayers_of_le s) as Hzl.
      assert (Hadd : CInt.add (scan_current_layer s) 1 = scan_current_layer s + 1)
        by (apply add_small; unfold_bounds; lia).
      rewrite Hadd in Hl.
      destruct (Z.leb_spec (zLayers_of s) (scan_current_layer s + 1));
        go ltac:(exact Hl).
      + split; [rewrite <- Hadd; keep W H0 H1|].
        unfold scan_invariant. cbn. unfold_bounds.
        repeat split; try discriminate; lia.
      + split; [rewrite <- Hadd; keep W H0 H1|].
        unfold scan_invariant. cbn. rewrite Hsc. unfold_bounds.
        repeat split; try assumption; lia. }
  destruct (c =? "STOP")%string.
  { eapply lands_run; [reflexivity|]. keep_both W H0 H1 Sf Ss Sl. }
  destruct (c =? "RESUME")%string.
  { destruct (paused s) eqn:Hp.
    - rewrite <- dispatch_RESUME.
      destruct (dispatch_RESUME_paused s W Hp H0 H1) as (t & Hrun).
      eapply lands_run; [exact Hrun|].
      pose proof (turned_bound (theta_steps_per_rev s) (current_theta_step s)
                    (Z.to_nat (total_layers s) *
                     Z.to_nat (theta_steps_per_rev s))) as Hb.
      split.
      + destruct W. unfold_bounds. specialize (Hb ltac:(lia) ltac:(lia)).
        split; [constructor; cbn; unfold_bounds; assumption || lia
               | split; assumption].
      + keep_scan Sf Ss Sl.
    - go idtac. rewrite Hp. go idtac. keep_both W H0 H1 Sf Ss Sl. }
  destruct (c =? "HOME")%string.
  { go ltac:(apply returnToHome_run; assumption). keep_both W H0 H1 Sf Ss Sl. }
  destruct (c =? "MOVE_TO_TOP")%string.
  { go ltac:(apply moveToTop_run; assumption). keep_both W H0 H1 Sf Ss Sl. }
  destruct (c =? "TEST")%string.
  { go idtac. keep_both W H0 H1 Sf Ss Sl. }
  destruct (c =? "TEST_POINT")%string.
  { go idtac. cbn [current_theta_step theta_steps_per_rev set_polls].
    rewrite (rem_defined _ _ Ht). go idtac. keep_both W H0 H1 Sf Ss Sl. }
  destruct (WString.startsWith c "ROTATE,").
  { destruct (0 <? WString.toInt16 (WString.substring_from 7 c)).
    - go idtac. rewrite (rem_defined _ _ Ht). go idtac.
      match goal with
      | |- context [Z.rem ?x (theta_steps_per_rev s)] =>
          pose proof (rem_range x (theta_steps_per_rev s) Htp)
      end.
      keep_both W H0 H1 Sf Ss Sl.
    - go idtac. keep_both W H0 H1 Sf Ss Sl. }
  destruct (WString.startsWith c "ROTATE_CCW,").
  { destruct (0 <? WString.toInt16 (WString.substring_from 11 c)).
    - go idtac. rewrite (rem_defined _ _ Ht). go idtac.
      match goal with
      | |- context [Z.rem ?x (theta_steps_per_rev s)] =>
          pose proof (rem_range x (theta_steps_per_rev s) Htp)
      end.
      keep_both W H0 H1 Sf Ss Sl.
    - go idtac. keep_both W H0 H1 Sf Ss Sl. }
  destruct (WString.startsWith c "ROTATE_Z,").
  { destruct (0 <? WString.toInt16 (WString.substring_from 9 c));
      go idtac; keep_both W H0 H1 Sf Ss Sl. }
  destruct (WString.startsWith c "ROTATE_Z_CCW,").
  { destruct (0 <? WString.toInt16 (WString.substring_from 13 c));
      go idtac; keep_both W H0 H1 Sf Ss Sl. }
  destruct (WString.startsWith c "CONFIG,").
  { pose proof (processConfigCommand_run c s) as Hrun.
    pose proof (parse_config_in_int c) as Hin.
    destruct (parse_config c) as [[iv cd] spr]. cbv zeta in Hrun.
    destruct Hin as [Hiv Hspr]. destruct Hrun as (t & Hrun & _).
    go ltac:(exact Hrun).
    destruct (config_accepted iv cd spr) eqn:Hok;
      [|keep_both W H0 H1 Sf Ss Sl].
    split; [|keep_scan Sf Ss Sl].
    unfold config_accepted in Hok. cbv zeta in Hok.
    repeat (apply andb_prop in Hok as [Hok ?]).
    repeat match goal with
           | H : (_ <=? _) = true |- _ => apply Z.leb_le in H
           | H : (_ <? _) = true |- _ => apply Z.ltb_lt in H
           end.
    pose proof (Hiv 1%nat). pose proof (Hiv 2%nat). pose proof (Hiv 3%nat).
    pose proof (Hiv 4%nat).
    split; [|split; assumption].
    destruct W; constructor; cbn; unfold_bounds; try assumption; lia. }
  destruct (c =? "GET_CONFIG")%string.
  { eapply lands_run; [reflexivity|]. keep_both W H0 H1 Sf Ss Sl. }
  destruct (c =? "READ_LIDAR")%string.
  { go idtac. keep_both W H0 H1 Sf Ss Sl. }
  go idtac. keep_both W H0 H1 Sf Ss Sl.
Qed.

(** ** A whole step-by-step scan *)

Lemma bind_ret_l {A} (k : unit -> M A) s : bind (ret tt) k s = k tt s.
Proof. unfold bind, ret. now destruct (k tt s) as [[[b s2] t2]|]. Qed.

Lemma bind_ext_run {A B} (m : M A) (k k' : A -> M B) s :
  (forall a s1, k a s1 = k' a s1) -> bind m k s = bind m k' s.
Proof.
  intros H. unfold bind. destruct (m s) as [[[a s1] t1]|]; [|reflexivity].
  now rewrite H.
Qed.

Lemma session_app l1 l2 s :
  session (l1 ++ l2) s = (session l1 ;; session l2) s.
Proof.
  revert s. induction l1 as [|c l1 IH]; intros s; cbn [app session].
  - now rewrite bind_ret_l.
  - rewrite bind_assoc_run. apply bind_ext_run. intros _ s1. apply IH.
Qed.

Lemma session_one c s :
  session [c] s = loop (Some c) s.
Proof.
  cbn [session]. unfold bind, ret.
  destruct (loop (Some c) s) as [[[[] s1] t1]|]; [|reflexivity].
  now rewrite app_nil_r.
Qed.

(** The state at the start of the layer after [s]'s, [n] points later. *)
Lemma scan_layer_run s a :
  wf s -> scanning s = true -> step_by_step_mode s = true ->
  scan_current_step s = 0 -> 0 <= scan_current_layer s < CInt.INT_MAX ->
  let theta := Z.to_nat (theta_steps_per_rev s) in
  let layer' := scan_current_layer s + 1 in
  let last := zLayers_of s <=? layer' in
  let s1 :=
    set_scan_current_layer layer'
      (set_scan_current_step 0
         (set_polls (theta + polls s)
            (set_current_theta_step
               (turned (theta_steps_per_rev s) (current_theta_step s) theta)
               s))) in
  exists t,
    session (repeat "SCAN_STEP" (S theta)) s =
      Some (tt,
            (if last then set_step_by_step_mode false (set_scanning false s1)
             else s1), t) /\
    lines_from [] t =
      (map (fun k =>
              point_line (scan_current_layer s) (Z.of_nat k)
                (distance_of (sensor (polls s + k)))
                (f_angle (Z.rem (Z.of_nat k + 1) (theta_steps_per_rev s))
                   (theta_steps_per_rev s)))
         (seq 0 theta) ++
       [if last then [TStr "SCAN_COMPLETE"] else [TInt DATA_DELIMITER]], []) /\
    z_pos (z_run a t) =
      (if last then z_pos a
       else if scan_direction_up s
            then z_pos a + Z.of_nat (Z.to_nat (z_steps_per_layer s))
            else z_pos a - Z.of_nat (Z.to_nat (z_steps_per_layer s))) /\
    writes_on X_STEP_PIN t = List.concat (repeat [LOW; HIGH] theta) /\
    polled t = repeat (sensor_of sk) theta.
Proof.
  intros W Hs Hm H0 Hl theta layer' last s1.
  assert (Hth : Z.of_nat theta = theta_steps_per_rev s)
    by (unfold theta; destruct W; unfold_bounds; lia).
  destruct (scan_steps_run theta s W Hs Hm ltac:(lia) ltac:(lia))
    as (t1 & Hrun1 & Hlines1 & Hx1 & Hz1 & Hzd1 & Hp1).
  set (sa := set_polls (theta + polls s)
               (set_current_theta_step
                  (turned (theta_steps_per_rev s) (current_theta_step s) theta)
                  (set_scan_current_step
                     (scan_current_step s + Z.of_nat theta) s))) in *.
  assert (Wa : wf sa).
  { pose proof (turned_bound (theta_steps_per_rev s) (current_theta_step s)
                  theta) as Hb.
    destruct W. unfold_bounds. specialize (Hb ltac:(lia) ltac:(lia)).
    constructor; cbn; unfold_bounds; try assumption; lia. }
  pose proof (performScanStep_layer sa Wa ltac:(cbn; lia)) as Hlay.
  cbv zeta in Hlay.
  change (scan_current_layer sa) with (scan_current_layer s) in Hlay.
  change (zLayers_of sa) with (zLayers_of s) in Hlay.
  rewrite add_small in Hlay
    by (unfold CInt.in_int, CInt.INT_MIN, CInt.INT_MAX in *; lia).
  fold layer' last in Hlay.
  assert (Es : set_scan_current_layer layer' (set_scan_current_step 0 sa) = s1)
    by (unfold sa, s1; now destruct s).
  rewrite Es in Hlay.
  replace (S theta) with (theta + 1)%nat by lia.
  rewrite repeat_app. cbn [repeat].
  destruct last.
  - pose proof (loop_SCAN_STEP sa _ Hs Hm Hlay) as Hl2. cbn [fst snd] in Hl2.
    eexists. split; [|split; [|split; [|split]]].
    + rewrite session_app. erewrite bind_some; [reflexivity | exact Hrun1 |].
      rewrite session_one. exact Hl2.
    + rewrite lines_from_app, Hlines1. rewrite H0. reflexivity.
    + rewrite z_run_app, (z_run_no_z_write a t1) by assumption. reflexivity.
    + rewrite writes_on_app, Hx1. apply app_nil_r.
    + rewrite polled_app, Hp1. apply app_nil_r.
  - pose proof (loop_SCAN_STEP sa _ Hs Hm Hlay) as Hl2. cbn [fst snd] in Hl2.
    change (scan_direction_up sa) with (scan_direction_up s) in Hl2.
    change (z_steps_per_layer sa) with (z_steps_per_layer s) in Hl2.
    match type of Hl2 with _ = Some (_, _, ?x) => set (t2 := x) in * end.
    assert (E2 : t2 =
                 DigitalWrite Z_DIR_PIN (if scan_direction_up s then LOW else HIGH) ::
                 pulses Z_STEP_PIN (Z.to_nat (z_steps_per_layer s)) ++
                 [DigitalWrite Z_DIR_PIN LOW; SerialPrintln (TInt DATA_DELIMITER);
                  DelayMs 10])
      by (unfold t2; cbn [app]; now rewrite <- app_assoc).
    clearbody t2.
    exists (t1 ++ t2). split; [|split; [|split; [|split]]].
    + rewrite session_app. erewrite bind_some; [reflexivity | exact Hrun1 |].
      rewrite session_one. exact Hl2.
    + rewrite lines_from_app, Hlines1. rewrite H0, E2.
      cbn [lines_from]. rewrite lines_pulses. reflexivity.
    + rewrite z_run_app, (z_run_no_z_write a t1) by assumption. rewrite E2.
      rewrite z_run_cons, z_event_dir, z_run_app, z_run_pulses.
      rewrite z_run_cons, z_event_dir, !z_run_skip by exact I.
      cbn [z_run fold_left z_pos]. rewrite z_pos_after. cbn [z_dir z_pos].
      now destruct (scan_direction_up s).
    + rewrite writes_on_app, Hx1, E2. cbn [writes_on app].
      rewrite !writes_on_app, writes_on_pulses_other by discriminate.
      apply app_nil_r.
    + rewrite polled_app, Hp1, E2. cbn [polled app].
      rewrite !polled_app, polled_pulses. apply app_nil_r.
Qed.

Lemma scan_layers_run (base : nat) (m : nat) :
  forall (l : nat) s a,
    wf s -> scanning s = true -> step_by_step_mode s = true ->
    scan_current_step s = 0 -> scan_current_layer s = Z.of_nat l ->
    Z.of_nat l + Z.of_nat m = zLayers_of s ->
    let theta := Z.to_nat (theta_steps_per_rev s) in
    polls s = (base + l * theta)%nat ->
    exists s' t,
      session (repeat "SCAN_STEP" (m * S theta)) s = Some (tt, s', t) /\
      (scanning s' = negb (0 <? Z.of_nat m) /\
       step_by_step_mode s' = negb (0 <? Z.of_nat m) /\
       scan_current_layer s' = zLayers_of s /\ scan_current_step s' = 0 /\
       polls s' = (base + (l + m) * theta)%nat) /\
      lines_from [] t =
        (flat_map
           (fun j =>
              map (fun k =>
                     point_line (Z.of_nat j) (Z.of_nat k)
                       (distance_of (sensor (base + j * theta + k)))
                       (f_angle (Z.rem (Z.of_nat k + 1) (theta_steps_per_rev s))
                          (theta_steps_per_rev s)))
                (seq 0 theta) ++
              [if zLayers_of s <=? Z.of_nat j + 1
               then [TStr "SCAN_COMPLETE"] else [TInt DATA_DELIMITER]])
           (seq l m), []) /\
      z_pos (z_run a t) =
        (if scan_direction_up s
         then z_pos a + Z.of_nat ((m - 1) * Z.to_nat (z_steps_per_layer s))
         else z_pos a - Z.of_nat ((m - 1) * Z.to_nat (z_steps_per_layer s))) /\
      writes_on X_STEP_PIN t = List.concat (repeat [LOW; HIGH] (m * theta)) /\
      polled t = repeat (sensor_of sk) (m * theta).
Proof.
  induction m as [|m IH]; intros l s a W Hs Hm H0 Hl Hz theta Hp.
  - exists s, []. cbn [Nat.mul repeat session ret seq flat_map].
    split; [reflexivity|]. split; [|split; [|split; [|split]]].
    + repeat split; try assumption.
      * rewrite <- Hz, Hl. lia.
      * rewrite Hp. f_equal. lia.
    + reflexivity.
    + cbn [z_run fold_left Nat.sub Nat.mul]. destruct (scan_direction_up s); lia.
    + reflexivity.
    + reflexivity.
  - pose proof (zLayers_of_le s) as Hmax.
    destruct (scan_layer_run s a W Hs Hm H0 ltac:(lia))
      as (t1 & Hrun1 & Hlines1 & Hz1 & Hx1 & Hp1).
    fold theta in Hrun1, Hlines1, Hx1, Hp1.
    set (s1 := set_scan_current_layer (scan_current_layer s + 1)
                 (set_scan_current_step 0
                    (set_polls (theta + polls s)
                       (set_current_theta_step
                          (turned (theta_steps_per_rev s)
                             (current_theta_step s) theta) s)))) in *.
    cbn [Nat.mul]. rewrite repeat_app, session_app.
    destruct (Z.leb_spec (zLayers_of s) (scan_current_layer s + 1)) as [Hlast|Hmore].
    + assert (m = 0%nat) by lia. subst m.
      eexists. exists (t1 ++ []). split; [|split; [|split; [|split; [|split]]]].
      * erewrite bind_some; [reflexivity | exact Hrun1 | reflexivity].
      * cbn. repeat split; try lia; try (rewrite Hp; lia).
      * rewrite app_nil_r, Hlines1. cbn [seq flat_map]. rewrite app_nil_r.
        rewrite Hl.
        replace (zLayers_of s <=? Z.of_nat l + 1) with true
          by (symmetry; apply Z.leb_le; lia).
        replace (polls s + 0)%nat with (polls s) by lia.
        f_equal. f_equal. apply map_ext. intros k. rewrite Hp. reflexivity.
      * rewrite app_nil_r, Hz1. cbn [Nat.sub Nat.mul].
        destruct (scan_direction_up s); lia.
      * rewrite app_nil_r, Hx1. f_equal. f_equal. lia.
      * rewrite app_nil_r, Hp1. f_equal. lia.
    + assert (W1 : wf s1).
      { pose proof (turned_bound (theta_steps_per_rev s) (current_theta_step s)
                      theta) as Hb.
        destruct W. unfold_bounds. specialize (Hb ltac:(lia) ltac:(lia)).
        constructor; cbn; unfold_bounds; try assumption; lia. }
      destruct (IH (S l) s1 (z_run a t1) W1 Hs Hm eq_refl)
        as (s' & t2 & Hrun2 & Hst & Hlines2 & Hz2 & Hx2 & Hp2).
      { cbn. lia. }
      { change (zLayers_of s1) with (zLayers_of s). lia. }
      { cbn. fold theta. rewrite Hp. lia. }
      change (theta_steps_per_rev s1) with (theta_steps_per_rev s) in *.
      change (zLayers_of s1) with (zLayers_of s) in *.
      change (scan_direction_up s1) with (scan_direction_up s) in *.
      change (z_steps_per_layer s1) with (z_steps_per_layer s) in *.
      fold theta in Hrun2, Hlines2, Hx2, Hp2, Hst.
      exists s', (t1 ++ t2). split; [|split; [|split; [|split; [|split]]]].
      * erewrite bind_some; [reflexivity | exact Hrun1 | exact Hrun2].
      * destruct Hst as (A1 & A2 & A3 & A4 & A5).
        assert (E : negb (0 <? Z.of_nat m) = false)
          by (apply negb_false_iff, Z.ltb_lt; lia).
        rewrite E in A1, A2.
        replace (negb (0 <? Z.of_nat (S m))) with false
          by (symmetry; apply negb_false_iff, Z.ltb_lt; lia).
        repeat split; try assumption. rewrite A5. f_equal. lia.
      * rewrite lines_from_app, Hlines1. cbv beta iota. rewrite Hlines2.
        cbn [seq flat_map]. rewrite Hl.
        replace (zLayers_of s <=? Z.of_nat l + 1) with false
          by (symmetry; apply Z.leb_gt; lia).
        f_equal. f_equal. f_equal. apply map_ext. intros k.
        rewrite Hp. reflexivity.
      * rewrite z_run_app, Hz2, Hz1.
        destruct m as [|m]; [lia|].
        replace (S (S m) - 1)%nat with (S (S m - 1)) by lia.
        rewrite Nat.mul_succ_l.
        destruct (scan_direction_up s); lia.
      * rewrite writes_on_app, Hx1, Hx2. rewrite concat_repeat_add.
        reflexivity.
      * rewrite polled_app, Hp1, Hp2, <- repeat_app. reflexivity.
Qed.

(** X10. A whole step-by-step scan: from the start of a scan (as START
    and START_DOWN leave it: [scanning], [step_by_step_mode], layer 0,
    step 0) with a valid configuration, [zLayers * (theta_steps_per_rev +
    1)] SCAN_STEP commands complete the scan, where [zLayers] is
    [(z_travel_mm * z_steps_per_mm) / z_steps_per_layer] in sixteen-bit
    arithmetic, or 1000 when that is not positive.  Each layer prints its
    [theta_steps_per_rev] point lines, then 9999, or SCAN_COMPLETE after
    the last layer; motor Z moves one layer in the scan direction after
    every layer but the last and never returns; motor X makes one step per
    point.  The scan ends with [scanning] and [step_by_step_mode] cleared,
    so a further SCAN_STEP is refused. *)
Theorem step_by_step_scan_complete (s : state) (a : zaxis) :
  wf s -> scanning s = true -> step_by_step_mode s = true ->
  scan_current_step s = 0 -> scan_current_layer s = 0 ->
  let theta := Z.to_nat (theta_steps_per_rev s) in
  let nL := Z.to_nat (zLayers_of s) in
  let k := Z.to_nat (z_steps_per_layer s) in
  exists s' t,
    session (repeat "SCAN_STEP" (nL * S theta)) s = Some (tt, s', t) /\
    scanning s' = false /\ step_by_step_mode s' = false /\
    scan_current_layer s' = zLayers_of s /\
    serial_lines t =
      flat_map
        (fun j =>
           map (fun i =>
                  point_line (Z.of_nat j) (Z.of_nat i)
                    (distance_of (sensor (polls s + j * theta + i)))
                    (f_angle (Z.rem (Z.of_nat i + 1) (theta_steps_per_rev s))
                       (theta_steps_per_rev s)))
             (seq 0 theta) ++
           [if zLayers_of s <=? Z.of_nat j + 1
            then [TStr "SCAN_COMPLETE"] else [TInt DATA_DELIMITER]])
        (seq 0 nL) /\
    z_pos (z_run a t) =
      (if scan_direction_up s then z_pos a + Z.of_nat ((nL - 1) * k)
       else z_pos a - Z.of_nat ((nL - 1) * k)) /\
    writes_on X_STEP_PIN t = List.concat (repeat [LOW; HIGH] (nL * theta)) /\
    polled t = repeat (sensor_of sk) (nL * theta) /\
    loop (Some "SCAN_STEP") s' =
      Some (tt, s',
            [SerialPrintln (TStr "ERROR: Not in step-by-step scan mode!")]).
Proof.
  intros W Hs Hm H0 Hl theta nL k.
  pose proof (zLayers_of_pos s) as Hpos.
  destruct (scan_layers_run (polls s) nL 0%nat s a W Hs Hm H0 Hl
              ltac:(unfold nL; lia) ltac:(lia))
    as (s' & t & Hrun & (A1 & A2 & A3 & _) & Hlines & Hz & Hx & Hp).
  fold theta in Hrun, Hlines, Hx, Hp.
  assert (E : negb (0 <? Z.of_nat nL) = false)
    by (apply negb_false_iff, Z.ltb_lt; unfold nL; lia).
  rewrite E in A1, A2.
  exists s', t. repeat split; try assumption.
  - unfold serial_lines. now rewrite Hlines.
  - rewrite (loop_dispatch _ "SCAN_STEP") by reflexivity.
    etransitivity.
    { run_bind ltac:(apply dispatch_SCAN_STEP_refused; now rewrite A1).
      reflexivity. }
    reflexivity.
Qed.

(** ** Reachable states *)

Lemma reachable_both s : reachable s -> invariant s /\ scan_invariant s.
Proof.
  induction 1 as [|s line s' t Hr [HI HS] Hl].
  - split; [apply invariant_initial_state|].
    unfold scan_invariant. cbn. unfold_bounds. repeat split; try lia.
    all: discriminate.
  - destruct line as [l|]; cbn [loop] in Hl.
    + destruct (dispatch_lands_scan (WString.toUpperCase (WString.trim l)) s
                  HI HS) as (e & s2 & t2 & Hd & HI').
      rewrite (bind_run _ _ _ _ _ _ Hd) in Hl.
      destruct e; cbn in Hl; injection Hl as <- _; exact HI'.
    + injection Hl as <- _. now split.
Qed.

(** X11. The scan flags and counters between commands: in every state the
    firmware can reach, [scanning] implies [step_by_step_mode] and excludes
    [paused] (so SCAN_STEP is accepted exactly when [scanning] is set, and
    a RESUME scan never leaves [scanning] set); [scan_current_step] lies in
    [0, 3600], and [scan_current_layer] is never negative: the layer
    counter does not overflow. *)
Theorem reachable_scan_flags (s : state) :
  reachable s ->
  (scanning s = true -> paused s = false /\ step_by_step_mode s = true) /\
  (paused s = true -> scanning s = false) /\
  0 <= scan_current_step s <= MAX_THETA_STEPS_PER_REV /\
  0 <= scan_current_layer s <= CInt.INT_MAX.
Proof.
  intros Hr. destruct (reachable_both s Hr) as [(W & _) (Sf & Ss & Sl)].
  repeat split; try (apply Ss); try exact Sl.
  - now apply Sf.
  - now apply Sf.
  - intros Hp. destruct (scanning s); [|reflexivity].
    destruct (Sf eq_refl) as [Hq _]. congruence.
  - destruct W. unfold_bounds. lia.
Qed.

(** X12. The configuration between commands: in every state the firmware
    can reach, the configuration satisfies what CONFIG validation enforces:
    [theta_steps_per_rev] lies in [4, 3600] and does not exceed
    [steps_per_rev]; the Z travel, the Z steps per mm and the Z steps per
    layer are positive; the delay is not negative.  Hence no division of
    the sketch has a zero divisor. *)
Theorem reachable_config_valid (s : state) :
  reachable s ->
  MIN_THETA_STEPS_PER_REV <= theta_steps_per_rev s <= MAX_THETA_STEPS_PER_REV /\
  theta_steps_per_rev s <= steps_per_rev s /\
  0 < z_travel_mm s /\ 0 < z_steps_per_mm s /\ 0 < z_steps_per_layer s /\
  0 <= scan_delay_ms s /\
  CInt.div (steps_per_rev s) (theta_steps_per_rev s) <> None /\
  CInt.div (CInt.mul (z_travel_mm s) (z_steps_per_mm s))
    (z_steps_per_layer s) <> None.
Proof.
  intros Hr. destruct (reachable_invariant s Hr) as [W _]. destruct W.
  unfold_bounds. repeat split; try lia.
  - rewrite div_defined by lia. discriminate.
  - rewrite div_defined by lia. discriminate.
Qed.

(** ** Pins *)

Lemma pins_written_app t1 t2 :
  pins_written (t1 ++ t2) = pins_written t1 ++ pins_written t2.
Proof. apply flat_map_app. Qed.

Lemma emits_motor_pins lines :
  emits (fun t =>
           Forall (fun p => In p [X_STEP_PIN; X_DIR_PIN; Z_STEP_PIN; Z_DIR_PIN])
             (pins_written t))
    (session lines).
Proof.
  apply emits_session.
  - constructor.
  - intros t1 t2 H1 H2. rewrite pins_written_app. apply Forall_app; now split.
  - intros e Hq. destruct e; cbn in *; try solve [constructor].
    constructor; [|constructor]. destruct Hq as [-> | ->]; auto.
  - constructor.
  - repeat (constructor; [cbn; auto|]). constructor.
  - repeat (constructor; [cbn; auto|]). constructor.
Qed.

(** X13. The pins the command loop writes: whatever lines a session
    receives, every [digitalWrite] of every pass goes to the STEP or DIR
    pin of motor X or Z, each of which [setup] configured as an output;
    the ENABLE pin, which [setup] drives LOW, is never written again, so
    the drivers stay enabled. *)
Theorem session_writes_motor_pins (lines : list string) (s0 s : state)
    (t : trace) :
  session lines s0 = Some (tt, s, t) ->
  Forall (fun p => In p [X_STEP_PIN; X_DIR_PIN; Z_STEP_PIN; Z_DIR_PIN])
    (pins_written t) /\
  Forall (fun p => In p (output_pins (fst (setup true s0)))) (pins_written t) /\
  ~ In X_ENABLE_PIN (pins_written t) /\
  last_level X_ENABLE_PIN (boot_trace (fst (setup true s0))) = Some LOW.
Proof.
  intros Hrun. pose proof (emits_motor_pins lines s0 tt s t Hrun) as F.
  split; [exact F|]. split; [|split; [|reflexivity]].
  - eapply Forall_impl; [|exact F]. intros p Hp. cbn in *. intuition.
  - intros Hin. rewrite Forall_forall in F. specialize (F _ Hin).
    cbn in F. intuition discriminate.
Qed.

(** X14. Start-up of the VL53L0X sketch.  When [sensor.init()] fails,
    [setup] prints the failure message and never returns: no pin is
    configured or written and the ready banner is not printed.  When it
    succeeds, [setup] returns having configured the STEP, DIR and ENABLE
    pins as outputs and left every one of them LOW (drivers enabled), and
    the last line of its banner reports theta, the Z travel, the Z steps
    per mm, the Z steps per layer and the delay of the configuration. *)
Theorem setup_requires_sensor (s : state) :
  setup false s =
    ([SerialBegin SERIAL_BAUD; WireBegin; SensorInit;
      Run (SerialPrintln (TStr "Failed to detect and initialize VL53L0X!"))],
     Hung) /\
  output_pins (fst (setup false s)) = [] /\
  pins_written (boot_trace (fst (setup false s))) = [] /\
  snd (setup true s) = Booted /\
  output_pins (fst (setup true s)) =
    [X_STEP_PIN; X_DIR_PIN; X_ENABLE_PIN; Z_STEP_PIN; Z_DIR_PIN] /\
  (forall pin,
      In pin [X_STEP_PIN; X_DIR_PIN; X_ENABLE_PIN; Z_STEP_PIN; Z_DIR_PIN] ->
      last_level pin (boot_trace (fst (setup true s))) = Some LOW) /\
  last (serial_lines (boot_trace (fst (setup true s)))) [] =
    [TStr "Current config: theta="; TInt (theta_steps_per_rev s);
     TStr " z_travel="; TInt (z_travel_mm s);
     TStr "mm z_steps/mm="; TInt (z_steps_per_mm s);
     TStr " z_steps/layer="; TInt (z_steps_per_layer s);
     TStr " delay="; TInt (scan_delay_ms s); TStr "ms"].
Proof.
  repeat split.
  intros pin Hin. cbn in Hin.
  destruct Hin as [<- | [<- | [<- | [<- | [<- | []]]]]]; reflexivity.
Qed.

(** ** The full scan *)

(** X15. The guards of [performScan].  Called with [scanning] false it
    prints an error and changes nothing.  Called with [scanning] set and a
    layer count ([(z_travel_mm * z_steps_per_mm) / z_steps_per_layer] in
    sixteen-bit arithmetic, 0 when [z_steps_per_layer] is not positive)
    that is not positive, it prints the count and the three Z parameters,
    clears [scanning] and returns: no motor moves and the sensor is not
    polled. *)
Theorem performScan_guards (s : state) :
  let zLayers := if 0 <? z_steps_per_layer s then total_layers s else 0 in
  (scanning s = false ->
   performScan s =
     Some (tt, s,
           [SerialPrintln
              (TStr "ERROR: performScan() called but scanning=false!")])) /\
  (scanning s = true -> zLayers <= 0 ->
   performScan s =
     Some (tt, set_scanning false s,
           [SerialPrint (TStr "ERROR: zLayers="); SerialPrint (TInt zLayers);
            SerialPrint (TStr " (z_travel_mm=");
            SerialPrint (TInt (z_travel_mm s));
            SerialPrint (TStr ", z_steps_per_mm=");
            SerialPrint (TInt (z_steps_per_mm s));
            SerialPrint (TStr ", z_steps_per_layer=");
            SerialPrint (TInt (z_steps_per_layer s));
            SerialPrintln (TStr "), cannot scan!")])).
Proof.
  intros zLayers. split.
  - intros Hs. unfold performScan. etransitivity.
    { run_bind idtac. rewrite Hs. reflexivity. }
    reflexivity.
  - intros Hs Hz. unfold performScan. etransitivity.
    { run_bind idtac. rewrite Hs. cbn [negb].
      run_bind idtac.
      assert (Hc : (if 0 <? z_steps_per_layer s then layer_count else ret 0) s
                   = Some (zLayers, s, [])).
      { unfold zLayers. destruct (Z.ltb_spec 0 (z_steps_per_layer s)).
        - apply layer_count_run. lia.
        - reflexivity. }
      run_bind ltac:(exact Hc).
      replace (zLayers <=? 0) with true by (symmetry; apply Z.leb_le; exact Hz).
      reflexivity. }
    reflexivity.
Qed.

(** ** The sliced delay *)

(** X16. The delay between points: while the scan is running, the loop
    that waits [d] milliseconds in slices of ten calls [delay(10)] exactly
    [ceil(d / 10)] times and changes nothing, so it waits at least [d] and
    less than [d + 10] milliseconds; when the scan is not running it
    returns at once. *)
Theorem sliced_delay (fuel : nat) (d : Z) (s : state) :
  0 <= d <= CInt.INT_MAX -> d <= 10 * Z.of_nat fuel ->
  let n := Z.to_nat ((d + 9) / 10) in
  delay_loop fuel d s =
    Some (tt, s, if running s then repeat (DelayMs 10) n else []) /\
  d <= 10 * Z.of_nat n < d + 10.
Proof.
  intros Hd Hf n. split.
  - destruct (running s) eqn:Hr.
    + apply delay_loop_run; [exact Hr | exact Hf | apply Hd].
    + destruct fuel as [|fuel]; cbn [delay_loop]; [reflexivity|].
      rewrite Hr, andb_false_r. reflexivity.
  - unfold n. rewrite Z2Nat.id by (apply Z.div_pos; lia).
    pose proof (Z.div_mod (d + 9) 10 ltac:(lia)).
    pose proof (Z.mod_pos_bound (d + 9) 10 ltac:(lia)). lia.
Qed.

(** ** Parsing CONFIG *)

Lemma list_ascii_app a b :
  list_ascii_of_string (a ++ b)%string =
  list_ascii_of_string a ++ list_ascii_of_string b.
Proof. induction a as [|c a IH]; cbn; [reflexivity | now rewrite IH]. Qed.

Lemma index_from_none c l i :
  0 <= i -> WString.index_from c l i = -1 ->
  Forall (fun d => Ascii.eqb d c = false) l.
Proof.
  revert i. induction l as [|d l IH]; intros i Hi H; [constructor|].
  cbn [WString.index_from] in H. destruct (Ascii.eqb d c) eqn:E; [lia|].
  constructor; [exact E | apply (IH (i + 1)); [lia | exact H]].
Qed.

Lemma index_from_found c l r i :
  Forall (fun d => Ascii.eqb d c = false) l ->
  WString.index_from c (l ++ c :: r) i = i + Z.of_nat (List.length l).
Proof.
  intros H. revert i. induction H as [|d l Hd _ IH]; intros i.
  - cbn [app WString.index_from List.length]. rewrite Ascii.eqb_refl. lia.
  - cbn [app WString.index_from List.length]. rewrite Hd, IH. lia.
Qed.

Lemma length_list_ascii s :
  List.length (list_ascii_of_string s) = String.length s.
Proof. induction s as [|c s IH]; cbn; [reflexivity | now rewrite IH]. Qed.

Lemma indexOf_field f rest :
  WString.indexOf ","%char f = -1 ->
  WString.indexOf ","%char (f ++ "," ++ rest) = WString.length f.
Proof.
  unfold WString.indexOf, WString.length. intros H.
  apply index_from_none in H; [|lia].
  rewrite list_ascii_app. cbn [String.append list_ascii_of_string].
  rewrite index_from_found by exact H. rewrite length_list_ascii. lia.
Qed.

Lemma substring_prefix f rest :
  String.substring 0 (String.length f) (f ++ rest) = f.
Proof. induction f as [|c f IH]; cbn; [now destruct rest | now rewrite IH]. Qed.

Lemma substring_field f rest :
  WString.substring 0 (WString.length f) (f ++ rest) = f.
Proof.
  unfold WString.substring, WString.length.
  rewrite Z.sub_0_r, Nat2Z.id. apply substring_prefix.
Qed.

Lemma append_assoc (a b c : string) :
  ((a ++ b) ++ c = a ++ (b ++ c))%string.
Proof. induction a as [|x a IH]; cbn; [reflexivity | now rewrite IH]. Qed.

Lemma substring_from_field f rest :
  WString.substring_from (WString.length f + 1) (f ++ "," ++ rest) = rest.
Proof.
  rewrite <- append_assoc.
  replace (WString.length f + 1) with (Z.of_nat (String.length (f ++ ",")))
    by (unfold WString.length; rewrite length_append; cbn; lia).
  apply substring_from_app.
Qed.

Lemma parse_ints_field fuel i f rest iv :
  WString.indexOf ","%char f = -1 ->
  parse_ints (S fuel) i (f ++ "," ++ rest) iv =
  parse_ints fuel (S i) rest (store i (WString.toInt16 f) iv).
Proof.
  intros H. cbn [parse_ints]. cbv zeta. rewrite (indexOf_field _ _ H).
  replace (WString.length f =? -1) with false
    by (symmetry; apply Z.eqb_neq; unfold WString.length; lia).
  now rewrite substring_field, substring_from_field.
Qed.

Lemma parse_ints_last fuel i f iv :
  WString.indexOf ","%char f = -1 ->
  parse_ints (S fuel) i f iv = ("", store i (WString.toInt16 f) iv).
Proof. intros H. cbn [parse_ints]. cbv zeta. now rewrite H. Qed.

Lemma parse_config_rest rest :
  parse_config ("CONFIG," ++ rest) =
  (let '(params, intValues) :=
     parse_ints 5 0 rest (map (fun i => CInt.wrap (uninit i)) (seq 0 6)) in
   let '(centerDist, stepsPerRev) := parse_tail params in
   (intValues, centerDist, stepsPerRev)).
Proof.
  unfold parse_config. cbv zeta.
  change 7 with (Z.of_nat (String.length "CONFIG,")).
  now rewrite substring_from_app.
Qed.

(** X17. The fields of a CONFIG command.  With seven comma-separated
    fields the command is parsed into the five integers, the centre
    distance and the steps per revolution, each read by [toInt] or
    [toFloat] from its own field.  With six fields the steps per revolution
    are 1600, and with five fields the centre distance is 10.3 as well:
    the optional fields do not keep their current values (the centre
    distance starts at 15.0). *)
Theorem config_fields (f0 f1 f2 f3 f4 f5 f6 : string) :
  Forall (fun f => WString.indexOf ","%char f = -1) [f0; f1; f2; f3; f4; f5] ->
  f5 <> "" -> f6 <> "" ->
  let ints :=
    [WString.toInt16 f0; WString.toInt16 f1; WString.toInt16 f2;
     WString.toInt16 f3; WString.toInt16 f4; CInt.wrap (uninit 5)] in
  parse_config ("CONFIG," ++ f0 ++ "," ++ f1 ++ "," ++ f2 ++ "," ++ f3 ++ ","
                ++ f4 ++ "," ++ f5 ++ "," ++ f6) =
    (ints, toFloat f5, WString.toInt16 f6) /\
  parse_config ("CONFIG," ++ f0 ++ "," ++ f1 ++ "," ++ f2 ++ "," ++ f3 ++ ","
                ++ f4 ++ "," ++ f5) =
    (ints, toFloat f5, DEFAULT_STEPS_PER_REV) /\
  parse_config ("CONFIG," ++ f0 ++ "," ++ f1 ++ "," ++ f2 ++ "," ++ f3 ++ ","
                ++ f4) =
    (ints, FNum (103 # 10), DEFAULT_STEPS_PER_REV).
Proof.
  intros Hf H5 H6 ints.
  repeat match goal with
         | H : Forall _ (_ :: _) |- _ =>
             let a := fresh "C" in
             apply Forall_cons_iff in H as [a H]
         end.
  assert (L5 : (0 <? WString.length f5) = true).
  { apply Z.ltb_lt. unfold WString.length. destruct f5; [congruence | cbn; lia]. }
  assert (L6 : (0 <? WString.length f6) = true).
  { apply Z.ltb_lt. unfold WString.length. destruct f6; [congruence | cbn; lia]. }
  split; [|split]; rewrite parse_config_rest.
  - rewrite !parse_ints_field by assumption. cbn [parse_ints].
    unfold parse_tail. cbv zeta.
    replace (0 <? WString.length (f5 ++ "," ++ f6)) with true
      by (symmetry; apply Z.ltb_lt; unfold WString.length;
          rewrite length_append; cbn; lia).
    rewrite (indexOf_field _ _ C4).
    replace (WString.length f5 =? -1) with false
      by (symmetry; apply Z.eqb_neq; unfold WString.length; lia).
    rewrite substring_field, substring_from_field, L6. reflexivity.
  - rewrite !parse_ints_field by assumption. cbn [parse_ints].
    unfold parse_tail. cbv zeta. rewrite L5, C4. reflexivity.
  - rewrite !parse_ints_field by assumption.
    rewrite parse_ints_last by assumption. reflexivity.
Qed.

(** X18. A CONFIG command with a single field: the four integers it does
    not give are read from the uninitialised cells of the local array
    [intValues], so whether the command is accepted, and the Z travel, Z
    steps per mm, Z steps per layer and delay it then sets, are decided by
    values the command does not contain. *)
Theorem config_single_field_reads_unset_cells (f0 : string) (s : state) :
  WString.indexOf ","%char f0 = -1 ->
  let v (i : nat) := CInt.wrap (uninit i) in
  let theta := WString.toInt16 f0 in
  let ok :=
    config_accepted [theta; v 1%nat; v 2%nat; v 3%nat; v 4%nat; v 5%nat]
      (FNum (103 # 10)) DEFAULT_STEPS_PER_REV in
  parse_config ("CONFIG," ++ f0) =
    ([theta; v 1%nat; v 2%nat; v 3%nat; v 4%nat; v 5%nat],
     FNum (103 # 10), DEFAULT_STEPS_PER_REV) /\
  exists t,
    dispatch ("CONFIG," ++ f0) s =
      Some (FallThrough,
            (if ok
             then set_config theta (v 1%nat) (v 2%nat) (v 3%nat) (v 4%nat)
                    (FNum (103 # 10)) DEFAULT_STEPS_PER_REV s
             else s), t).
Proof.
  intros H0 v theta ok.
  assert (E : parse_config ("CONFIG," ++ f0) =
              ([theta; v 1%nat; v 2%nat; v 3%nat; v 4%nat; v 5%nat],
               FNum (103 # 10), DEFAULT_STEPS_PER_REV)).
  { rewrite parse_config_rest. rewrite parse_ints_last by assumption.
    reflexivity. }
  split; [exact E|].
  pose proof (processConfigCommand_run ("CONFIG," ++ f0) s) as H.
  rewrite E in H. cbv zeta in H. cbn [nth] in H. fold ok in H.
  destruct H as (t & Hrun & _). exists (t ++ []).
  rewrite dispatch_CONFIG. eapply bind_some; [exact Hrun | reflexivity].
Qed.

(** ** The sensor a scan step polls *)

Lemma start_scan_step_polled :
  option_map (fun r => polled (snd r))
    (session ["START"; "SCAN_STEP"] initial_state) = Some [sensor_of sk].
Proof.
  set (s1 := set_step_by_step_mode true (set_scanning true initial_state)).
  assert (W : wf s1) by (constructor; cbv; repeat split; discriminate).
  pose proof (performScanStep_point s1 W ltac:(cbv; reflexivity)) as Hp.
  pose proof (loop_SCAN_STEP s1 _ eq_refl eq_refl Hp) as Hl.
  cbn [fst snd] in Hl.
  assert (Hs : exists t,
             loop (Some "START") initial_state = Some (tt, s1, t) /\
             polled t = []).
  { eexists. split; reflexivity. }
  destruct Hs as (t0 & Hs & Hp0).
  cbn [session].
  erewrite bind_some;
    [| exact Hs | erewrite bind_some; [| exact Hl | reflexivity]; reflexivity].
  cbn [option_map snd]. f_equal.
  rewrite polled_app, Hp0, app_nil_r, step_point_polled. reflexivity.
Qed.

(** ** Properties of the sketch *)

(** C6. Direct pulse generation: for every [n >= 0], [rotateMotorX n] and
    [rotateMotorZ n] return with the state unchanged after exactly [n]
    pulses, each a LOW write followed by a HIGH write on the STEP pin of
    the motor, and nothing else but the half-period delays; and in every
    pass of the command loop, scan steps and resumed scans included, the
    writes to the STEP pins are such pulse pairs only. *)
Theorem direct_pulse_generation (n : Z) (s : state) (line : option string) :
  0 <= n ->
  rotateMotorX n s = Some (tt, s, pulses X_STEP_PIN (Z.to_nat n)) /\
  rotateMotorZ n s = Some (tt, s, pulses Z_STEP_PIN (Z.to_nat n)) /\
  writes_on X_STEP_PIN (pulses X_STEP_PIN (Z.to_nat n)) =
    List.concat (repeat [LOW; HIGH] (Z.to_nat n)) /\
  writes_on Z_STEP_PIN (pulses Z_STEP_PIN (Z.to_nat n)) =
    List.concat (repeat [LOW; HIGH] (Z.to_nat n)) /\
  Z.of_nat (Z.to_nat n) = n /\
  match loop line s with
  | Some (_, _, t) => pulse_train (step_writes t)
  | None => True
  end.
Proof.
  intros Hn. repeat split.
  - apply rotateMotorX_run.
  - apply rotateMotorZ_run.
  - apply writes_on_pulses.
  - apply writes_on_pulses.
  - now apply Z2Nat.id.
  - destruct (loop line s) as [[[u s'] t]|] eqn:E; [|exact I].
    exact (emits_pulse_trains line s u s' t E).
Qed.

(** C7. Vertical-lift round trip: with the same configuration,
    [moveToTop] and [returnToHome] run the same number of iterations
    ([(z_travel_mm * z_steps_per_mm) / z_steps_per_layer]) of
    [z_steps_per_layer] pulses each, the first with the Z DIR pin LOW and
    the second with it HIGH, so MOVE_TO_TOP followed by HOME leaves the
    carriage where it was. *)
Theorem lift_round_trip (s : state) (a : zaxis) :
  z_steps_per_layer s <> 0 ->
  let k := Z.to_nat (z_steps_per_layer s) in
  let n := Z.to_nat (total_layers s) in
  moveToTop s = Some (tt, s, DigitalWrite Z_DIR_PIN LOW :: lift_events k n) /\
  returnToHome s =
    Some (tt, s,
          DigitalWrite Z_DIR_PIN HIGH ::
          lift_events k n ++ [DigitalWrite Z_DIR_PIN LOW]) /\
  writes_on Z_STEP_PIN (lift_events k n) =
    List.concat (repeat [LOW; HIGH] (n * k)) /\
  writes_on Z_DIR_PIN (lift_events k n) = [] /\
  exists t,
    session ["MOVE_TO_TOP"; "HOME"] s = Some (tt, s, t) /\
    z_pos (z_run a t) = z_pos a.
Proof.
  intros Hz k n. repeat split.
  - now apply moveToTop_run.
  - now apply returnToHome_run.
  - apply writes_on_lift.
  - apply writes_on_lift_dir.
  - eexists. split.
    + cbn [session]. etransitivity.
      { run_bind ltac:(apply loop_MOVE_TO_TOP; assumption).
        run_bind ltac:(apply loop_HOME; assumption). reflexivity. }
      reflexivity.
    + fold k n. rewrite app_nil_r, z_run_app.
      rewrite !z_run_cons, z_run_app, z_run_lift, !z_run_cons.
      rewrite z_run_app, z_run_lift, !z_run_cons.
      rewrite !z_event_dir. cbn [z_run fold_left z_event z_pos z_dir z_step].
      rewrite !z_pos_after, ?z_dir_after. cbn [z_dir z_pos]. lia.
Qed.

(** C9. Sensor-read result mapping: [readVL53L0X] polls the sensor once
    and returns 0.0 exactly when the sensor reports a timeout, a raw
    distance of 0 or a raw distance above 1200 mm; otherwise it returns the
    raw distance divided by 10; the value always lies in [0, 120]. *)
Theorem readVL53L0X_mapping (s : state) :
  let a := sensor (polls s) in
  let raw := CInt.to_u16 (vl_range a) in
  let invalid := vl_timeout a || (raw =? 0) || (1200 <? raw) in
  readVL53L0X s =
    Some (vl53l0x_cm a, set_polls (S (polls s)) s, [SensorPoll VL53L0X]) /\
  vl53l0x_cm a = (if invalid then f_zero else f_tenth raw) /\
  (vl53l0x_cm a = f_zero <-> invalid = true) /\
  exists q,
    vl53l0x_cm a = FNum q /\
    (q == if invalid then 0 else inject_Z raw / 10)%Q /\
    (0 <= q <= 120)%Q.
Proof.
  intros a raw invalid.
  assert (Hcm : vl53l0x_cm a = if invalid then f_zero else f_tenth raw).
  { unfold vl53l0x_cm, invalid. fold raw.
    destruct (vl_timeout a), (raw =? 0), (1200 <? raw); reflexivity. }
  assert (Hnz : invalid = false -> f_tenth raw <> f_zero).
  { unfold invalid. intros Hv Hq.
    apply orb_false_elim in Hv as [Hv _]. apply orb_false_elim in Hv as [_ Hv].
    apply Z.eqb_neq in Hv. apply Hv.
    assert (E : Qred (inject_Z raw / 10) = 0%Q)
      by (unfold f_tenth, f_zero in Hq; congruence).
    pose proof (Qred_correct (inject_Z raw / 10)) as Hr. rewrite E in Hr.
    unfold Qeq in Hr. cbn in Hr. lia. }
  split; [reflexivity|]. split; [exact Hcm|]. split.
  - rewrite Hcm. destruct invalid; split; intros H; try reflexivity; try discriminate.
    now destruct (Hnz eq_refl).
  - rewrite Hcm. destruct invalid eqn:Hv.
    + exists 0%Q. repeat split; try reflexivity; discriminate.
    + exists (Qred (inject_Z raw / 10)). split; [reflexivity|].
      split; [apply Qred_correct|].
      unfold invalid in Hv.
      apply orb_false_elim in Hv as [Hv H2]. apply orb_false_elim in Hv as [_ H1].
      apply Z.eqb_neq in H1. apply Z.ltb_ge in H2.
      assert (0 <= raw) by (unfold raw, CInt.to_u16; apply Z.mod_pos_bound; lia).
      rewrite Qred_correct. unfold Qle. cbn. lia.
Qed.

(** C3. CONFIG parameter validation is atomic: a CONFIG command assigns
    all seven configuration variables from the parsed values exactly when
    the parsed theta lies in [4, 3600] and does not exceed the parsed
    steps per revolution, the first four integers are positive, the delay
    is not negative and the centre distance and the steps per revolution
    are positive; in every other case it prints a CONFIG_ERROR message and
    leaves the state as it was. *)
Theorem config_atomic (rest : string) (s : state) :
  let command := ("CONFIG," ++ rest)%string in
  let '(iv, c, spr) := parse_config command in
  let v (i : nat) := nth i iv 0 in
  let ok := config_accepted iv c spr in
  let s' :=
    if ok then set_config (v 0%nat) (v 1%nat) (v 2%nat) (v 3%nat) (v 4%nat) c spr s
    else s in
  (exists t,
     dispatch command s = Some (FallThrough, s', t) /\
     String.prefix (if ok then "CONFIG_OK:" else "CONFIG_ERROR:")
       (first_text t) = true) /\
  (theta_steps_per_rev s', z_travel_mm s', z_steps_per_mm s',
   z_steps_per_layer s', scan_delay_ms s', center_distance_cm s',
   steps_per_rev s') =
  (if ok then (v 0%nat, v 1%nat, v 2%nat, v 3%nat, v 4%nat, c, spr)
   else (theta_steps_per_rev s, z_travel_mm s, z_steps_per_mm s,
         z_steps_per_layer s, scan_delay_ms s, center_distance_cm s,
         steps_per_rev s)).
Proof.
  intros command.
  pose proof (processConfigCommand_run command s) as H.
  destruct (parse_config command) as [[iv c] spr]. cbv zeta in *.
  destruct H as (t & Hrun & Hmsg). split.
  - exists t. split; [|exact Hmsg].
    unfold command. rewrite dispatch_CONFIG. fold command.
    erewrite bind_some; [| exact Hrun | reflexivity].
    now rewrite app_nil_r.
  - now destruct (config_accepted iv c spr).
Qed.


(** STOP followed by RESUME, in general.  STOP is accepted in every
    state: it sets [paused], clears [scanning] and prints SCAN_PAUSED.  On
    a state whose recorded pause position is layer 0, step 0, the RESUME
    that follows prints SCAN_RESUMED, calls [moveToTop], scans the layers
    0 .. [total_layers s] - 1, every step of each, calls [returnToHome]
    and prints SCAN_COMPLETE.  The number of layers is the sixteen-bit
    quotient the code computes: where it is not positive, no layer is
    scanned and the carriage does not move. *)
Lemma stop_then_resume (s : state) :
  let stopped_state := set_scanning false (set_paused true s) in
  loop (Some "STOP") s =
    Some (tt, stopped_state, [SerialPrintln (TStr "SCAN_PAUSED"); DelayMs 10]) /\
  (wf s -> paused_layer s = 0 -> paused_step s = 0 ->
   let theta := Z.to_nat (theta_steps_per_rev s) in
   let nL := Z.to_nat (total_layers s) in
   let k := Z.to_nat (z_steps_per_layer s) in
   let t :=
     SerialPrintln (TStr "SCAN_RESUMED") ::
     SerialPrintln (TStr "Resuming: Moving to top position...") ::
     DigitalWrite Z_DIR_PIN LOW :: lift_events k nL ++
     DelayMs 500 :: resume_scan_events s ++
     DigitalWrite Z_DIR_PIN HIGH :: lift_events k nL ++
     [DigitalWrite Z_DIR_PIN LOW; SerialPrintln (TStr "SCAN_COMPLETE");
      DelayMs 10] in
   loop (Some "RESUME") stopped_state =
     Some (tt,
           set_scanning false
             (set_paused false
                (upd (turned (theta_steps_per_rev s) (current_theta_step s)
                        (nL * theta))
                   (nL * theta + polls s) s)),
           t) /\
   moveToTop s = Some (tt, s, DigitalWrite Z_DIR_PIN LOW :: lift_events k nL) /\
   serial_lines t =
     [TStr "SCAN_RESUMED"] ::
     [TStr "Resuming: Moving to top position..."] ::
     full_scan_lines s (total_layers s) (polls s) ++
     [[TStr "SCAN_COMPLETE"]]).
Proof.
  intros stopped_state. split; [apply loop_STOP|].
  intros W H0 H1 theta nL k t. repeat split.
  - assert (Ws : wf stopped_state) by (destruct W; constructor; assumption).
    exact (loop_RESUME stopped_state Ws eq_refl H0 H1).
  - apply moveToTop_run. destruct W; lia.
  - unfold serial_lines, t.
    rewrite !lines_println. cbn [lines_from].
    rewrite lines_lift. cbn [lines_from].
    rewrite lines_resume_scan. cbn [lines_from].
    rewrite lines_lift. cbn [lines_from prepend fst snd app].
    reflexivity.
Qed.

End Sketch.

(** ** Concrete runs *)

Example config_assigns_in_order :
  option_map
    (fun r => let s := snd (fst r) in
              (theta_steps_per_rev s, z_travel_mm s, z_steps_per_mm s,
               z_steps_per_layer s, scan_delay_ms s, center_distance_cm s,
               steps_per_rev s))
    (session SketchVL53L0X demo_toFloat demo_sensor demo_uninit
       ["config,4,6,7,8,9,10,11"] initial_state) =
  Some (4, 6, 7, 8, 9, FNum 10, 11).
Proof. vm_compute. reflexivity. Qed.

Example config_rejects_large_theta :
  option_map (fun r => (snd (fst r), serial_lines (snd r)))
    (session SketchVL53L0X demo_toFloat demo_sensor demo_uninit
       ["CONFIG,3601,6,7,8,9,10,11"] initial_state) =
  Some (initial_state,
        [[TStr "CONFIG_ERROR: theta_steps must be between "; TInt 4;
          TStr " and "; TInt 3600]]).
Proof. vm_compute. reflexivity. Qed.

Example scan_step_refused_when_idle :
  option_map (fun r => serial_lines (snd r))
    (session SketchVL53L0X demo_toFloat demo_sensor demo_uninit
       ["SCAN_STEP"] initial_state) =
  Some [[TStr "ERROR: Not in step-by-step scan mode!"]].
Proof. vm_compute. reflexivity. Qed.

Example rotate_forward :
  option_map (fun r => current_theta_step (snd (fst r)))
    (session SketchVL53L0X demo_toFloat demo_sensor demo_uninit
       ["ROTATE,250"] initial_state) = Some 50.
Proof. vm_compute. reflexivity. Qed.

Lemma wf_small_state : wf small_state.
Proof. constructor; cbv; repeat split; discriminate. Qed.

Lemma wf_scanning_state : wf scanning_state.
Proof. constructor; cbv; repeat split; discriminate. Qed.

(** C1. Pause/resume position bookkeeping, at a failing input: after three
    scan steps the scan stands at layer 0, step 3, yet STOP leaves
    [paused_layer] and [paused_step] at 0, and RESUME moves to the top and
    scans again from layer 0, step 0, sending once more the three points
    already sent. *)
Theorem stop_records_no_position :
  let run := session SketchVL53L0X demo_toFloat demo_sensor demo_uninit in
  match run ["CONFIG,4,2,2,2,0,10,4"; "START";
             "SCAN_STEP"; "SCAN_STEP"; "SCAN_STEP"; "STOP"] initial_state with
  | Some (_, s, t) =>
      positions (serial_lines t) = [(0, 0); (0, 1); (0, 2)] /\
      (scan_current_layer s, scan_current_step s) = (0, 3) /\
      (paused_layer s, paused_step s) = (0, 0) /\
      match run ["RESUME"] s with
      | Some (_, _, t') =>
          firstn 2 (serial_lines t') =
            [[TStr "SCAN_RESUMED"];
             [TStr "Resuming: Moving to top position..."]] /\
          positions (serial_lines t') =
            [(0, 0); (0, 1); (0, 2); (0, 3); (1, 0); (1, 1); (1, 2); (1, 3)]
      | None => False
      end
  | None => False
  end.
Proof. vm_compute. repeat split. Qed.

(** C4. Point streaming format, at a failing input: the first point line of
    a step-by-step scan carries step 0 and the angle of step 1. *)
Theorem scan_step_angle_of_next_step :
  option_map (fun r => serial_lines (snd r))
    (session SketchVL53L0X demo_toFloat demo_sensor demo_uninit
       ["START"; "SCAN_STEP"] initial_state) =
    Some [[TStr "SCAN_START"];
          point_line 0 0 (FNum 10) (f_angle (Z.rem 1 200) 200)] /\
  f_angle (Z.rem 1 200) 200 = FNum (9 # 5) /\
  f_angle (Z.rem 0 200) 200 = FNum 0.
Proof. vm_compute. repeat split. Qed.

(** C8. Theta position invariant, at a failing input: on freshly started
    firmware ([theta_steps_per_rev] = 200, [current_theta_step] = 0) the
    command ROTATE_CCW,500 leaves [current_theta_step] at -100. *)
Theorem rotate_ccw_leaves_range :
  option_map (fun r => current_theta_step (snd (fst r)))
    (session SketchVL53L0X demo_toFloat demo_sensor demo_uninit
       ["ROTATE_CCW,500"] initial_state) = Some (-100) /\
  theta_steps_per_rev initial_state = 200 /\
  current_theta_step initial_state = 0.
Proof. vm_compute. repeat split. Qed.

(** The sensor of the two sketches: the scan step of the TF-Luna sketch
    polls the TF-Luna, that of the VL53L0X sketch polls the VL53L0X, and
    every poll of every session of a sketch is a poll of the sensor of that
    sketch. *)
Lemma sensor_selected_by_sketch :
  (forall toFloat sensor uninit,
      option_map (fun r => polled (snd r))
        (session SketchTFLuna toFloat sensor uninit ["START"; "SCAN_STEP"]
           initial_state) = Some [TF_Luna]) /\
  (forall toFloat sensor uninit,
      option_map (fun r => polled (snd r))
        (session SketchVL53L0X toFloat sensor uninit ["START"; "SCAN_STEP"]
           initial_state) = Some [VL53L0X]) /\
  (forall sk toFloat sensor uninit lines s0,
      match session sk toFloat sensor uninit lines s0 with
      | Some (_, _, t) => Forall (eq (sensor_of sk)) (polled t)
      | None => True
      end).
Proof.
  split; [|split].
  - intros tf sn un. exact (start_scan_step_polled SketchTFLuna tf sn un).
  - intros tf sn un. exact (start_scan_step_polled SketchVL53L0X tf sn un).
  - intros sk tf sn un ls s0.
    destruct (session sk tf sn un ls s0) as [[[u s] t]|] eqn:E; [|exact I].
    destruct u.
    exact (emits_polls_of_sketch sk tf sn un ls s0 tt s t E).
Qed.

(** C10. STOP followed by RESUME, at a failing input: on freshly started
    firmware the layer count [(z_travel_mm * z_steps_per_mm) /
    z_steps_per_layer] of the defaults, 100 in exact arithmetic, is -63 on
    the sixteen-bit [int]; STOP followed by RESUME prints SCAN_PAUSED,
    SCAN_RESUMED, the message of the move to the top and SCAN_COMPLETE, and
    between them it issues no motor pulse, polls no sensor and prints no
    point. *)
Theorem stop_resume_scans_nothing_at_boot :
  (z_travel_mm initial_state, z_steps_per_mm initial_state,
   z_steps_per_layer initial_state) = (200, 200, 400) /\
  Z.quot (200 * 200) 400 = 100 /\
  total_layers initial_state = -63 /\
  match
    session SketchVL53L0X demo_toFloat demo_sensor demo_uninit
      ["STOP"; "RESUME"] initial_state
  with
  | Some (_, s, t) =>
      serial_lines t =
        [[TStr "SCAN_PAUSED"]; [TStr "SCAN_RESUMED"];
         [TStr "Resuming: Moving to top position..."];
         [TStr "SCAN_COMPLETE"]] /\
      step_writes t = [] /\
      polled t = [] /\
      positions (serial_lines t) = [] /\
      (paused s, scanning s) = (false, false)
  | None => False
  end.
Proof. vm_compute. repeat split. Qed.

(** ** Witnesses *)


Lemma direct_pulse_generation_witness :
  rotateMotorX 3 initial_state = Some (tt, initial_state, pulses X_STEP_PIN 3).
Proof.
  apply (direct_pulse_generation SketchVL53L0X demo_toFloat demo_sensor
           demo_uninit 3 initial_state (Some "SCAN_STEP")).
  discriminate.
Defined.

Lemma lift_round_trip_witness :
  exists t,
    session SketchVL53L0X demo_toFloat demo_sensor demo_uninit
      ["MOVE_TO_TOP"; "HOME"] small_state = Some (tt, small_state, t) /\
    z_pos (z_run (mkZaxis LOW LOW 0) t) = 0.
Proof.
  apply (lift_round_trip SketchVL53L0X demo_toFloat demo_sensor demo_uninit
           small_state (mkZaxis LOW LOW 0)).
  discriminate.
Defined.

Lemma stop_then_resume_witness :
  exists s t,
    loop SketchVL53L0X demo_toFloat demo_sensor demo_uninit (Some "RESUME")
      (set_scanning false (set_paused true small_state)) = Some (tt, s, t) /\
    positions (serial_lines t) =
      [(0, 0); (0, 1); (0, 2); (0, 3); (1, 0); (1, 1); (1, 2); (1, 3)].
Proof.
  destruct (proj2 (stop_then_resume SketchVL53L0X demo_toFloat demo_sensor
                     demo_uninit small_state)
              wf_small_state eq_refl eq_refl) as (H1 & _ & H3).
  eexists. eexists. split; [exact H1|]. rewrite H3. reflexivity.
Defined.

(** ** Witnesses of the further properties *)

Lemma scan_step_refused_outside_scan_witness :
  loop SketchVL53L0X demo_toFloat demo_sensor demo_uninit (Some "SCAN_STEP")
    initial_state =
  Some (tt, initial_state,
        [SerialPrintln (TStr "ERROR: Not in step-by-step scan mode!")]).
Proof.
  apply scan_step_refused_outside_scan. left. reflexivity.
Defined.

Lemma rotate_forward_keeps_range_witness :
  dispatch SketchVL53L0X demo_toFloat demo_sensor demo_uninit "ROTATE,50"
    (set_current_theta_step (-100) initial_state) =
  Some (FallThrough, set_current_theta_step (-50) initial_state,
        DigitalWrite X_DIR_PIN LOW :: pulses X_STEP_PIN 50 ++
        [SerialPrint (TStr "ROTATED:"); SerialPrintln (TInt 50)]).
Proof.
  apply (rotate_forward_keeps_range SketchVL53L0X demo_toFloat demo_sensor
           demo_uninit "50" (set_current_theta_step (-100) initial_state));
    cbv; congruence.
Defined.

Lemma rotate_there_and_back_witness :
  exists t,
    bind
      (dispatch SketchVL53L0X demo_toFloat demo_sensor demo_uninit "ROTATE,150")
      (fun _ =>
         dispatch SketchVL53L0X demo_toFloat demo_sensor demo_uninit
           "ROTATE_CCW,150")
      initial_state = Some (FallThrough, initial_state, t).
Proof.
  eexists.
  apply (rotate_there_and_back SketchVL53L0X demo_toFloat demo_sensor
           demo_uninit "150" initial_state); cbv; try split; congruence.
Defined.

Lemma rotate_z_moves_carriage_witness :
  exists up,
    dispatch SketchVL53L0X demo_toFloat demo_sensor demo_uninit "ROTATE_Z,30"
      initial_state = Some (FallThrough, initial_state, up) /\
    z_pos (z_run (mkZaxis LOW LOW 0) up) = 30.
Proof.
  destruct (rotate_z_moves_carriage SketchVL53L0X demo_toFloat demo_sensor
              demo_uninit "30" initial_state (mkZaxis LOW LOW 0))
    as (H1 & _ & H3 & _); [reflexivity|].
  eexists. split; [exact H1 | exact H3].
Defined.

Lemma rotate_rejects_nonpositive_count_witness :
  dispatch SketchVL53L0X demo_toFloat demo_sensor demo_uninit "ROTATE,40000"
    initial_state =
  Some (FallThrough, initial_state,
        [SerialPrint (TStr "ROTATE_ERROR: Invalid steps: ");
         SerialPrintln (TStr "40000")]).
Proof.
  apply (rotate_rejects_nonpositive_count SketchVL53L0X demo_toFloat
           demo_sensor demo_uninit "40000" initial_state).
  cbv. congruence.
Defined.

Lemma measurement_commands_witness :
  loop SketchTFLuna demo_toFloat demo_sensor demo_uninit (Some "TEST")
    initial_state =
  Some (tt, set_polls 1 initial_state,
        [SensorPoll TF_Luna; DelayMs 1; DelayMs 1; DelayMs 1;
         SerialPrint (TStr "Distance: ");
         SerialPrintln (TFloat (FNum 100) 2); DelayMs 10]).
Proof.
  apply (measurement_commands SketchTFLuna demo_toFloat demo_sensor
           demo_uninit initial_state).
  discriminate.
Defined.

Lemma config_then_get_config_witness :
  exists s' t1 t2,
    dispatch SketchVL53L0X demo_toFloat demo_sensor demo_uninit
      "CONFIG,4,6,7,8,9,10,11" initial_state = Some (FallThrough, s', t1) /\
    dispatch SketchVL53L0X demo_toFloat demo_sensor demo_uninit "GET_CONFIG" s' =
      Some (FallThrough, s', t2) /\
    serial_lines t2 =
      [[TStr "CURRENT_CONFIG:"; TInt 4; TStr ","; TInt 6; TStr ","; TInt 7;
        TStr ","; TInt 8; TStr ","; TInt 9; TStr ","; TFloat (FNum 10) 1;
        TStr ","; TInt 11]].
Proof.
  apply (config_then_get_config SketchVL53L0X demo_toFloat demo_sensor
           demo_uninit "4,6,7,8,9,10,11" initial_state).
  reflexivity.
Defined.

Lemma scan_steps_within_layer_witness :
  exists s t,
    session SketchVL53L0X demo_toFloat demo_sensor demo_uninit
      ["SCAN_STEP"; "SCAN_STEP"; "SCAN_STEP"] scanning_state = Some (tt, s, t) /\
    positions (serial_lines t) = [(0, 0); (0, 1); (0, 2)].
Proof.
  destruct (scan_steps_within_layer SketchVL53L0X demo_toFloat demo_sensor
              demo_uninit 3 scanning_state wf_scanning_state eq_refl eq_refl)
    as (t & Hrun & Hlines & _); [discriminate | discriminate |].
  eexists. exists t. split; [exact Hrun|]. rewrite Hlines. reflexivity.
Defined.

Lemma resume_motion_totals_witness :
  exists s' t,
    loop SketchVL53L0X demo_toFloat demo_sensor demo_uninit (Some "RESUME")
      (set_paused true small_state) = Some (tt, s', t) /\
    List.length (writes_on X_STEP_PIN t) = 16%nat /\
    z_pos (z_run (mkZaxis LOW LOW 0) t) = -2.
Proof.
  destruct (resume_motion_totals SketchVL53L0X demo_toFloat demo_sensor
              demo_uninit (set_paused true small_state) (mkZaxis LOW LOW 0))
    as (s' & t & Hrun & Hx & _ & _ & Hz);
    [constructor; cbv; repeat split; discriminate
    | reflexivity | reflexivity | reflexivity |].
  exists s', t. split; [exact Hrun|]. split; [rewrite Hx; reflexivity | exact Hz].
Defined.

Lemma step_by_step_scan_complete_witness :
  exists s' t,
    session SketchVL53L0X demo_toFloat demo_sensor demo_uninit
      (repeat "SCAN_STEP" 10) scanning_state = Some (tt, s', t) /\
    scanning s' = false /\
    positions (serial_lines t) =
      [(0, 0); (0, 1); (0, 2); (0, 3); (1, 0); (1, 1); (1, 2); (1, 3)] /\
    last (serial_lines t) [] = [TStr "SCAN_COMPLETE"].
Proof.
  destruct (step_by_step_scan_complete SketchVL53L0X demo_toFloat demo_sensor
              demo_uninit scanning_state (mkZaxis LOW LOW 0)
              wf_scanning_state eq_refl eq_refl eq_refl eq_refl)
    as (s' & t & Hrun & Hs & _ & _ & Hlines & _).
  exists s', t. split; [exact Hrun|]. split; [exact Hs|].
  rewrite Hlines. split; reflexivity.
Defined.

Lemma reachable_after_start :
  reachable SketchVL53L0X demo_toFloat demo_sensor demo_uninit
    (set_step_by_step_mode true (set_scanning true initial_state)).
Proof.
  eapply (reachable_pass _ _ _ _ initial_state (Some "START"));
    [apply reachable_boot | reflexivity].
Qed.

Lemma reachable_scan_flags_witness :
  step_by_step_mode (set_step_by_step_mode true (set_scanning true initial_state))
  = true.
Proof.
  apply (reachable_scan_flags SketchVL53L0X demo_toFloat demo_sensor demo_uninit
           _ reachable_after_start).
  reflexivity.
Defined.

Lemma reachable_config_valid_witness :
  4 <= theta_steps_per_rev
         (set_step_by_step_mode true (set_scanning true initial_state)) <= 3600.
Proof.
  apply (reachable_config_valid SketchVL53L0X demo_toFloat demo_sensor
           demo_uninit _ reachable_after_start).
Defined.

Lemma session_writes_motor_pins_witness :
  exists s t,
    session SketchVL53L0X demo_toFloat demo_sensor demo_uninit
      ["ROTATE,2"; "ROTATE_Z,1"] initial_state = Some (tt, s, t) /\
    pins_written t = [5; 2; 2; 2; 2; 7; 4; 4] /\
    ~ In X_ENABLE_PIN (pins_written t).
Proof.
  eexists. eexists. split; [reflexivity|]. split; [reflexivity|].
  eapply (session_writes_motor_pins SketchVL53L0X demo_toFloat demo_sensor
            demo_uninit ["ROTATE,2"; "ROTATE_Z,1"] initial_state).
  reflexivity.
Defined.

Lemma performScan_guards_witness :
  option_map (fun r => serial_lines (snd r))
    (performScan SketchVL53L0X demo_sensor (set_scanning true initial_state)) =
  Some [[TStr "ERROR: zLayers="; TInt (-63); TStr " (z_travel_mm="; TInt 200;
         TStr ", z_steps_per_mm="; TInt 200; TStr ", z_steps_per_layer=";
         TInt 400; TStr "), cannot scan!"]].
Proof.
  rewrite (proj2 (performScan_guards SketchVL53L0X demo_sensor
                    (set_scanning true initial_state)) eq_refl);
    [reflexivity | discriminate].
Defined.

Lemma sliced_delay_witness :
  delay_loop 5 45 (set_scanning true initial_state) =
  Some (tt, set_scanning true initial_state, repeat (DelayMs 10) 5).
Proof.
  apply (sliced_delay demo_sensor demo_uninit 5 45
           (set_scanning true initial_state)); cbv; try split; congruence.
Defined.

Lemma config_fields_witness :
  parse_config demo_toFloat demo_uninit "CONFIG,4,6,7,8,9" =
  ([4; 6; 7; 8; 9; 0], FNum (103 # 10), 1600).
Proof.
  apply (config_fields demo_toFloat demo_uninit "4" "6" "7" "8" "9" "10" "11").
  - repeat constructor.
  - discriminate.
  - discriminate.
Defined.

Lemma config_single_field_reads_unset_cells_witness :
  parse_config demo_toFloat (fun _ => 7) "CONFIG,200" =
  ([200; 7; 7; 7; 7; 7], FNum (103 # 10), 1600).
Proof.
  apply (config_single_field_reads_unset_cells SketchVL53L0X demo_toFloat
           demo_sensor (fun _ => 7) "200" initial_state).
  reflexivity.
Defined.

Lemma reachable_pass_returns_witness :
  exists s' t,
    loop SketchVL53L0X demo_toFloat demo_sensor demo_uninit (Some "HOME")
      (set_step_by_step_mode true (set_scanning true initial_state)) =
    Some (tt, s', t) /\
    reachable SketchVL53L0X demo_toFloat demo_sensor demo_uninit s'.
Proof.
  apply (reachable_pass_returns SketchVL53L0X demo_toFloat demo_sensor
           demo_uninit _ (Some "HOME") reachable_after_start).
Defined.

(** * The Grbl firmware *)

(** ** EEPROM *)

Lemma land_lxor_subset old v :
  Z.land (Z.lxor old v) v = 0 -> Z.land old v = v.
Proof.
  intros H. apply Z.bits_inj'. intros i Hi.
  assert (E : Z.testbit (Z.land (Z.lxor old v) v) i = false)
    by (rewrite H; apply Z.bits_0).
  rewrite Z.land_spec, Z.lxor_spec in E. rewrite Z.land_spec.
  destruct (Z.testbit old i), (Z.testbit v i); try reflexivity; discriminate.
Qed.

Lemma put_cell addr v m a :
  ee_cell (eeprom_put_char addr v m) a = if a =? addr then v else ee_cell m a.
Proof.
  unfold eeprom_put_char. cbv zeta.
  destruct (Z.eqb_spec (Z.land (Z.lxor (ee_cell m addr) v) v) 0) as [E|E];
    cbn [negb].
  - destruct (Z.eqb_spec (Z.lxor (ee_cell m addr) v) 0) as [D|D]; cbn [negb].
    + apply Z.lxor_eq in D. destruct (Z.eqb_spec a addr); congruence.
    + cbn [ee_program ee_cell]. destruct (Z.eqb_spec a addr); [|reflexivity].
      now apply land_lxor_subset.
  - destruct (Z.eqb_spec v 255) as [F|F]; cbn [negb ee_program ee_cell];
      destruct (Z.eqb_spec a addr); congruence.
Qed.

(** X20. [eeprom_put_char]: after the call the cell reads back the value
    written and every other cell reads as before.  When the cell already
    holds the value nothing is programmed; otherwise exactly one
    programming operation is started, and it is a write-only operation
    exactly when no bit of the cell has to go from 0 to 1. *)
Theorem eeprom_put_char_stores (addr v : Z) (m : eeprom) :
  eeprom_get_char addr (eeprom_put_char addr v m) = v /\
  (forall a, a <> addr ->
     eeprom_get_char a (eeprom_put_char addr v m) = eeprom_get_char a m) /\
  (ee_cell m addr = v -> eeprom_put_char addr v m = m) /\
  (ee_cell m addr <> v ->
   exists op, ee_ops (eeprom_put_char addr v m) = ee_ops m ++ [op] /\
     (Z.land (Z.lxor (ee_cell m addr) v) v = 0 <-> op = WriteOnly addr v)).
Proof.
  split; [|split; [|split]].
  - unfold eeprom_get_char. rewrite put_cell, Z.eqb_refl. reflexivity.
  - intros a Ha. unfold eeprom_get_char. rewrite put_cell.
    destruct (Z.eqb_spec a addr); congruence.
  - intros E. unfold eeprom_put_char. cbv zeta.
    rewrite E, Z.lxor_nilpotent. reflexivity.
  - intros N. unfold eeprom_put_char. cbv zeta.
    destruct (Z.eqb_spec (Z.land (Z.lxor (ee_cell m addr) v) v) 0) as [E|E];
      cbn [negb].
    + destruct (Z.eqb_spec (Z.lxor (ee_cell m addr) v) 0) as [D|D]; cbn [negb].
      * apply Z.lxor_eq in D. contradiction.
      * eexists. split; [reflexivity|]. tauto.
    + destruct (Z.eqb_spec v 255) as [F|F]; cbn [negb];
        (eexists; split; [reflexivity|]); split; intros; try contradiction;
        discriminate.
Qed.

Lemma checksum_step_byte c b : is_byte (checksum_step c b).
Proof. unfold checksum_step, is_byte. cbv zeta. apply Z.mod_pos_bound. lia. Qed.

Lemma checksum_step_nonzero c b :
  is_byte c -> checksum_step c b = ((if c =? 0 then 0 else 1) + b) mod 256.
Proof.
  unfold is_byte, checksum_step. intros Hc. cbv zeta.
  destruct (Z.eqb_spec c 0) as [->|N]; [reflexivity|].
  replace (negb (Z.shiftl c 1 =? 0)) with true; [reflexivity|].
  symmetry. apply negb_true_iff, Z.eqb_neq. rewrite Z.shiftl_mul_pow2 by lia. lia.
Qed.

Lemma block_checksum_byte l c :
  is_byte c -> is_byte (fold_left checksum_step l c).
Proof.
  revert c. induction l as [|b l IH]; intros c Hc; cbn [fold_left]; [exact Hc|].
  apply IH, checksum_step_byte.
Qed.

Lemma block_checksum_app l b :
  block_checksum (l ++ [b]) =
  ((if block_checksum l =? 0 then 0 else 1) + b) mod 256.
Proof.
  unfold block_checksum. rewrite fold_left_app. cbn [fold_left].
  apply checksum_step_nonzero, block_checksum_byte. unfold is_byte. lia.
Qed.

Lemma next_addr_small a : 0 <= a -> a + 1 < 65536 -> next_addr a = a + 1.
Proof. intros. unfold next_addr. apply Z.mod_small. lia. Qed.

Lemma memcpy_to_loop_spec source :
  forall dest c m,
    0 <= dest -> dest + Z.of_nat (List.length source) < 65536 ->
    exists m',
      memcpy_to_loop dest source c m =
        (dest + Z.of_nat (List.length source), fold_left checksum_step source c, m') /\
      holds m' dest source /\
      (forall a, a < dest \/ dest + Z.of_nat (List.length source) <= a ->
                 ee_cell m' a = ee_cell m a).
Proof.
  induction source as [|b rest IH]; intros dest c m Hd Hl.
  - exists m. cbn [memcpy_to_loop List.length fold_left]. rewrite Z.add_0_r.
    split; [reflexivity|]. split; [|reflexivity].
    intros k Hk. cbn in Hk. lia.
  - cbn [List.length] in Hl. cbn [memcpy_to_loop fold_left].
    rewrite next_addr_small by lia.
    destruct (IH (dest + 1) (checksum_step c b) (eeprom_put_char dest b m)
                ltac:(lia) ltac:(lia)) as (m' & Hrun & Hh & Ho).
    exists m'. split; [|split].
    + rewrite Hrun. cbn [List.length]. f_equal. f_equal. lia.
    + intros k Hk. destruct k as [|k].
      * rewrite Z.add_0_r. rewrite Ho by lia. rewrite put_cell, Z.eqb_refl.
        reflexivity.
      * cbn [nth]. cbn [List.length] in Hk.
        replace (dest + Z.of_nat (S k)) with (dest + 1 + Z.of_nat k) by lia.
        apply Hh. lia.
    + intros a Ha. cbn [List.length] in Ha. rewrite Ho by lia.
      rewrite put_cell. destruct (Z.eqb_spec a dest); [lia | reflexivity].
Qed.

Lemma memcpy_from_loop_spec l :
  forall source c m,
    0 <= source -> source + Z.of_nat (List.length l) < 65536 ->
    holds m source l ->
    memcpy_from_loop source (List.length l) c m =
      (l, source + Z.of_nat (List.length l), fold_left checksum_step l c).
Proof.
  induction l as [|b rest IH]; intros source c m Hs Hl Hh.
  - cbn [memcpy_from_loop List.length fold_left]. now rewrite Z.add_0_r.
  - cbn [List.length] in Hl. cbn [memcpy_from_loop List.length fold_left].
    cbv zeta. rewrite next_addr_small by lia.
    assert (Hb : eeprom_get_char source m = b).
    { specialize (Hh 0%nat ltac:(cbn; lia)). cbn in Hh.
      now rewrite Z.add_0_r in Hh. }
    rewrite Hb. rewrite IH; [| lia | lia |].
    + f_equal. f_equal. lia.
    + intros k Hk. specialize (Hh (S k) ltac:(cbn; lia)). cbn [nth] in Hh.
      rewrite <- Hh. f_equal. lia.
Qed.

Lemma holds_put m a l x v :
  x < a \/ a + Z.of_nat (List.length l) <= x ->
  holds m a l -> holds (eeprom_put_char x v m) a l.
Proof.
  intros Hx Hh k Hk. rewrite put_cell.
  destruct (Z.eqb_spec (a + Z.of_nat k) x); [lia | now apply Hh].
Qed.

Lemma holds_corrupt m a l : holds (corrupt a l m) a l.
Proof.
  intros k Hk. cbn [corrupt ee_cell].
  replace ((a <=? a + Z.of_nat k) && (a + Z.of_nat k <? a + Z.of_nat (List.length l)))
    with true by (symmetry; apply andb_true_iff; split;
                  [apply Z.leb_le | apply Z.ltb_lt]; lia).
  f_equal. lia.
Qed.

Lemma holds_app m a l1 l2 :
  holds m a l1 -> holds m (a + Z.of_nat (List.length l1)) l2 ->
  holds m a (l1 ++ l2).
Proof.
  intros H1 H2 k Hk. rewrite length_app in Hk.
  destruct (Nat.lt_ge_cases k (List.length l1)) as [Hlt|Hge].
  - rewrite app_nth1 by exact Hlt. now apply H1.
  - rewrite app_nth2 by exact Hge.
    specialize (H2 (k - List.length l1)%nat ltac:(lia)).
    rewrite <- H2. f_equal. lia.
Qed.

Lemma holds_tail m a l1 l2 :
  holds m a (l1 ++ l2) -> holds m (a + Z.of_nat (List.length l1)) l2.
Proof.
  intros H k Hk.
  assert (Hk' : (List.length l1 + k < List.length (l1 ++ l2))%nat)
    by (rewrite length_app; lia).
  specialize (H _ Hk'). rewrite app_nth2_plus in H. rewrite <- H. f_equal. lia.
Qed.

Lemma memcpy_to_spec destination source m :
  0 <= destination ->
  destination + Z.of_nat (List.length source) < 65536 ->
  let m' := memcpy_to_eeprom_with_checksum destination source m in
  holds m' destination source /\
  ee_cell m' (destination + Z.of_nat (List.length source)) =
    block_checksum source /\
  (forall a,
      a < destination \/ destination + Z.of_nat (List.length source) < a ->
      ee_cell m' a = ee_cell m a).
Proof.
  intros Hd Hl m'.
  destruct (memcpy_to_loop_spec source destination 0 m Hd Hl)
    as (m1 & Hrun & Hh & Ho).
  assert (Em : m' = eeprom_put_char (destination + Z.of_nat (List.length source))
                      (fold_left checksum_step source 0) m1)
    by (unfold m', memcpy_to_eeprom_with_checksum; now rewrite Hrun).
  rewrite Em. split; [|split].
  - apply holds_put; [lia | exact Hh].
  - rewrite put_cell, Z.eqb_refl. reflexivity.
  - intros a Ha. rewrite put_cell.
    destruct (Z.eqb_spec a (destination + Z.of_nat (List.length source)));
      [lia|]. apply Ho. lia.
Qed.

Lemma memcpy_from_spec source l m :
  0 <= source -> source + Z.of_nat (List.length l) < 65536 ->
  holds m source l ->
  memcpy_from_eeprom_with_checksum source (List.length l) m =
    (l, if block_checksum l =? ee_cell m (source + Z.of_nat (List.length l))
        then 1 else 0).
Proof.
  intros Hs Hl Hh. unfold memcpy_from_eeprom_with_checksum.
  now rewrite (memcpy_from_loop_spec l source 0 m Hs Hl Hh).
Qed.

(** X21. A block that [memcpy_to_eeprom_with_checksum] has written inside
    the EEPROM is read back unchanged by [memcpy_from_eeprom_with_checksum],
    which returns 1.  The cell after the block holds the checksum of the
    block, and the cells outside the block and its checksum are as they
    were. *)
Theorem eeprom_checksum_round_trip (destination : Z) (source : list Z)
    (m : eeprom) :
  0 <= destination ->
  destination + Z.of_nat (List.length source) < EEPROM_SIZE ->
  let m' := memcpy_to_eeprom_with_checksum destination source m in
  memcpy_from_eeprom_with_checksum destination (List.length source) m' =
    (source, 1) /\
  eeprom_get_char (destination + Z.of_nat (List.length source)) m' =
    block_checksum source /\
  (forall a,
      a < destination \/ destination + Z.of_nat (List.length source) < a ->
      eeprom_get_char a m' = eeprom_get_char a m).
Proof.
  intros Hd Hl m'. unfold EEPROM_SIZE in Hl.
  destruct (memcpy_to_spec destination source m Hd ltac:(lia)) as (Hh & Hc & Ho).
  fold m' in Hh, Hc, Ho.
  split; [|split].
  - rewrite (memcpy_from_spec destination source m' Hd ltac:(lia) Hh).
    now rewrite Hc, Z.eqb_refl.
  - exact Hc.
  - exact Ho.
Qed.

Lemma tail_checksum p b1 b :
  0 < b1 < 255 -> block_checksum (p ++ [b1; b]) = (1 + b) mod 256.
Proof.
  intros Hb. change (p ++ [b1; b]) with (p ++ [b1] ++ [b]).
  rewrite app_assoc, block_checksum_app.
  replace (block_checksum (p ++ [b1]) =? 0) with false; [reflexivity|].
  symmetry. apply Z.eqb_neq. rewrite block_checksum_app.
  destruct (block_checksum p =? 0); rewrite Z.mod_small; lia.
Qed.

(** X22. What the checksum does not detect.  The checksum is updated with
    the logical or [||], so that the checksum of a block whose last byte but
    one is neither 0 nor 255 is the last byte plus 1, whatever the bytes
    before.  When all the bytes of a stored block but the last two are
    replaced in the EEPROM, [memcpy_from_eeprom_with_checksum] returns the
    replaced block and 1. *)
Theorem eeprom_checksum_misses_corruption (destination : Z)
    (head head' : list Z) (b1 b : Z) (m : eeprom) :
  0 <= destination ->
  destination + Z.of_nat (List.length head) + 2 < EEPROM_SIZE ->
  List.length head' = List.length head -> 0 < b1 < 255 ->
  let stored := memcpy_to_eeprom_with_checksum destination (head ++ [b1; b]) m in
  block_checksum (head ++ [b1; b]) = (1 + b) mod 256 /\
  block_checksum (head' ++ [b1; b]) = block_checksum (head ++ [b1; b]) /\
  memcpy_from_eeprom_with_checksum destination (List.length head + 2)
    (corrupt destination head' stored) = (head' ++ [b1; b], 1).
Proof.
  intros Hd Hl Hlen Hb stored. unfold EEPROM_SIZE in Hl.
  split; [now apply tail_checksum|].
  split; [now rewrite !tail_checksum|].
  assert (Hlen2 : List.length (head ++ [b1; b]) = (List.length head + 2)%nat)
    by (rewrite length_app; reflexivity).
  destruct (memcpy_to_spec destination (head ++ [b1; b]) m Hd
              ltac:(rewrite Hlen2; lia)) as (Hh & Hc & _).
  fold stored in Hh, Hc. rewrite Hlen2 in Hc.
  assert (Hout : forall x, destination + Z.of_nat (List.length head) <= x ->
                           ee_cell (corrupt destination head' stored) x =
                           ee_cell stored x).
  { intros x Hx. cbn [corrupt ee_cell]. rewrite Hlen.
    replace (x <? destination + Z.of_nat (List.length head)) with false
      by (symmetry; apply Z.ltb_ge; lia).
    now rewrite andb_false_r. }
  assert (Hh' : holds (corrupt destination head' stored) destination
                  (head' ++ [b1; b])).
  { apply holds_app; [apply holds_corrupt|].
    rewrite Hlen. intros k Hk. rewrite Hout by lia.
    apply (holds_tail stored destination head [b1; b] Hh k Hk). }
  replace (List.length head + 2)%nat with (List.length (head' ++ [b1; b]))
    by (rewrite length_app, Hlen; reflexivity).
  rewrite (memcpy_from_spec destination (head' ++ [b1; b]) _ Hd
             ltac:(rewrite length_app, Hlen; cbn [List.length]; lia) Hh').
  rewrite length_app, Hlen. cbn [List.length].
  rewrite Hout by lia.
  replace (Z.of_nat (List.length head + 2)) with
    (Z.of_nat (List.length head + 2)%nat) by reflexivity.
  rewrite Hc, !tail_checksum by exact Hb. now rewrite Z.eqb_refl.
Qed.

(** ** Serial ring buffers *)

Lemma mod_diff size a b :
  0 <= a < size -> 0 <= b < size ->
  (a - b) mod size = if b <=? a then a - b else a - b + size.
Proof.
  intros Ha Hb. destruct (Z.leb_spec b a).
  - apply Z.mod_small. lia.
  - rewrite <- (Z.mod_add (a - b) 1 size) by lia.
    rewrite Z.mul_1_l. apply Z.mod_small. lia.
Qed.

Lemma mod_sum size a k :
  0 <= a < size -> 0 <= k < size ->
  (a + k) mod size = if a + k <? size then a + k else a + k - size.
Proof.
  intros Ha Hk. destruct (Z.ltb_spec (a + k) size).
  - apply Z.mod_small. lia.
  - replace (a + k) with (a + k - size + 1 * size) at 1 by lia.
    rewrite Z.mod_add by lia. apply Z.mod_small. lia.
Qed.

Lemma ring_push size buffer head tail data :
  1 < size -> 0 <= head < size -> 0 <= tail < size ->
  (head + 1) mod size <> tail ->
  ring size (fun i => if i =? head then data else buffer i)
    ((head + 1) mod size) tail =
  ring size buffer head tail ++ [data].
Proof.
  intros Hs Hh Ht Hfull. unfold ring.
  pose proof (mod_diff size head tail Hh Ht) as Hd.
  pose proof (mod_sum size head 1 Hh ltac:(lia)) as Hn.
  assert (Hn' : 0 <= (head + 1) mod size < size)
    by (apply Z.mod_pos_bound; lia).
  pose proof (mod_diff size ((head + 1) mod size) tail Hn' Ht) as Hd'.
  assert (Hc : ((head + 1) mod size - tail) mod size =
               (head - tail) mod size + 1).
  { rewrite Hd', Hd. rewrite Hn in *.
    destruct (Z.ltb_spec (head + 1) size), (Z.leb_spec tail head);
      repeat match goal with |- context [?x <=? ?y] =>
               destruct (Z.leb_spec x y) end; lia. }
  rewrite Hc.
  assert (Hpos : 0 <= (head - tail) mod size < size)
    by (apply Z.mod_pos_bound; lia).
  rewrite Z2Nat.inj_add by lia. change (Z.to_nat 1) with 1%nat.
  rewrite Nat.add_1_r, seq_S, map_app. cbn [map Nat.add]. f_equal.
  - apply map_ext_in. intros k Hk. apply in_seq in Hk.
    destruct (Z.eqb_spec ((tail + Z.of_nat k) mod size) head) as [E|E];
      [|reflexivity].
    exfalso. rewrite (mod_sum size tail (Z.of_nat k)) in E by lia.
    rewrite Hd in Hk.
    destruct (Z.ltb_spec (tail + Z.of_nat k) size), (Z.leb_spec tail head); lia.
  - f_equal.
    replace ((tail + Z.of_nat (Z.to_nat ((head - tail) mod size))) mod size)
      with head; [now rewrite Z.eqb_refl|].
    rewrite Z2Nat.id by lia. rewrite (mod_sum size tail) by lia. rewrite Hd.
    destruct (Z.leb_spec tail head);
      match goal with |- context [?x <? ?y] => destruct (Z.ltb_spec x y) end;
      lia.
Qed.

Lemma ring_pop size buffer head tail :
  1 < size -> 0 <= head < size -> 0 <= tail < size -> head <> tail ->
  ring size buffer head tail =
  buffer tail :: ring size buffer head ((tail + 1) mod size).
Proof.
  intros Hs Hh Ht Hne. unfold ring.
  pose proof (mod_diff size head tail Hh Ht) as Hd.
  pose proof (mod_sum size tail 1 Ht ltac:(lia)) as Hn.
  assert (Hn' : 0 <= (tail + 1) mod size < size)
    by (apply Z.mod_pos_bound; lia).
  pose proof (mod_diff size head ((tail + 1) mod size) Hh Hn') as Hd'.
  assert (Hc : (head - tail) mod size =
               (head - (tail + 1) mod size) mod size + 1).
  { rewrite Hd', Hd. rewrite Hn in *.
    destruct (Z.ltb_spec (tail + 1) size), (Z.leb_spec tail head);
      repeat match goal with |- context [?x <=? ?y] =>
               destruct (Z.leb_spec x y) end; lia. }
  rewrite Hc.
  assert (Hpos : 0 <= (head - (tail + 1) mod size) mod size < size)
    by (apply Z.mod_pos_bound; lia).
  rewrite Z2Nat.inj_add by lia. change (Z.to_nat 1) with 1%nat.
  rewrite Nat.add_1_r. cbn [seq map]. f_equal.
  - f_equal. rewrite Z.add_0_r. apply Z.mod_small. lia.
  - rewrite <- seq_shift, map_map. apply map_ext_in. intros k Hk.
    apply in_seq in Hk. f_equal.
    rewrite Zplus_mod_idemp_l. f_equal. lia.
Qed.

Lemma ring_length size buffer head tail :
  List.length (ring size buffer head tail) = Z.to_nat ((head - tail) mod size).
Proof. unfold ring. now rewrite length_map, length_seq. Qed.

Lemma ring_empty size buffer head : 0 < size -> ring size buffer head head = [].
Proof. intros. unfold ring. now rewrite Z.sub_diag, Z.mod_0_l by lia. Qed.

Lemma next_index size i :
  1 < size <= 256 -> 0 <= i < size ->
  (if u8 (i + 1) =? size then 0 else u8 (i + 1)) = (i + 1) mod size.
Proof.
  intros Hs Hi. unfold u8. rewrite (mod_sum size i 1) by lia.
  destruct (Z.eq_dec (i + 1) size) as [E|E].
  - destruct (Z.eq_dec size 256) as [->|N].
    + replace (i + 1) with 256 by lia. reflexivity.
    + rewrite (Z.mod_small (i + 1)) by lia.
      rewrite E, Z.eqb_refl, Z.ltb_irrefl. lia.
  - rewrite (Z.mod_small (i + 1)) by lia.
    replace (i + 1 =? size) with false by (symmetry; apply Z.eqb_neq; lia).
    replace (i + 1 <? size) with true by (symmetry; apply Z.ltb_lt; lia).
    reflexivity.
Qed.

Lemma count_is_length size head tail :
  1 < size <= 256 -> 0 <= head < size -> 0 <= tail < size ->
  (if tail <=? head then u8 (head - tail) else u8 (size - (tail - head))) =
  (head - tail) mod size.
Proof.
  intros Hs Hh Ht. rewrite (mod_diff size head tail Hh Ht). unfold u8.
  destruct (Z.leb_spec tail head); rewrite Z.mod_small; lia.
Qed.

Lemma full_iff size head tail :
  1 < size -> 0 <= head < size -> 0 <= tail < size ->
  (head + 1) mod size = tail <-> (head - tail) mod size = size - 1.
Proof.
  intros Hs Hh Ht. rewrite (mod_sum size head 1) by lia.
  rewrite (mod_diff size head tail) by lia.
  destruct (Z.ltb_spec (head + 1) size), (Z.leb_spec tail head); lia.
Qed.

Lemma serial_rx_isr_ordinary cmd mc_reset data st :
  0 <= serial_rx_buffer_head st < 128 -> ordinary cmd data ->
  serial_rx_isr cmd mc_reset data st =
  if negb ((serial_rx_buffer_head st + 1) mod 128 =? serial_rx_buffer_tail st)
  then
    mkSerial
      (fun i => if i =? serial_rx_buffer_head st then data
                else serial_rx_buffer st i)
      ((serial_rx_buffer_head st + 1) mod 128)
      (serial_rx_buffer_tail st) (serial_tx_buffer st)
      (serial_tx_buffer_head st) (serial_tx_buffer_tail st)
      (sys_rt_exec_state st) (UDRIE0 st)
  else st.
Proof.
  intros Hh (O1 & O2 & O3 & O4 & O5).
  unfold serial_rx_isr, RX_BUFFER_SIZE.
  repeat match goal with
         | |- context [data =? ?c] =>
             replace (data =? c) with false by (symmetry; now apply Z.eqb_neq)
         end.
  cbv zeta. rewrite (next_index 128) by lia. reflexivity.
Qed.

(** X23. The receive buffer is a queue of at most 127 bytes.
    [serial_get_rx_buffer_count] is the number of bytes received and not
    yet read.  The receive interrupt appends a byte that is no real-time
    command when there is room and drops it when the buffer is full;
    [serial_read] returns [SERIAL_NO_DATA] when the queue is empty and
    removes its oldest byte otherwise; [serial_reset_read_buffer] empties
    it.  None of them touches the bytes waiting to be sent. *)
Theorem serial_rx_is_a_queue (cmd : realtime_chars)
    (mc_reset : serial -> serial) (st : serial) :
  serial_ok st ->
  serial_get_rx_buffer_count st = Z.of_nat (List.length (rx_pending st)) /\
  serial_get_rx_buffer_count st <= RX_BUFFER_SIZE - 1 /\
  (forall data,
      ordinary cmd data ->
      let st' := serial_rx_isr cmd mc_reset data st in
      (serial_get_rx_buffer_count st < RX_BUFFER_SIZE - 1 ->
       rx_pending st' = rx_pending st ++ [data]) /\
      (serial_get_rx_buffer_count st = RX_BUFFER_SIZE - 1 -> st' = st) /\
      tx_pending st' = tx_pending st /\ serial_ok st') /\
  match rx_pending st with
  | [] => serial_read st = (SERIAL_NO_DATA, st)
  | data :: rest =>
      exists st',
        serial_read st = (data, st') /\ rx_pending st' = rest /\
        tx_pending st' = tx_pending st /\ serial_ok st'
  end /\
  rx_pending (serial_reset_read_buffer st) = [] /\
  tx_pending (serial_reset_read_buffer st) = tx_pending st.
Proof.
  intros Hok. assert (Hok' := Hok).
  unfold serial_ok, RX_BUFFER_SIZE, TX_BUFFER_SIZE in Hok'.
  destruct Hok' as (Hh & Ht & Hth & Htt).
  unfold serial_ok, RX_BUFFER_SIZE, TX_BUFFER_SIZE.
  assert (Hcount : serial_get_rx_buffer_count st =
                   (serial_rx_buffer_head st - serial_rx_buffer_tail st) mod 128).
  { unfold serial_get_rx_buffer_count, RX_BUFFER_SIZE. cbv zeta.
    apply count_is_length; lia. }
  pose proof (Z.mod_pos_bound
                (serial_rx_buffer_head st - serial_rx_buffer_tail st) 128
                ltac:(lia)) as Hb.
  pose proof (full_iff 128 (serial_rx_buffer_head st) (serial_rx_buffer_tail st)
                ltac:(lia) Hh Ht) as Hfull.
  split; [|split; [|split; [|split; [|split]]]].
  - rewrite Hcount. unfold rx_pending, RX_BUFFER_SIZE. rewrite ring_length.
    rewrite Z2Nat.id; lia.
  - lia.
  - intros data Hord.
    rewrite (serial_rx_isr_ordinary cmd mc_reset data st Hh Hord).
    split; [|split; [|split]].
    + intros Hroom.
      destruct (Z.eqb_spec ((serial_rx_buffer_head st + 1) mod 128)
                  (serial_rx_buffer_tail st)) as [E|E];
        [apply Hfull in E; lia|].
      cbn [negb]. unfold rx_pending, RX_BUFFER_SIZE.
      cbn [serial_rx_buffer serial_rx_buffer_head serial_rx_buffer_tail].
      apply ring_push; lia.
    + intros Hfl.
      destruct (Z.eqb_spec ((serial_rx_buffer_head st + 1) mod 128)
                  (serial_rx_buffer_tail st)) as [E|E]; [reflexivity|].
      exfalso. apply E, Hfull. lia.
    + now destruct (negb _).
    + pose proof (Z.mod_pos_bound (serial_rx_buffer_head st + 1) 128
                    ltac:(lia)).
      destruct (negb _); cbn; repeat split; lia.
  - unfold serial_read, rx_pending, RX_BUFFER_SIZE. cbv zeta.
    destruct (Z.eqb_spec (serial_rx_buffer_head st) (serial_rx_buffer_tail st))
      as [E|E].
    + rewrite E, ring_empty by lia. reflexivity.
    + rewrite (ring_pop 128) by lia. rewrite (next_index 128) by lia.
      eexists. split; [reflexivity|].
      pose proof (Z.mod_pos_bound (serial_rx_buffer_tail st + 1) 128
                    ltac:(lia)).
      cbn. repeat split; lia.
  - unfold rx_pending, serial_reset_read_buffer, RX_BUFFER_SIZE.
    cbn [serial_rx_buffer serial_rx_buffer_head serial_rx_buffer_tail].
    apply ring_empty. lia.
  - reflexivity.
Qed.

(** X24. The transmit buffer is a queue of at most 63 bytes.
    [serial_get_tx_buffer_count] is the number of bytes written and not yet
    sent.  When there is room, [serial_write] appends the byte and enables
    the data-register-empty interrupt; when the buffer is full it waits for
    that interrupt, unless a reset is pending, in which case it returns and
    the byte is lost.  The interrupt sends the oldest byte, removes it, and
    disables itself when the queue becomes empty. *)
Theorem serial_tx_is_a_queue (data : Z) (st : serial) :
  serial_ok st ->
  serial_get_tx_buffer_count st = Z.of_nat (List.length (tx_pending st)) /\
  (serial_get_tx_buffer_count st < TX_BUFFER_SIZE - 1 ->
   exists st',
     serial_write data st = Some st' /\
     tx_pending st' = tx_pending st ++ [data] /\ UDRIE0 st' = true /\
     rx_pending st' = rx_pending st /\ serial_ok st') /\
  (serial_get_tx_buffer_count st = TX_BUFFER_SIZE - 1 ->
   serial_write data st =
     if Z.land (sys_rt_exec_state st) EXEC_RESET =? 0 then None else Some st) /\
  match tx_pending st with
  | [] => True
  | first :: rest =>
      exists st',
        serial_udre_isr st = (first, st') /\ tx_pending st' = rest /\
        UDRIE0 st' = (if List.length rest =? 0 then false else UDRIE0 st)%nat /\
        rx_pending st' = rx_pending st /\ serial_ok st'
  end.
Proof.
  intros Hok. assert (Hok' := Hok).
  unfold serial_ok, RX_BUFFER_SIZE, TX_BUFFER_SIZE in Hok'.
  destruct Hok' as (Hh & Ht & Hth & Htt).
  unfold serial_ok, RX_BUFFER_SIZE, TX_BUFFER_SIZE.
  assert (Hcount : serial_get_tx_buffer_count st =
                   (serial_tx_buffer_head st - serial_tx_buffer_tail st) mod 64).
  { unfold serial_get_tx_buffer_count, TX_BUFFER_SIZE. cbv zeta.
    apply count_is_length; lia. }
  pose proof (Z.mod_pos_bound
                (serial_tx_buffer_head st - serial_tx_buffer_tail st) 64
                ltac:(lia)) as Hb.
  pose proof (full_iff 64 (serial_tx_buffer_head st) (serial_tx_buffer_tail st)
                ltac:(lia) Hth Htt) as Hfull.
  pose proof (Z.mod_pos_bound (serial_tx_buffer_head st + 1) 64 ltac:(lia)) as Hn.
  split; [|split; [|split]].
  - rewrite Hcount. unfold tx_pending, TX_BUFFER_SIZE. rewrite ring_length.
    rewrite Z2Nat.id; lia.
  - intros Hroom. unfold serial_write, TX_BUFFER_SIZE. cbv zeta.
    rewrite (next_index 64) by lia.
    destruct (Z.eqb_spec ((serial_tx_buffer_head st + 1) mod 64)
                (serial_tx_buffer_tail st)) as [E|E]; [apply Hfull in E; lia|].
    eexists. split; [reflexivity|]. split; [|split; [|split]].
    + unfold tx_pending, TX_BUFFER_SIZE.
      cbn [serial_tx_buffer serial_tx_buffer_head serial_tx_buffer_tail].
      apply ring_push; lia.
    + reflexivity.
    + reflexivity.
    + cbn. repeat split; lia.
  - intros Hfl. unfold serial_write, TX_BUFFER_SIZE. cbv zeta.
    rewrite (next_index 64) by lia.
    destruct (Z.eqb_spec ((serial_tx_buffer_head st + 1) mod 64)
                (serial_tx_buffer_tail st)) as [E|E].
    + now destruct (Z.land (sys_rt_exec_state st) EXEC_RESET =? 0).
    + exfalso. apply E, Hfull. lia.
  - unfold tx_pending, TX_BUFFER_SIZE.
    destruct (Z.eq_dec (serial_tx_buffer_head st) (serial_tx_buffer_tail st))
      as [E|E].
    + rewrite E, ring_empty by lia. exact I.
    + rewrite (ring_pop 64) by lia.
      pose proof (Z.mod_pos_bound (serial_tx_buffer_tail st + 1) 64 ltac:(lia))
        as Hm.
      eexists. split; [reflexivity|]. split; [|split; [|split]].
      * cbn [serial_udre_isr serial_tx_buffer serial_tx_buffer_head
               serial_tx_buffer_tail]. unfold TX_BUFFER_SIZE.
        rewrite (next_index 64) by lia. reflexivity.
      * cbn [UDRIE0]. unfold TX_BUFFER_SIZE. rewrite (next_index 64) by lia.
        rewrite ring_length.
        pose proof (mod_diff 64 (serial_tx_buffer_head st)
                      ((serial_tx_buffer_tail st + 1) mod 64) Hth Hm) as Hd.
        destruct (Z.eqb_spec ((serial_tx_buffer_tail st + 1) mod 64)
                    (serial_tx_buffer_head st)) as [F|F].
        -- rewrite F, Z.sub_diag, Z.mod_0_l by lia. reflexivity.
        -- replace (Z.to_nat _ =? 0)%nat with false; [reflexivity|].
           symmetry. apply Nat.eqb_neq. rewrite Hd.
           destruct (Z.leb_spec ((serial_tx_buffer_tail st + 1) mod 64)
                       (serial_tx_buffer_head st)); lia.
      * reflexivity.
      * cbn. unfold TX_BUFFER_SIZE. rewrite (next_index 64) by lia.
        repeat split; lia.
Qed.

(** X25. The real-time command characters, provided they are five
    different characters, never enter the receive buffer: the receive
    interrupt sets the status-report, cycle-start, feed-hold or safety-door
    bit of [sys_rt_exec_state], keeping the bits already set, or calls
    [mc_reset] for the reset character. *)
Theorem realtime_characters_bypass_the_buffer (cmd : realtime_chars)
    (mc_reset : serial -> serial) (st : serial) :
  NoDup [CMD_STATUS_REPORT cmd; CMD_CYCLE_START cmd; CMD_FEED_HOLD cmd;
         CMD_SAFETY_DOOR cmd; CMD_RESET cmd] ->
  Forall
    (fun p =>
       let st' := serial_rx_isr cmd mc_reset (fst p) st in
       rx_pending st' = rx_pending st /\
       sys_rt_exec_state st' = Z.lor (sys_rt_exec_state st) (snd p) /\
       Z.land (sys_rt_exec_state st') (snd p) = snd p)
    [(CMD_STATUS_REPORT cmd, EXEC_STATUS_REPORT);
     (CMD_CYCLE_START cmd, EXEC_CYCLE_START);
     (CMD_FEED_HOLD cmd, EXEC_FEED_HOLD);
     (CMD_SAFETY_DOOR cmd, EXEC_SAFETY_DOOR)] /\
  serial_rx_isr cmd mc_reset (CMD_RESET cmd) st = mc_reset st.
Proof.
  intros Hn.
  repeat match goal with
         | H : NoDup (_ :: _) |- _ =>
             let a := fresh "N" in
             apply NoDup_cons_iff in H as [a H]; cbn [In] in a
         end.
  assert (Hl : forall x m, Z.land (Z.lor x m) m = m).
  { intros x m. apply Z.bits_inj'. intros i _.
    rewrite Z.land_spec, Z.lor_spec.
    now destruct (Z.testbit x i), (Z.testbit m i). }
  split.
  - repeat constructor; cbn [fst snd]; unfold serial_rx_isr;
      rewrite ?Z.eqb_refl;
      repeat match goal with
             | |- context [?a =? ?b] =>
                 replace (a =? b) with false
                   by (symmetry; apply Z.eqb_neq; intuition congruence)
             end; try reflexivity; apply Hl.
  - unfold serial_rx_isr.
    repeat match goal with
           | |- context [CMD_RESET cmd =? ?b] =>
               lazymatch b with
               | CMD_RESET cmd => fail
               | _ => replace (CMD_RESET cmd =? b) with false
                   by (symmetry; apply Z.eqb_neq; intuition congruence)
               end
           end.
    now rewrite Z.eqb_refl.
Qed.

(** ** The TWI bus and the sensor drivers *)

Lemma u8_range x : 0 <= u8 x < 256.
Proof. unfold u8. apply Z.mod_pos_bound. lia. Qed.

Lemma inner_app a b : inner a -> inner b -> inner (a ++ b).
Proof. unfold inner. intros Ha Hb. now rewrite forallb_app, Ha, Hb. Qed.

Lemma inner_cons o m : inner_op o = true -> inner m -> inner (o :: m).
Proof. unfold inner. cbn. now intros -> ->. Qed.

Lemma transaction_intro m : inner m -> transaction (TwiStart :: m ++ [TwiStop]).
Proof. intros H. now exists m. Qed.

Lemma i2c_start_shape hw a h :
  exists m, snd (i2c_start hw a h) = h ++ TwiStart :: m /\ inner m.
Proof.
  unfold i2c_start. cbv zeta.
  destruct (_ && _).
  - now exists [].
  - exists [TwiSend a].
    destruct (_ && _); cbn [snd]; now rewrite <- app_assoc.
Qed.

Lemma i2c_restart_shape hw a h :
  exists m, snd (i2c_restart hw a h) = h ++ m /\ inner m.
Proof.
  destruct (i2c_start_shape hw a h) as (m & E & I).
  exists (TwiStart :: m). split; [exact E | now apply inner_cons].
Qed.

Lemma i2c_write_shape hw b h :
  exists m, snd (i2c_write hw b h) = h ++ m /\ inner m.
Proof.
  exists [TwiSend b]. unfold i2c_write. cbv zeta.
  now destruct (negb _).
Qed.

Lemma i2c_read_ack_shape hw h :
  exists m, snd (i2c_read_ack hw h) = h ++ m /\ inner m.
Proof. now exists [TwiRecv true]. Qed.

Lemma i2c_read_nack_shape hw h :
  exists m, snd (i2c_read_nack hw h) = h ++ m /\ inner m.
Proof. now exists [TwiRecv false]. Qed.

Lemma write_bytes_shape hw data : forall h,
  exists m, snd (write_bytes hw data h) = h ++ m /\ inner m.
Proof.
  induction data as [|b rest IH]; intros h; cbn [write_bytes].
  - exists []. now rewrite app_nil_r.
  - destruct (i2c_write_shape hw b h) as (m1 & E1 & I1).
    destruct (i2c_write hw b h) as [ret h1]. cbn [snd] in E1. subst h1.
    destruct (negb _).
    + now exists m1.
    + destruct (IH (h ++ m1)) as (m2 & E2 & I2).
      exists (m1 ++ m2). rewrite E2, app_assoc. split; [reflexivity|].
      now apply inner_app.
Qed.

Lemma read_bytes_shape hw remaining : forall h,
  exists m, snd (read_bytes hw remaining h) = h ++ m /\ inner m.
Proof.
  induction remaining as [|left' IH]; intros h; cbn [read_bytes].
  - exists []. now rewrite app_nil_r.
  - set (first := match left' with O => _ | S _ => _ end).
    assert (exists m, snd first = h ++ m /\ inner m) as (m1 & E1 & I1).
    { subst first. destruct left'.
      - apply i2c_read_nack_shape.
      - apply i2c_read_ack_shape. }
    destruct first as [b h1]. cbn [snd] in E1. subst h1.
    destruct (IH (h ++ m1)) as (m2 & E2 & I2).
    destruct (read_bytes hw left' (h ++ m1)) as [rest h2].
    cbn [snd] in *. subst h2.
    exists (m1 ++ m2). rewrite app_assoc. split; [reflexivity|].
    now apply inner_app.
Qed.

(** One step of a register access: name the result of the next bus
    primitive and the operations it added. *)
Ltac bus_step shape :=
  match goal with
  | |- context [let '(_, _) := ?call in _] =>
      let m := fresh "m" in
      let E := fresh "E" in
      let I := fresh "I" in
      let r := fresh "ret" in
      let h' := fresh "h" in
      destruct shape as (m & E & I);
      destruct call as [r h'];
      cbn [snd] in E; subst h'
  end.

Lemma closes (h : list twi_op) m :
  inner m -> adds_transaction h (i2c_stop (h ++ TwiStart :: m)).
Proof.
  intros I. exists (TwiStart :: m ++ [TwiStop]). split.
  - unfold i2c_stop. now rewrite <- app_assoc.
  - now apply transaction_intro.
Qed.

Ltac closes_transaction :=
  cbn [snd]; repeat rewrite <- app_assoc; cbn [app];
  apply closes; repeat apply inner_app; assumption.

Lemma i2c_write_register_transaction hw address reg data h :
  adds_transaction h (snd (i2c_write_register hw address reg data h)).
Proof.
  unfold i2c_write_register.
  bus_step (i2c_start_shape hw (u8 (Z.shiftl address 1)) h).
  destruct (negb _); [closes_transaction|].
  bus_step (i2c_write_shape hw reg (h ++ TwiStart :: m)).
  destruct (negb _); [closes_transaction|].
  bus_step (i2c_write_shape hw data ((h ++ TwiStart :: m) ++ m0)).
  closes_transaction.
Qed.

Lemma i2c_write_register_multi_transaction hw address reg data h :
  adds_transaction h (snd (i2c_write_register_multi hw address reg data h)).
Proof.
  unfold i2c_write_register_multi.
  bus_step (i2c_start_shape hw (u8 (Z.shiftl address 1)) h).
  destruct (negb _); [closes_transaction|].
  bus_step (i2c_write_shape hw reg (h ++ TwiStart :: m)).
  destruct (negb _); [closes_transaction|].
  bus_step (write_bytes_shape hw data ((h ++ TwiStart :: m) ++ m0)).
  destruct (negb _); closes_transaction.
Qed.

Lemma i2c_read_register_transaction hw address reg h :
  adds_transaction h (snd (i2c_read_register hw address reg h)).
Proof.
  unfold i2c_read_register.
  bus_step (i2c_start_shape hw (u8 (Z.shiftl address 1)) h).
  destruct (negb _); [closes_transaction|].
  bus_step (i2c_write_shape hw reg (h ++ TwiStart :: m)).
  destruct (negb _); [closes_transaction|].
  bus_step (i2c_restart_shape hw (u8 (Z.lor (Z.shiftl address 1) 1))
              ((h ++ TwiStart :: m) ++ m0)).
  destruct (negb _); [closes_transaction|].
  bus_step (i2c_read_nack_shape hw (((h ++ TwiStart :: m) ++ m0) ++ m1)).
  closes_transaction.
Qed.

Lemma i2c_read_register_multi_transaction hw address reg data length h :
  adds_transaction h
    (snd (i2c_read_register_multi hw address reg data length h)).
Proof.
  unfold i2c_read_register_multi.
  bus_step (i2c_start_shape hw (u8 (Z.shiftl address 1)) h).
  destruct (negb _); [closes_transaction|].
  bus_step (i2c_write_shape hw reg (h ++ TwiStart :: m)).
  destruct (negb _); [closes_transaction|].
  bus_step (i2c_restart_shape hw (u8 (Z.lor (Z.shiftl address 1) 1))
              ((h ++ TwiStart :: m) ++ m0)).
  destruct (negb _); [closes_transaction|].
  bus_step (read_bytes_shape hw length (((h ++ TwiStart :: m) ++ m0) ++ m1)).
  closes_transaction.
Qed.

Lemma vl53l1_read16_transaction hw reg h :
  adds_transaction h (snd (vl53l1_read16 hw reg h)).
Proof.
  unfold vl53l1_read16. cbv zeta.
  bus_step (i2c_start_shape hw (u8 (Z.shiftl VL53L1_I2C_ADDR 1)) h).
  destruct (negb _); [closes_transaction|].
  bus_step (i2c_write_shape hw (Z.land (Z.shiftr reg 8) 255)
              (h ++ TwiStart :: m)).
  destruct (negb _); [closes_transaction|].
  bus_step (i2c_write_shape hw (Z.land reg 255)
              ((h ++ TwiStart :: m) ++ m0)).
  destruct (negb _); [closes_transaction|].
  bus_step (i2c_restart_shape hw (u8 (Z.lor (Z.shiftl VL53L1_I2C_ADDR 1) 1))
              (((h ++ TwiStart :: m) ++ m0) ++ m1)).
  destruct (negb _); [closes_transaction|].
  bus_step (i2c_read_ack_shape hw
              ((((h ++ TwiStart :: m) ++ m0) ++ m1) ++ m2)).
  bus_step (i2c_read_nack_shape hw
              (((((h ++ TwiStart :: m) ++ m0) ++ m1) ++ m2) ++ m3)).
  closes_transaction.
Qed.

Lemma paused_ms_app a b : paused_ms (a ++ b) = paused_ms a + paused_ms b.
Proof.
  induction a as [|o a IH]; cbn [app paused_ms]; [lia|].
  destruct o; rewrite IH; lia.
Qed.

Lemma transactions_app a b :
  transactions (a ++ b) = (transactions a + transactions b)%nat.
Proof. unfold transactions. now rewrite filter_app, length_app. Qed.

Lemma received_app a b : received (a ++ b) = (received a + received b)%nat.
Proof. unfold received. now rewrite filter_app, length_app. Qed.

Lemma inner_quiet m : inner m -> paused_ms m = 0 /\ transactions m = 0%nat.
Proof.
  unfold inner, transactions.
  induction m as [|o m IH]; cbn [forallb paused_ms filter]; [easy|].
  intros H. apply andb_prop in H as [Ho Hm].
  destruct o; cbn in Ho; try discriminate; cbn [is_stop]; auto.
Qed.

Lemma transaction_counts h h' :
  adds_transaction h h' ->
  paused_ms h' = paused_ms h /\ transactions h' = S (transactions h).
Proof.
  intros (ops & -> & m & -> & I). apply inner_quiet in I as [P T].
  rewrite paused_ms_app, transactions_app.
  change (TwiStart :: m ++ [TwiStop]) with ([TwiStart] ++ m ++ [TwiStop]).
  rewrite !paused_ms_app, !transactions_app, P, T. cbn. lia.
Qed.

(** *** A bus without devices *)

Lemma silent_start hw a h :
  silent_bus hw ->
  exists m, i2c_start hw a h = (1, h ++ TwiStart :: m) /\ received m = 0%nat.
Proof.
  intros S. unfold i2c_start. cbv zeta.
  destruct (_ && _).
  - now exists [].
  - exists [TwiSend a]. rewrite <- app_assoc. cbn [app].
    destruct (S (h ++ [TwiStart]) a) as [S1 S2].
    rewrite <- app_assoc in S1, S2. cbn [app] in S1, S2.
    apply Z.eqb_neq in S1, S2. now rewrite S1, S2.
Qed.

Lemma silent_stop h m :
  received m = 0%nat ->
  received (i2c_stop (h ++ TwiStart :: m)) = received h.
Proof.
  intros R. unfold i2c_stop.
  change (TwiStart :: m) with ([TwiStart] ++ m).
  rewrite !received_app, R. cbn. lia.
Qed.

Lemma silent_read_register hw address reg h :
  silent_bus hw ->
  fst (i2c_read_register hw address reg h) = 0 /\
  received (snd (i2c_read_register hw address reg h)) = received h.
Proof.
  intros S. unfold i2c_read_register.
  destruct (silent_start hw (u8 (Z.shiftl address 1)) h S) as (m & -> & R).
  cbn [Z.eqb negb fst snd]. split; [reflexivity | now apply silent_stop].
Qed.

Lemma silent_write_register hw address reg data h :
  silent_bus hw ->
  fst (i2c_write_register hw address reg data h) = 1 /\
  received (snd (i2c_write_register hw address reg data h)) = received h.
Proof.
  intros S. unfold i2c_write_register.
  destruct (silent_start hw (u8 (Z.shiftl address 1)) h S) as (m & -> & R).
  cbn [Z.eqb negb fst snd]. split; [reflexivity | now apply silent_stop].
Qed.

Lemma silent_read_register_multi hw address reg data length h :
  silent_bus hw ->
  fst (i2c_read_register_multi hw address reg data length h) = (1, data) /\
  received (snd (i2c_read_register_multi hw address reg data length h))
  = received h.
Proof.
  intros S. unfold i2c_read_register_multi.
  destruct (silent_start hw (u8 (Z.shiftl address 1)) h S) as (m & -> & R).
  cbn [Z.eqb negb fst snd]. split; [reflexivity | now apply silent_stop].
Qed.

Lemma silent_read16 hw reg h :
  silent_bus hw ->
  fst (vl53l1_read16 hw reg h) = 0 /\
  received (snd (vl53l1_read16 hw reg h)) = received h.
Proof.
  intros S. unfold vl53l1_read16. cbv zeta.
  destruct (silent_start hw (u8 (Z.shiftl VL53L1_I2C_ADDR 1)) h S)
    as (m & -> & R).
  cbn [Z.eqb negb fst snd]. split; [reflexivity | now apply silent_stop].
Qed.

Lemma empty_bus_silent : silent_bus empty_bus.
Proof.
  intros h a. unfold tw_status, empty_bus. cbn [TWSR].
  rewrite rev_app_distr. cbn. split; discriminate.
Qed.

(** X26. Each of the four register accesses of the I2C module adds one
    transaction to the bus, whether it succeeds or not: it begins with a
    start condition, contains neither a stop nor a pause, and ends with the
    stop condition that releases the bus.  A failed block read leaves the
    caller's array as it was. *)
Theorem register_access_is_one_transaction hw address reg h :
  (forall data,
     adds_transaction h (snd (i2c_write_register hw address reg data h))) /\
  (forall data,
     adds_transaction h
       (snd (i2c_write_register_multi hw address reg data h))) /\
  adds_transaction h (snd (i2c_read_register hw address reg h)) /\
  (forall data length,
     let '(ret, data', h') :=
       i2c_read_register_multi hw address reg data length h in
     adds_transaction h h' /\ (ret = 0 \/ ret = 1 /\ data' = data)).
Proof.
  split; [|split; [|split]].
  - intros data. apply i2c_write_register_transaction.
  - intros data. apply i2c_write_register_multi_transaction.
  - apply i2c_read_register_transaction.
  - intros data length.
    pose proof (i2c_read_register_multi_transaction hw address reg data
                  length h) as T.
    destruct (i2c_read_register_multi hw address reg data length h)
      as [[ret data'] h'] eqn:E.
    split; [exact T|].
    revert E. unfold i2c_read_register_multi.
    destruct (i2c_start _ _ _) as [r1 h1].
    destruct (negb _); [intros [= <- <- _]; auto|].
    destruct (i2c_write _ _ _) as [r2 h2].
    destruct (negb _); [intros [= <- <- _]; auto|].
    destruct (i2c_restart _ _ _) as [r3 h3].
    destruct (negb _); [intros [= <- <- _]; auto|].
    destruct (read_bytes _ _ _) as [bytes h4].
    intros [= <- _ _]. auto.
Qed.

(** *** The VL53L0X driver *)

Lemma vl53_write_reg_counts hw reg value h :
  paused_ms (vl53_write_reg hw reg value h) = paused_ms h /\
  transactions (vl53_write_reg hw reg value h) = S (transactions h).
Proof.
  apply transaction_counts, i2c_write_register_transaction.
Qed.

Lemma vl53_read_reg_counts hw reg h :
  paused_ms (snd (vl53_read_reg hw reg h)) = paused_ms h /\
  transactions (snd (vl53_read_reg hw reg h)) = S (transactions h).
Proof.
  apply transaction_counts, i2c_read_register_transaction.
Qed.

Lemma vl53_read_multi_counts hw reg buffer len h :
  paused_ms (snd (vl53_read_multi hw reg buffer len h)) = paused_ms h /\
  transactions (snd (vl53_read_multi hw reg buffer len h))
  = S (transactions h).
Proof.
  unfold vl53_read_multi.
  pose proof (i2c_read_register_multi_transaction hw VL53L0X_I2C_ADDR reg
                buffer len h) as T.
  destruct (i2c_read_register_multi _ _ _ _ _ _) as [[ret b] h'].
  now apply transaction_counts.
Qed.

Ltac count_write :=
  match goal with
  | |- context [vl53_write_reg ?hw ?r ?v ?h] =>
      let P := fresh "P" in
      let T := fresh "T" in
      destruct (vl53_write_reg_counts hw r v h) as [P T];
      rewrite ?P, ?T; clear P T
  end.

(** X27. [vl53l0x_init] pauses 100 ms and reads the model identifier.  It
    returns 1 exactly when this read gives 0xEE, after eight more register
    accesses whose acknowledgement it does not look at, and then clears the
    timeout flag; otherwise it returns 0 after this one access and leaves
    the flag as it was.  It never changes the timeout setting, which
    [main] sets to 500 only when the sensor was found. *)
Theorem vl53l0x_init_checks_model_id hw d :
  let model_id :=
    fst (vl53_read_reg hw VL53L0X_REG_IDENTIFICATION_MODEL_ID
           (bus d ++ [TwiDelayMs 100])) in
  let '(ret, d') := vl53l0x_init hw d in
  paused_ms (bus d') = paused_ms (bus d) + 100 /\
  io_timeout d' = io_timeout d /\
  io_timeout (main_sensor_init hw d)
  = (if model_id =? 238 then 500 else io_timeout d) /\
  (ret = 1 /\ model_id = 238 /\ vl53l0x_timeoutOccurred d' = 0 /\
   transactions (bus d') = (transactions (bus d) + 9)%nat
   \/
   ret = 0 /\ model_id <> 238 /\
   vl53l0x_timeoutOccurred d' = vl53l0x_timeoutOccurred d /\
   transactions (bus d') = (transactions (bus d) + 1)%nat).
Proof.
  cbv zeta. unfold main_sensor_init, vl53l0x_init. cbv zeta.
  destruct (vl53_read_reg_counts hw VL53L0X_REG_IDENTIFICATION_MODEL_ID
              (bus d ++ [TwiDelayMs 100])) as [P0 T0].
  rewrite paused_ms_app, transactions_app in *.
  cbn [paused_ms transactions filter is_stop List.length] in P0, T0.
  destruct (vl53_read_reg hw VL53L0X_REG_IDENTIFICATION_MODEL_ID _)
    as [model_id h0].
  cbn [fst snd] in *.
  destruct (model_id =? 238) eqn:M; cbn [negb].
  - apply Z.eqb_eq in M.
    set (h8 := vl53_write_reg hw 0 0 _).
    destruct (vl53_read_reg_counts hw 145 h8) as [P9 T9].
    destruct (vl53_read_reg hw 145 h8) as [x h9]. cbn [snd] in P9, T9.
    cbn [bus io_timeout timeout_flag vl53l0x_timeoutOccurred].
    repeat count_write. rewrite P9, T9. subst h8.
    repeat count_write. rewrite P0, T0.
    split; [lia|]. split; [reflexivity|]. split; [reflexivity|].
    left. repeat split; try lia.
  - apply Z.eqb_neq in M.
    cbn [bus io_timeout timeout_flag vl53l0x_timeoutOccurred].
    split; [lia|]. split; [reflexivity|]. split; [reflexivity|].
    right. repeat split; try lia.
Qed.

Lemma wait_measurement_spec hw limit :
  0 <= limit <= 100 ->
  forall fuel t h,
    0 <= t <= limit -> limit - t < Z.of_nat fuel ->
    let '(t', h') := wait_measurement hw fuel t limit h in
    t <= t' <= limit /\
    paused_ms h' = paused_ms h + (t' - t) /\
    Z.of_nat (transactions h')
    = Z.of_nat (transactions h) + (t' - t) + (if t' <? limit then 1 else 0).
Proof.
  intros L. induction fuel as [|fuel IH]; intros t h Ht Hf; [lia|].
  cbn [wait_measurement].
  destruct (t <? limit) eqn:C.
  - apply Z.ltb_lt in C.
    destruct (vl53_read_reg_counts hw VL53L0X_REG_SYSRANGE_START h) as [P T].
    destruct (vl53_read_reg hw VL53L0X_REG_SYSRANGE_START h) as [status h1].
    cbn [snd] in P, T.
    destruct (Z.land status 1 =? 0).
    + apply Z.ltb_lt in C. rewrite C. rewrite P, T. lia.
    + assert (U : u8 (t + 1) = t + 1) by (unfold u8; apply Z.mod_small; lia).
      rewrite U.
      specialize (IH (t + 1) (h1 ++ [TwiDelayMs 1])).
      destruct (wait_measurement hw fuel (t + 1) limit _) as [t' h'].
      destruct IH as (B & P' & T'); [lia | lia |].
      rewrite paused_ms_app, transactions_app in *.
      cbn [paused_ms transactions filter is_stop List.length] in P', T'.
      rewrite P', T', P, T. repeat split; try lia.
  - rewrite C. lia.
Qed.

(** The fuel given to the loop is never used up. *)
Lemma wait_measurement_fuel hw limit :
  0 <= limit <= 100 ->
  forall fuel1 fuel2 t h,
    0 <= t <= limit ->
    limit - t < Z.of_nat fuel1 -> limit - t < Z.of_nat fuel2 ->
    wait_measurement hw fuel1 t limit h = wait_measurement hw fuel2 t limit h.
Proof.
  intros L. induction fuel1 as [|fuel1 IH]; intros fuel2 t h Ht H1 H2; [lia|].
  destruct fuel2 as [|fuel2]; [lia|].
  cbn [wait_measurement].
  destruct (t <? limit) eqn:C; [|reflexivity].
  apply Z.ltb_lt in C.
  destruct (vl53_read_reg hw VL53L0X_REG_SYSRANGE_START h) as [status h1].
  destruct (Z.land status 1 =? 0); [reflexivity|].
  assert (U : u8 (t + 1) = t + 1) by (unfold u8; apply Z.mod_small; lia).
  rewrite U. apply IH; lia.
Qed.

Lemma range_of_bound msb lsb :
  0 <= msb -> 0 <= lsb -> 0 <= range_of msb lsb <= 8190.
Proof.
  intros Hm Hl. unfold range_of. cbv zeta.
  assert (0 <= Z.lor (Z.shiftl msb 8) lsb).
  { apply Z.lor_nonneg. split; [apply Z.shiftl_nonneg|]; lia. }
  destruct (8190 <=? _) eqn:C; [lia|]. apply Z.leb_gt in C. lia.
Qed.

Lemma read_bytes_bytes hw remaining : forall h,
  Forall (fun b => 0 <= b < 256) (fst (read_bytes hw remaining h)).
Proof.
  induction remaining as [|left' IH]; intros h; cbn [read_bytes]; [constructor|].
  set (first := match left' with O => _ | S _ => _ end).
  assert (0 <= fst first < 256) as B.
  { subst first. destruct left'; apply u8_range. }
  destruct first as [b h1]. cbn [fst] in B.
  specialize (IH h1). destruct (read_bytes hw left' h1) as [rest h2].
  cbn [fst] in *. now constructor.
Qed.

Lemma nth_byte (l : list Z) i :
  Forall (fun b => 0 <= b < 256) l -> 0 <= nth i l 0 < 256.
Proof.
  intros F. revert i. induction F as [|b l Hb F IH]; intros [|i]; cbn; auto; lia.
Qed.

Lemma vl53_read_multi_bytes hw reg buffer len h :
  Forall (fun b => 0 <= b < 256) buffer ->
  Forall (fun b => 0 <= b < 256) (fst (vl53_read_multi hw reg buffer len h)).
Proof.
  intros B. unfold vl53_read_multi, i2c_read_register_multi.
  destruct (i2c_start _ _ _) as [r1 h1].
  destruct (negb _); [exact B|].
  destruct (i2c_write _ _ _) as [r2 h2].
  destruct (negb _); [exact B|].
  destruct (i2c_restart _ _ _) as [r3 h3].
  destruct (negb _); [exact B|].
  pose proof (read_bytes_bytes hw len h3) as R.
  destruct (read_bytes hw len h3) as [bytes h4]. cbn [fst] in *.
  apply Forall_app. split; [exact R|].
  rewrite Forall_forall in *. intros x Hx. apply B.
  rewrite <- (firstn_skipn len buffer). apply in_or_app. now right.
Qed.

Lemma uninit_bytes (uninit : nat -> Z) n m :
  Forall (fun b => 0 <= b < 256) (map (fun i => u8 (uninit i)) (seq n m)).
Proof.
  rewrite Forall_forall. intros x Hx. apply in_map_iff in Hx as (i & <- & _).
  apply u8_range.
Qed.

(** X28. A range reading of the VL53L0X driver lies between 0 and 8190 and
    keeps the timeout setting.  The driver waits for the measurement for
    at most min(timeout, 100) ms: when it has waited that long it sets
    the timeout flag and returns 0 without reading a result; otherwise
    the flag is 0 and the result block is read in one more access. *)
Theorem vl53l0x_read_range hw uninit d :
  0 <= io_timeout d ->
  let limit := Z.min (io_timeout d) 100 in
  let '(range, d') := vl53l0x_readRangeContinuousMillimeters hw uninit d in
  let waited := paused_ms (bus d') - paused_ms (bus d) in
  let accesses :=
    Z.of_nat (transactions (bus d')) - Z.of_nat (transactions (bus d)) in
  0 <= range <= 8190 /\ io_timeout d' = io_timeout d /\
  (vl53l0x_timeoutOccurred d' = 1 /\ range = 0 /\
   waited = limit /\ accesses = 1 + limit
   \/
   vl53l0x_timeoutOccurred d' = 0 /\
   0 <= waited < limit /\ accesses = 3 + waited).
Proof.
  intros H0. cbv zeta. unfold vl53l0x_readRangeContinuousMillimeters.
  cbv zeta.
  set (limit := if io_timeout d <? 100 then io_timeout d else 100).
  assert (EL : Z.min (io_timeout d) 100 = limit).
  { subst limit. destruct (io_timeout d <? 100) eqn:C.
    - apply Z.ltb_lt in C. lia.
    - apply Z.ltb_ge in C. lia. }
  rewrite EL. assert (L : 0 <= limit <= 100) by lia.
  destruct (vl53_write_reg_counts hw VL53L0X_REG_SYSRANGE_START 1 (bus d))
    as [P1 T1].
  set (h1 := vl53_write_reg hw VL53L0X_REG_SYSRANGE_START 1 (bus d)) in *.
  pose proof (wait_measurement_spec hw limit L 101 0 h1) as W.
  destruct (wait_measurement hw 101 0 limit h1) as [t h2].
  destruct W as (B & P2 & T2); [lia | lia |].
  destruct (limit <=? t) eqn:C.
  - apply Z.leb_le in C.
    cbn [bus io_timeout timeout_flag vl53l0x_timeoutOccurred].
    assert (t = limit) as -> by lia.
    rewrite Z.ltb_irrefl in T2.
    split; [lia|]. split; [reflexivity|]. left. repeat split; lia.
  - apply Z.leb_gt in C.
    set (buffer0 := map _ _).
    pose proof (vl53_read_multi_bytes hw VL53L0X_REG_RESULT_RANGE_STATUS
                  buffer0 12 h2 (uninit_bytes uninit 0 12)) as BB.
    destruct (vl53_read_multi_counts hw VL53L0X_REG_RESULT_RANGE_STATUS
                buffer0 12 h2) as [P3 T3].
    destruct (vl53_read_multi hw VL53L0X_REG_RESULT_RANGE_STATUS buffer0 12 h2)
      as [buffer h3].
    cbn [fst snd] in *.
    pose proof (range_of_bound (nth 10 buffer 0) (nth 11 buffer 0)) as R.
    unfold range_of in R. cbv zeta in R.
    pose proof (nth_byte buffer 10 BB). pose proof (nth_byte buffer 11 BB).
    apply Z.ltb_lt in C. rewrite C in T2. apply Z.ltb_lt in C.
    destruct (8190 <=? _);
      cbn [bus io_timeout timeout_flag vl53l0x_timeoutOccurred];
      (split; [lia|]); (split; [reflexivity|]); right; repeat split; lia.
Qed.

(** X29. With no device on the bus and a timeout setting above 0, a range
    reading of the VL53L0X driver reports no timeout and does not wait:
    the unanswered status read counts as a finished measurement, the
    block read fails unnoticed, and the value returned is computed from
    what the uninitialised array [buffer] held. *)
Theorem vl53l0x_read_range_without_device hw uninit d :
  silent_bus hw -> 0 < io_timeout d ->
  let '(range, d') := vl53l0x_readRangeContinuousMillimeters hw uninit d in
  range = range_of (u8 (uninit 10%nat)) (u8 (uninit 11%nat)) /\
  vl53l0x_timeoutOccurred d' = 0 /\
  paused_ms (bus d') = paused_ms (bus d) /\
  received (bus d') = received (bus d).
Proof.
  intros S H0. unfold vl53l0x_readRangeContinuousMillimeters. cbv zeta.
  set (limit := if io_timeout d <? 100 then io_timeout d else 100).
  assert (L : 0 < limit).
  { subst limit. destruct (io_timeout d <? 100); lia. }
  destruct (vl53_write_reg_counts hw VL53L0X_REG_SYSRANGE_START 1 (bus d))
    as [P1 _].
  destruct (silent_write_register hw VL53L0X_I2C_ADDR
              VL53L0X_REG_SYSRANGE_START 1 (bus d) S) as [_ R1].
  fold (vl53_write_reg hw VL53L0X_REG_SYSRANGE_START 1 (bus d)) in R1.
  set (h1 := vl53_write_reg hw VL53L0X_REG_SYSRANGE_START 1 (bus d)) in *.
  change (wait_measurement hw 101 0 limit h1)
    with (if 0 <? limit then
            let '(status, h) := vl53_read_reg hw VL53L0X_REG_SYSRANGE_START h1
            in if Z.land status 1 =? 0 then (0, h)
               else wait_measurement hw 100 (u8 (0 + 1)) limit
                      (h ++ [TwiDelayMs 1])
          else (0, h1)).
  apply Z.ltb_lt in L. rewrite L. apply Z.ltb_lt in L.
  destruct (vl53_read_reg_counts hw VL53L0X_REG_SYSRANGE_START h1) as [P2 _].
  destruct (silent_read_register hw VL53L0X_I2C_ADDR
              VL53L0X_REG_SYSRANGE_START h1 S) as [V2 R2].
  fold (vl53_read_reg hw VL53L0X_REG_SYSRANGE_START h1) in V2, R2.
  destruct (vl53_read_reg hw VL53L0X_REG_SYSRANGE_START h1) as [status h2].
  cbn [fst snd] in *. subst status. cbn [Z.land Z.eqb].
  apply Z.leb_gt in L. rewrite L.
  set (buffer0 := map _ _).
  destruct (vl53_read_multi_counts hw VL53L0X_REG_RESULT_RANGE_STATUS
              buffer0 12 h2) as [P3 _].
  destruct (silent_read_register_multi hw VL53L0X_I2C_ADDR
              VL53L0X_REG_RESULT_RANGE_STATUS buffer0 12 h2 S) as [V3 R3].
  unfold vl53_read_multi in *.
  destruct (i2c_read_register_multi hw VL53L0X_I2C_ADDR
              VL53L0X_REG_RESULT_RANGE_STATUS buffer0 12 h2)
    as [[ret buffer] h3].
  cbn [fst snd] in *. injection V3 as -> ->.
  subst buffer0. cbn [seq map nth]. unfold range_of. cbv zeta.
  destruct (8190 <=? _);
    cbn [bus io_timeout timeout_flag vl53l0x_timeoutOccurred];
    repeat split; congruence.
Qed.

(** *** The VL53L1 driver *)

(** X30. A range reading of the VL53L1 driver is one bus transaction and
    lies between 0 and 8190.  The driver never waits and always leaves
    the timeout flag at 0, so that [vl53l1_timeoutOccurred] is 0 after
    every reading; with no device on the bus the reading is 0. *)
Theorem vl53l1_read_range hw d :
  let '(range, d') := vl53l1_readRangeContinuousMillimeters hw d in
  0 <= range <= 8190 /\
  adds_transaction (bus d) (bus d') /\
  vl53l1_timeoutOccurred d' = 0 /\
  io_timeout d' = io_timeout d /\
  (silent_bus hw -> range = 0).
Proof.
  unfold vl53l1_readRangeContinuousMillimeters.
  pose proof (vl53l1_read16_transaction hw VL53L1_REG_RESULT_DISTANCE (bus d))
    as T.
  assert (0 <= fst (vl53l1_read16 hw VL53L1_REG_RESULT_DISTANCE (bus d))) as B.
  { unfold vl53l1_read16. cbv zeta.
    destruct (i2c_start _ _ _) as [r1 h1].
    destruct (negb _); [cbn; lia|].
    destruct (i2c_write _ _ _) as [r2 h2].
    destruct (negb _); [cbn; lia|].
    destruct (i2c_write _ _ _) as [r3 h3].
    destruct (negb _); [cbn; lia|].
    destruct (i2c_restart _ _ _) as [r4 h4].
    destruct (negb _); [cbn; lia|].
    unfold i2c_read_ack, i2c_read_nack. cbv zeta. cbn [fst].
    apply Z.lor_nonneg. split; [apply Z.shiftl_nonneg|]; apply u8_range. }
  pose proof (silent_read16 hw VL53L1_REG_RESULT_DISTANCE (bus d)) as S.
  destruct (vl53l1_read16 hw VL53L1_REG_RESULT_DISTANCE (bus d))
    as [distance h].
  cbn [fst snd] in *.
  destruct (8190 <=? distance) eqn:C;
    cbn [bus io_timeout timeout_flag vl53l1_timeoutOccurred];
    (split; [|split; [exact T|split; [reflexivity|split; [reflexivity|]]]]).
  - lia.
  - intros Hs. destruct (S Hs) as [-> _]. discriminate C.
  - apply Z.leb_gt in C. lia.
  - intros Hs. now destruct (S Hs).
Qed.

(** ** Instances *)

Lemma eeprom_checksum_round_trip_witness :
  memcpy_from_eeprom_with_checksum 16 3
    (memcpy_to_eeprom_with_checksum 16 [71; 0; 255] erased_eeprom)
  = ([71; 0; 255], 1).
Proof.
  apply (eeprom_checksum_round_trip 16 [71; 0; 255] erased_eeprom);
    cbn; unfold EEPROM_SIZE; lia.
Defined.

Lemma eeprom_checksum_misses_corruption_witness :
  memcpy_from_eeprom_with_checksum 16 4
    (corrupt 16 [99; 98]
       (memcpy_to_eeprom_with_checksum 16 [10; 20; 30; 40] erased_eeprom))
  = ([99; 98; 30; 40], 1).
Proof.
  apply (eeprom_checksum_misses_corruption 16 [10; 20] [99; 98] 30 40
           erased_eeprom); cbn; unfold EEPROM_SIZE; lia.
Defined.

Lemma serial_rx_is_a_queue_witness :
  rx_pending (serial_rx_isr grbl_chars (fun st => st) 71 idle_serial) = [71].
Proof.
  refine (proj1 (proj1 (proj2 (proj2
    (serial_rx_is_a_queue grbl_chars (fun st => st) idle_serial _)))
    71 _) _).
  - unfold serial_ok, RX_BUFFER_SIZE, TX_BUFFER_SIZE; cbn; lia.
  - unfold ordinary; cbn; repeat split; discriminate.
  - vm_compute; reflexivity.
Defined.

Lemma serial_tx_is_a_queue_witness :
  exists st',
    serial_write 71 idle_serial = Some st' /\ tx_pending st' = [71].
Proof.
  destruct (proj1 (proj2
    (serial_tx_is_a_queue 71 idle_serial
       ltac:(unfold serial_ok, RX_BUFFER_SIZE, TX_BUFFER_SIZE; cbn; lia)))
    ltac:(vm_compute; reflexivity))
    as (st' & W & P & _).
  exists st'. split; [exact W | exact P].
Defined.

Lemma realtime_characters_bypass_the_buffer_witness :
  serial_rx_isr grbl_chars (fun st => st) 24 idle_serial = idle_serial.
Proof.
  apply (realtime_characters_bypass_the_buffer grbl_chars (fun st => st)
           idle_serial).
  repeat constructor; cbn; intuition discriminate.
Defined.

Lemma vl53l0x_read_range_witness :
  0 <= fst (vl53l0x_readRangeContinuousMillimeters empty_bus (fun _ => 7)
              (mkDriver 0 500 [])) <= 8190.
Proof.
  pose proof (vl53l0x_read_range empty_bus (fun _ => 7) (mkDriver 0 500 [])
                ltac:(cbn; lia)) as H.
  cbv zeta in H.
  destruct (vl53l0x_readRangeContinuousMillimeters _ _ _) as [range d'].
  exact (proj1 H).
Defined.

Lemma vl53l0x_read_range_without_device_witness :
  fst (vl53l0x_readRangeContinuousMillimeters empty_bus (fun _ => 7)
         (mkDriver 0 500 [])) = 1799.
Proof.
  pose proof (vl53l0x_read_range_without_device empty_bus (fun _ => 7)
                (mkDriver 0 500 []) empty_bus_silent ltac:(cbn; lia)) as H.
  destruct (vl53l0x_readRangeContinuousMillimeters _ _ _) as [range d'].
  exact (proj1 H).
Defined.
